(** * xdrpp: marshalling helpers and the pollset event loop

    A shallow embedding of [xdrpp/marshal.cc], [xmsg/pollset.cc] and the
    naming of a host and service of [xdrpp/socket.cc], with the
    properties of the event-dispatch engine, of the padded byte copies
    and of the naming stated and proved over it. *)

From Stdlib Require Import ZArith Lia.
From Stdlib.Strings Require Import Byte String Ascii.
From stdpp Require Import base numbers option list sorting gmap.

Local Open Scope Z_scope.

(** ** Machine integers *)

(** [std::size_t] is 64 bits wide; [++len] wraps around. *)
Definition size_max : Z := 2 ^ 64.
Definition wrap_size (z : Z) : Z := z mod size_max.

(** ** marshal.cc *)

Module Marshal.

(** What a call can do besides returning: throw [xdr_should_be_zero],
    touch memory outside the buffer (undefined), or, in the model only,
    exhaust the loop budget. *)
Inductive result (A : Type) : Type :=
| Ok (a : A)
| XdrShouldBeZero
| Undefined
| NoFuel.
Arguments Ok {A} a.
Arguments XdrShouldBeZero {A}.
Arguments Undefined {A}.
Arguments NoFuel {A}.

(** The message buffer is a sequence of bytes; a cursor ([pr], and the
    [char *p] made from it) is a byte offset into it. *)
Abbreviation buffer := (list byte).

(** [std::memcpy(buf, p, len)]: read [len] bytes at offset [p]. *)
Definition memcpy_out (mem : buffer) (p len : nat) : option (list byte) :=
  if decide (p + len <= length mem)%nat
  then Some (take len (drop p mem))
  else None.

(** [std::memcpy(p, buf, len)]: write the bytes of [src] at offset [p]. *)
Definition memcpy_in (mem : buffer) (p : nat) (src : list byte) : option buffer :=
  if decide (p + length src <= length mem)%nat
  then Some (take p mem ++ src ++ drop (p + length src) mem)
  else None.

(** [while (len & 3) { ++len; if ( *p++ != '\0') throw ...; }] *)
Fixpoint get_pad (fuel : nat) (mem : buffer) (p : nat) (len : Z) : result nat :=
  if Z.land len 3 =? 0 then Ok p
  else match fuel with
       | O => NoFuel
       | S fuel' =>
           match mem !! p with
           | None => Undefined
           | Some c =>
               if Byte.eqb c "000"%byte
               then get_pad fuel' mem (S p) (wrap_size (len + 1))
               else XdrShouldBeZero
           end
       end.

(** [while (len & 3) { ++len; *p++ = '\0'; }] *)
Fixpoint put_pad (fuel : nat) (mem : buffer) (p : nat) (len : Z)
  : result (buffer * nat) :=
  if Z.land len 3 =? 0 then Ok (mem, p)
  else match fuel with
       | O => NoFuel
       | S fuel' =>
           if decide (p < length mem)%nat
           then put_pad fuel' (<[p := "000"%byte]> mem) (S p) (wrap_size (len + 1))
           else Undefined
       end.

(** The padding loops run at most three times. *)
Definition pad_fuel : nat := 3.

(** [marshal_base::get_bytes]: the bytes copied to [buf] and the new
    cursor. *)
Definition get_bytes (mem : buffer) (pr len : nat) : result (list byte * nat) :=
  match memcpy_out mem pr len with
  | None => Undefined
  | Some buf =>
      match get_pad pad_fuel mem (pr + len) (Z.of_nat len) with
      | Ok p => Ok (buf, p)
      | XdrShouldBeZero => XdrShouldBeZero
      | Undefined => Undefined
      | NoFuel => NoFuel
      end
  end.

(** [marshal_base::put_bytes]: the buffer after the copy and the new
    cursor; [len] is the length of [buf]. *)
Definition put_bytes (mem : buffer) (pr : nat) (buf : list byte)
  : result (buffer * nat) :=
  match memcpy_in mem pr buf with
  | None => Undefined
  | Some mem' =>
      put_pad pad_fuel mem' (pr + length buf) (Z.of_nat (length buf))
  end.

(** Number of pad bytes after a length given as a [Z]. *)
Definition zpad (len : Z) : nat := Z.to_nat ((4 - len mod 4) mod 4).

(** Number of pad bytes after [len] data bytes, and the padded length. *)
Definition pad_len (len : nat) : nat := Z.to_nat ((4 - Z.of_nat len mod 4) mod 4).
Definition padded (len : nat) : nat := (len + pad_len len)%nat.

(** The pad bytes that follow [len] data bytes read at [pr]. *)
Definition padding (mem : buffer) (pr len : nat) : list byte :=
  take (pad_len len) (drop (pr + len) mem).

End Marshal.

(** ** pollset.cc *)

Module Pollset.

(** *** Constants *)

(** Event bits of [poll(2)], with their Linux values. *)
Definition POLLIN : Z := 1.
Definition POLLOUT : Z := 4.
Definition POLLERR : Z := 8.
Definition POLLHUP : Z := 16.
Definition POLLNVAL : Z := 32.

(** Modelled from the spec: the flags behind [op_t] are declared in
    [xdrc/pollset.h], which is not among the sources.  "Mode flags are
    composable: {Read, Write} x {Persistent, OneShot}": one bit for read,
    one for write, one for one-shot; [Read], [Write], [ReadWrite],
    [ReadOnce] and [WriteOnce] are the combinations below. *)
Definition kReadFlag : Z := 1.
Definition kWriteFlag : Z := 2.
Definition kOnceFlag : Z := 4.
Definition Read : Z := kReadFlag.
Definition Write : Z := kWriteFlag.
Definition ReadWrite : Z := Z.lor kReadFlag kWriteFlag.
Definition ReadOnce : Z := Z.lor kReadFlag kOnceFlag.
Definition WriteOnce : Z := Z.lor kWriteFlag kOnceFlag.

(** [op & flag], as a condition. *)
Definition has_flag (op flag : Z) : bool := negb (Z.land op flag =? 0).

(** [std::numeric_limits<int>::max()] and the range of [int64_t]. *)
Definition INT_MAX : Z := 2 ^ 31 - 1.
Definition INT64_MIN : Z := - 2 ^ 63.
Definition INT64_MAX : Z := 2 ^ 63 - 1.

(** The capacity of a pipe as [pipe(2)] makes it on Linux: 16 pages of
    4096 bytes (pipe(7)).  The code never changes it. *)
Definition PIPE_CAPACITY : N := 65536.

(** Two's complement wrap-around of an [int64_t] result. *)
Definition wrap_int64 (z : Z) : Z := (z + 2 ^ 63) mod 2 ^ 64 - 2 ^ 63.

(** Modelled from the spec: [wake_type] is declared in
    [xdrc/pollset.h], which is not among the sources.  A wake byte is
    either the ordinary one, which [wake()] without an argument writes,
    or the "distinguished byte" of a signal wake. *)
Inductive wake_type : Type := Normal | Signal.

Definition is_signal (w : wake_type) : bool :=
  match w with Signal => true | Normal => false end.

(** *** Outcomes *)

Inductive exn : Type :=
| system_error (what : string)
| out_of_range
| bad_function_call
| user_error (code : Z).

(** How a call on a state of type [S] can end: it returns; an exception
    leaves it (with the state as it is at the throw); the process ends
    ([std::terminate], a failed [assert], a signal raised whose default
    action is to terminate); the behaviour is undefined; it
    busy-waits on a flag only another thread can change; or, in the model
    only, the loop budget is exhausted. *)
Inductive outcome (S : Type) : Type :=
| Ret (s : S)
| Throw (e : exn) (s : S)
| Terminate
| Undefined
| Spin (s : S)
| NoFuel.
Arguments Ret {S} s.
Arguments Throw {S} e s.
Arguments Terminate {S}.
Arguments Undefined {S}.
Arguments Spin {S} s.
Arguments NoFuel {S}.

Definition bind {S : Type} (m : outcome S) (k : S -> outcome S) : outcome S :=
  match m with
  | Ret s => k s
  | other => other
  end.

Notation "m >>= k" := (bind m k) (at level 60, right associativity).

(** *** Data *)

(** [struct pollfd]. *)
Record pollfd : Type := mk_pollfd { fd : Z; events : Z; revents : Z }.

Definition set_events (e : Z) (p : pollfd) : pollfd :=
  {| fd := fd p; events := e; revents := revents p |}.
Definition set_revents (e : Z) (p : pollfd) : pollfd :=
  {| fd := fd p; events := events p; revents := e |}.

(** An iterator into [time_cbs_]: the identity of a node, or [end()]. *)
Definition iterator : Type := option nat.

(** [Timeout]: a handle holding an iterator. *)
Record Timeout : Type := mk_Timeout { i_ : iterator }.

Section Engine.

(** The callable objects stored in a [cb_t], and what calling one does to
    the pollset it runs on.  A [cb_t] is [Some c], or [None] when empty
    ([nullptr]). *)
Context {C : Type}.

Definition cb_t : Type := option C.

(** [pollset::fd_state], declared in [xdrc/pollset.h], which is not among
    the sources: the fields are those [pollset.cc] uses, and a fresh
    record has empty callbacks and a negative [idx], the value
    [fd_cb_helper] tests for. *)
Record fd_state : Type := mk_fd_state {
  idx : Z;
  rcb : cb_t;
  wcb : cb_t;
  roneshot : bool;
  woneshot : bool
}.

Definition fd_state_new : fd_state :=
  {| idx := -1; rcb := None; wcb := None; roneshot := false; woneshot := false |}.

Definition set_idx (i : Z) (s : fd_state) : fd_state :=
  {| idx := i; rcb := rcb s; wcb := wcb s;
     roneshot := roneshot s; woneshot := woneshot s |}.
Definition set_rcb (c : cb_t) (s : fd_state) : fd_state :=
  {| idx := idx s; rcb := c; wcb := wcb s;
     roneshot := roneshot s; woneshot := woneshot s |}.
Definition set_wcb (c : cb_t) (s : fd_state) : fd_state :=
  {| idx := idx s; rcb := rcb s; wcb := c;
     roneshot := roneshot s; woneshot := woneshot s |}.
Definition set_roneshot (b : bool) (s : fd_state) : fd_state :=
  {| idx := idx s; rcb := rcb s; wcb := wcb s;
     roneshot := b; woneshot := woneshot s |}.
Definition set_woneshot (b : bool) (s : fd_state) : fd_state :=
  {| idx := idx s; rcb := rcb s; wcb := wcb s;
     roneshot := roneshot s; woneshot := b |}.

(** A node of the multimap [time_cbs_]: its key, its identity (what an
    iterator to it denotes; stable under other insertions and erasures)
    and its callback. *)
Record timer : Type := mk_timer {
  deadline : Z;
  node : nat;
  action : cb_t
}.

(** The members of [pollset].  [time_cbs_] is kept in key order, equal
    keys in insertion order; [next_node_] names the next node to
    allocate; [pipe_] is the content of the self-pipe, oldest byte first,
    and [pipe_capacity_] the number of bytes the kernel lets the pipe
    hold. *)
Record pollset : Type := mk_pollset {
  pollfds_ : list pollfd;
  state_ : gmap Z fd_state;
  time_cbs_ : list timer;
  next_node_ : nat;
  selfpipe_ : Z * Z;
  pipe_ : list wake_type;
  async_cbs_ : list cb_t;
  async_pending_ : bool;
  nasync_ : N;
  signal_pending_ : bool;
  signal_cbs_ : gmap Z cb_t;
  pipe_capacity_ : N
}.

Definition set_pollfds (v : list pollfd) (ps : pollset) : pollset :=
  mk_pollset v (state_ ps) (time_cbs_ ps) (next_node_ ps) (selfpipe_ ps)
    (pipe_ ps) (async_cbs_ ps) (async_pending_ ps) (nasync_ ps)
    (signal_pending_ ps) (signal_cbs_ ps) (pipe_capacity_ ps).
Definition set_state (m : gmap Z fd_state) (ps : pollset) : pollset :=
  mk_pollset (pollfds_ ps) m (time_cbs_ ps) (next_node_ ps) (selfpipe_ ps)
    (pipe_ ps) (async_cbs_ ps) (async_pending_ ps) (nasync_ ps)
    (signal_pending_ ps) (signal_cbs_ ps) (pipe_capacity_ ps).
Definition set_time_cbs (t : list timer) (ps : pollset) : pollset :=
  mk_pollset (pollfds_ ps) (state_ ps) t (next_node_ ps) (selfpipe_ ps)
    (pipe_ ps) (async_cbs_ ps) (async_pending_ ps) (nasync_ ps)
    (signal_pending_ ps) (signal_cbs_ ps) (pipe_capacity_ ps).
Definition set_next_node (n : nat) (ps : pollset) : pollset :=
  mk_pollset (pollfds_ ps) (state_ ps) (time_cbs_ ps) n (selfpipe_ ps)
    (pipe_ ps) (async_cbs_ ps) (async_pending_ ps) (nasync_ ps)
    (signal_pending_ ps) (signal_cbs_ ps) (pipe_capacity_ ps).
Definition set_pipe (p : list wake_type) (ps : pollset) : pollset :=
  mk_pollset (pollfds_ ps) (state_ ps) (time_cbs_ ps) (next_node_ ps)
    (selfpipe_ ps) p (async_cbs_ ps) (async_pending_ ps) (nasync_ ps)
    (signal_pending_ ps) (signal_cbs_ ps) (pipe_capacity_ ps).
Definition set_async_cbs (v : list cb_t) (ps : pollset) : pollset :=
  mk_pollset (pollfds_ ps) (state_ ps) (time_cbs_ ps) (next_node_ ps)
    (selfpipe_ ps) (pipe_ ps) v (async_pending_ ps) (nasync_ ps)
    (signal_pending_ ps) (signal_cbs_ ps) (pipe_capacity_ ps).
Definition set_async_pending (b : bool) (ps : pollset) : pollset :=
  mk_pollset (pollfds_ ps) (state_ ps) (time_cbs_ ps) (next_node_ ps)
    (selfpipe_ ps) (pipe_ ps) (async_cbs_ ps) b (nasync_ ps)
    (signal_pending_ ps) (signal_cbs_ ps) (pipe_capacity_ ps).
Definition set_nasync (n : N) (ps : pollset) : pollset :=
  mk_pollset (pollfds_ ps) (state_ ps) (time_cbs_ ps) (next_node_ ps)
    (selfpipe_ ps) (pipe_ ps) (async_cbs_ ps) (async_pending_ ps) n
    (signal_pending_ ps) (signal_cbs_ ps) (pipe_capacity_ ps).
Definition set_signal_pending (b : bool) (ps : pollset) : pollset :=
  mk_pollset (pollfds_ ps) (state_ ps) (time_cbs_ ps) (next_node_ ps)
    (selfpipe_ ps) (pipe_ ps) (async_cbs_ ps) (async_pending_ ps) (nasync_ ps)
    b (signal_cbs_ ps) (pipe_capacity_ ps).
Definition set_signal_cbs (m : gmap Z cb_t) (ps : pollset) : pollset :=
  mk_pollset (pollfds_ ps) (state_ ps) (time_cbs_ ps) (next_node_ ps)
    (selfpipe_ ps) (pipe_ ps) (async_cbs_ ps) (async_pending_ ps) (nasync_ ps)
    (signal_pending_ ps) m (pipe_capacity_ ps).

(** *** Calling a callback *)

Variable run_cb : C -> pollset -> outcome pollset.

(** [cb()]: calling an empty [std::function] throws. *)
Definition call (cb : cb_t) (ps : pollset) : outcome pollset :=
  match cb with
  | Some c => run_cb c ps
  | None => Throw bad_function_call ps
  end.

(** *** Self-pipe and async inbox *)

(** [pollset::wake]: one byte written to the self-pipe.  The constructor
    has made both ends of the pipe non-blocking and the result of
    [write] is not looked at: when the pipe is full the write fails and
    the byte is dropped. *)
Definition pipe_full (ps : pollset) : bool :=
  (pipe_capacity_ ps <=? N.of_nat (length (pipe_ ps)))%N.

Definition wake (wt : wake_type) (ps : pollset) : pollset :=
  if pipe_full ps then ps else set_pipe (pipe_ ps ++ [wt]) ps.

(** [std::move(b, e, out)] on a vector: [*out++ = std::move( *b++ )] for
    each element of the range.  Assigning through an iterator is defined
    only at a position that holds an element; it never changes the size
    of the vector. *)
Fixpoint std_move (src : list cb_t) (dst : list cb_t) (out : nat)
  : option (list cb_t) :=
  match src with
  | [] => Some dst
  | c :: src' =>
      if decide (out < length dst)%nat
      then std_move src' (<[out := c]> dst) (S out)
      else None
  end.

(** [if (!async_pending_) { async_pending_ = true; wake(); }] *)
Definition request_wake (ps : pollset) : pollset :=
  if async_pending_ ps then ps
  else wake Normal (set_async_pending true ps).

(** [pollset::inject_cb_vec(b, e)], the range [b, e) given by its
    elements; the output iterator is [async_cbs_.end()]. *)
Definition inject_cb_vec (range : list cb_t) (ps : pollset) : outcome pollset :=
  match range with
  | [] => Ret ps
  | _ =>
      match std_move range (async_cbs_ ps) (length (async_cbs_ ps)) with
      | None => Undefined
      | Some v => Ret (request_wake (set_async_cbs v ps))
      end
  end.

(** The read loop of [run_pending_asyncs]: every byte in the pipe is
    consumed, and a [Signal] byte sets [signal_pending_]. *)
Definition scan_wake (pending : bool) (w : wake_type) : bool :=
  if pending then pending else is_signal w.

Definition drain_pipe (ps : pollset) : pollset :=
  set_pipe [] (set_signal_pending (fold_left scan_wake (pipe_ ps) (signal_pending_ ps)) ps).

(** The loop over the swapped-out batch; [cbs] is the range from [i] to
    [cbs.end()].  When a callback throws, the destructor of [cleanup]
    runs [inject_cb_vec(i+1, cbs.end())] and the exception goes on. *)
Fixpoint run_batch (cbs : list cb_t) (ps : pollset) : outcome pollset :=
  match cbs with
  | [] => Ret ps
  | c :: rest =>
      match call c ps with
      | Ret ps' => run_batch rest ps'
      | Throw e ps' =>
          match inject_cb_vec rest ps' with
          | Ret ps'' => Throw e ps''
          | other => other
          end
      | other => other
      end
  end.

(** The first two blocks of [run_pending_asyncs]: the pipe is read
    empty, the flag cleared and the inbox swapped with the empty [cbs]. *)
Definition take_batch (ps : pollset) : list cb_t * pollset :=
  let ps1 := drain_pipe ps in
  (async_cbs_ ps1, set_async_cbs [] (set_async_pending false ps1)).

(** [pollset::run_pending_asyncs]. *)
Definition run_pending_asyncs (ps : pollset) : outcome pollset :=
  let '(cbs, ps2) := take_batch ps in
  run_batch cbs ps2.

(** Modelled from the spec: [inject] is a template of [xdrc/pollset.h],
    which is not among the sources.  "Appends a callback to the inbox
    under the inbox mutex.  If the pending-wake flag was false, it is set
    and a single wake byte is written to the self-pipe write end."  The
    critical section is one step of the model. *)
Definition inject (cb : cb_t) (ps : pollset) : pollset :=
  request_wake (set_async_cbs (async_cbs_ ps ++ [cb]) ps).

(** *** Descriptor registry *)

(** The callback slot [fd_cb_helper] returns a reference to. *)
Inductive slot : Type := RCB | WCB.

Definition or_events (bit : Z) (p : pollfd) : pollfd :=
  set_events (Z.lor (events p) bit) p.
Definition clear_events (bit : Z) (p : pollfd) : pollfd :=
  set_events (Z.land (events p) (Z.lnot bit)) p.

(** The first half of [fd_cb_helper]: the record of [fd] is created if
    absent, and given a slot at the end of [pollfds_] if it has none.
    Returns the position of the slot. *)
Definition locate (fdn : Z) (ps : pollset) : outcome (pollset * nat) :=
  let fs := default fd_state_new (state_ ps !! fdn) in
  if idx fs <? 0 then
    let i := length (pollfds_ ps) in
    Ret (set_pollfds (pollfds_ ps ++ [mk_pollfd fdn 0 0])
           (set_state (<[fdn := set_idx (Z.of_nat i) fs]> (state_ ps)) ps), i)
  else
    let ps' := set_state (<[fdn := fs]> (state_ ps)) ps in
    match pollfds_ ps !! Z.to_nat (idx fs) with
    | None => Throw out_of_range (ps', O)
    | Some p => if fd p =? fdn then Ret (ps', Z.to_nat (idx fs)) else Terminate
    end.

Definition update_fd_state (fdn : Z) (f : fd_state -> fd_state) (ps : pollset)
  : pollset :=
  set_state (alter f fdn (state_ ps)) ps.
Definition update_pollfd (i : nat) (f : pollfd -> pollfd) (ps : pollset)
  : pollset :=
  set_pollfds (alter f i (pollfds_ ps)) ps.

(** [pollset::fd_cb_helper]: the state after the call and the slot whose
    reference is returned. *)
Definition fd_cb_helper (fdn : Z) (op : Z) (ps : pollset)
  : outcome (pollset * slot) :=
  match locate fdn ps with
  | Ret (ps1, i) =>
      if has_flag op kReadFlag then
        if has_flag op kWriteFlag then Terminate
        else Ret (update_pollfd i (or_events POLLIN)
                    (update_fd_state fdn (set_roneshot (has_flag op kOnceFlag)) ps1),
                  RCB)
      else if has_flag op kWriteFlag then
        Ret (update_pollfd i (or_events POLLOUT)
               (update_fd_state fdn (set_woneshot (has_flag op kOnceFlag)) ps1),
             WCB)
      else Terminate
  | Throw e (ps1, _) => Throw e (ps1, RCB)
  | Terminate => Terminate
  | Undefined => Undefined
  | Spin (ps1, _) => Spin (ps1, RCB)
  | NoFuel => NoFuel
  end.

Definition assign_slot (fdn : Z) (s : slot) (cb : cb_t) (ps : pollset) : pollset :=
  match s with
  | RCB => update_fd_state fdn (set_rcb cb) ps
  | WCB => update_fd_state fdn (set_wcb cb) ps
  end.

(** [pollset::fd_cb(fd, op, nullptr)]. *)
Definition fd_cb_null (fdn : Z) (op : Z) (ps : pollset) : outcome pollset :=
  match state_ ps !! fdn with
  | None => Ret ps
  | Some fs =>
      if (0 <=? idx fs) && bool_decide (Z.to_nat (idx fs) < length (pollfds_ ps))%nat
      then
        let i := Z.to_nat (idx fs) in
        let ps1 :=
          if has_flag op kReadFlag
          then update_fd_state fdn (set_rcb None)
                 (update_pollfd i (clear_events POLLIN) ps)
          else ps in
        let ps2 :=
          if has_flag op kWriteFlag
          then update_fd_state fdn (set_wcb None)
                 (update_pollfd i (clear_events POLLOUT) ps1)
          else ps1 in
        Ret ps2
      else Throw out_of_range ps
  end.

(** Modelled from the spec: the registering [fd_cb(fd, op, cb)] is a
    template of [xdrc/pollset.h], which is not among the sources.  It
    stores the callback through the reference [fd_cb_helper] returns
    ("re-registering the same direction replaces the stored callback and
    one-shot flag"). *)
Definition fd_cb (fdn : Z) (op : Z) (c : C) (ps : pollset) : outcome pollset :=
  match fd_cb_helper fdn op ps with
  | Ret (ps1, s) => Ret (assign_slot fdn s (Some c) ps1)
  | Throw e (ps1, _) => Throw e ps1
  | Terminate => Terminate
  | Undefined => Undefined
  | Spin (ps1, _) => Spin ps1
  | NoFuel => NoFuel
  end.

(** [pollset::pending]. *)
Definition pending (ps : pollset) : bool :=
  bool_decide (1 < length (pollfds_ ps))%nat
  || negb (N.eqb (nasync_ ps) 0)
  || negb (bool_decide (time_cbs_ ps = [])).

(** *** Timer queue *)

(** [time_cbs_.begin()]. *)
Definition mm_begin (l : list timer) : iterator := node <$> head l.

(** Dereferencing an iterator: the node it denotes, if it is in the map. *)
Fixpoint find_node (n : nat) (l : list timer) : option timer :=
  match l with
  | [] => None
  | x :: l' => if decide (node x = n) then Some x else find_node n l'
  end.

(** [i++]: the iterator after the node [n]. *)
Fixpoint successor (n : nat) (l : list timer) : iterator :=
  match l with
  | [] => None
  | x :: l' => if decide (node x = n) then mm_begin l' else successor n l'
  end.

(** [time_cbs_.erase(i)]. *)
Fixpoint erase_node (n : nat) (l : list timer) : list timer :=
  match l with
  | [] => []
  | x :: l' => if decide (node x = n) then l' else x :: erase_node n l'
  end.

(** Insertion into a multimap: after every node whose key is not
    greater. *)
Fixpoint mm_insert (t : timer) (l : list timer) : list timer :=
  match l with
  | [] => [t]
  | x :: l' =>
      if deadline x <=? deadline t then x :: mm_insert t l' else t :: l
  end.

(** [time_cbs_.emplace(ms, cb)]: the new map and the iterator to the new
    node. *)
Definition emplace (ms : Z) (cb : cb_t) (ps : pollset) : pollset * iterator :=
  let n := next_node_ ps in
  (set_next_node (S n)
     (set_time_cbs (mm_insert (mk_timer ms n cb) (time_cbs_ ps)) ps),
   Some n).

(** The null handle holds [time_cbs_.end()]. *)
Definition timeout_null : Timeout := mk_Timeout None.

(** Modelled from the spec: [timeout_at] is defined in [xdrc/pollset.h],
    which is not among the sources.  "schedule(deadline, callback) ->
    handle: insert; if several timers share the same deadline, they fire
    in insertion order." *)
Definition timeout_at (ms : Z) (cb : cb_t) (ps : pollset) : pollset * Timeout :=
  let '(ps', i) := emplace ms cb ps in (ps', mk_Timeout i).

(** [pollset::timeout_cancel]. *)
Definition timeout_cancel (t : Timeout) (ps : pollset)
  : outcome (pollset * Timeout) :=
  match i_ t with
  | None => Ret (ps, t)
  | Some n =>
      match find_node n (time_cbs_ ps) with
      | None => Undefined
      | Some _ => Ret (set_time_cbs (erase_node n (time_cbs_ ps)) ps, timeout_null)
      end
  end.

(** [pollset::timeout_reschedule_at]: [i->second] is read through the
    iterator whatever it holds. *)
Definition timeout_reschedule_at (t : Timeout) (ms : Z) (ps : pollset)
  : outcome (pollset * Timeout) :=
  match i_ t with
  | None => Undefined
  | Some n =>
      match find_node n (time_cbs_ ps) with
      | None => Undefined
      | Some nd =>
          let '(ps1, i') := emplace ms (action nd) ps in
          Ret (set_time_cbs (erase_node n (time_cbs_ ps1)) ps1, mk_Timeout i')
      end
  end.

(** Conversion of an [int64_t] to the [int] that is returned. *)
Definition wrap_int (z : Z) : Z := (z + 2 ^ 31) mod 2 ^ 32 - 2 ^ 31.

(** [pollset::next_timeout]; [now] is what [now_ms()] returns. *)
Definition next_timeout (now : Z) (ms : Z) (ps : pollset) : Z :=
  match time_cbs_ ps with
  | [] => ms
  | next :: _ =>
      if now >=? deadline next then 0
      else
        let wait := wrap_int64 (deadline next - now) in
        let wait := if wait >? INT_MAX then INT_MAX else wait in
        if (ms >=? 0) && (ms <=? wait) then ms else wrap_int wait
  end.

(** The loop of [run_timeouts], at iterator [i]:
    [while (i != end && now >= i->first) { i->second(); erase(i++); }] *)
Fixpoint run_timeouts_loop (fuel : nat) (now : Z) (i : iterator) (ps : pollset)
  : outcome pollset :=
  match i with
  | None => Ret ps
  | Some n =>
      match find_node n (time_cbs_ ps) with
      | None => Undefined
      | Some nd =>
          if now >=? deadline nd then
            match fuel with
            | O => NoFuel
            | S fuel' =>
                call (action nd) ps >>= fun ps1 =>
                match find_node n (time_cbs_ ps1) with
                | None => Undefined
                | Some _ =>
                    run_timeouts_loop fuel' now (successor n (time_cbs_ ps1))
                      (set_time_cbs (erase_node n (time_cbs_ ps1)) ps1)
                end
            end
          else Ret ps
      end
  end.

(** [pollset::run_timeouts]. *)
Definition run_timeouts (fuel : nat) (now : Z) (ps : pollset) : outcome pollset :=
  match mm_begin (time_cbs_ ps) with
  | None => Ret ps
  | Some n => run_timeouts_loop fuel now (Some n) ps
  end.

(** *** Dispatch of the ready descriptors *)

Definition non_null (cb : cb_t) : bool :=
  match cb with Some _ => true | None => false end.

Definition read_ready : Z := Z.lor POLLIN (Z.lor POLLHUP POLLERR).
Definition write_ready : Z := Z.lor POLLOUT (Z.lor POLLHUP POLLERR).

(** [pfd] and [fi] are references, bound at the top of the loop body to
    slot [i] of [pollfds_] and to the record of its descriptor [fdn].
    The read dispatch uses them before any callback has run. *)
Definition dispatch_read (i : nat) (fdn : Z) (ps : pollset) : outcome pollset :=
  match pollfds_ ps !! i, state_ ps !! fdn with
  | Some pfd, Some fi =>
      if negb (Z.land (revents pfd) read_ready =? 0) && non_null (rcb fi) then
        if roneshot fi then
          let cb := rcb fi in
          call cb (update_pollfd i (clear_events POLLIN)
                     (update_fd_state fdn (set_rcb None) ps))
        else call (rcb fi) ps
      else Ret ps
  | _, _ => Undefined
  end.

(** The write dispatch uses the same two references after the read
    callback has run, on the state [ps] it left.  A reference into a
    vector is lost when the vector is reallocated, which the [resize] of
    [fd_cb_helper] does when it has to grow the storage, and when its
    element is popped; a reference to a record is lost when the record is
    erased.  The capacity of the vector is no part of the state: the
    model takes every growth of [pollfds_] since the binding, when it had
    [n0] slots, as a reallocation.  Reading through a lost reference is
    undefined.  A callback that runs [poll] itself, which could grow the
    vector and shrink it again, is outside the model. *)
Definition dispatch_write (n0 : nat) (i : nat) (fdn : Z) (ps : pollset)
  : outcome pollset :=
  if (n0 <? length (pollfds_ ps))%nat then Undefined
  else
    match pollfds_ ps !! i, state_ ps !! fdn with
    | Some pfd, Some fi =>
        if negb (Z.land (revents pfd) write_ready =? 0) && non_null (wcb fi) then
          if woneshot fi then
            let cb := wcb fi in
            call cb (update_pollfd i (clear_events POLLOUT)
                       (update_fd_state fdn (set_wcb None) ps))
          else call (wcb fi) ps
        else Ret ps
    | _, _ => Undefined
    end.

(** What [::poll] leaves in [pollfds_]: the reported events of each
    slot, none for a slot the answer does not reach. *)
Fixpoint report (answer : list Z) (v : list pollfd) : list pollfd :=
  match v with
  | [] => []
  | p :: v' =>
      match answer with
      | [] => set_revents 0 p :: report [] v'
      | r :: answer' => set_revents r p :: report answer' v'
      end
  end.

Definition kernel_report (answer : list Z) (ps : pollset) : pollset :=
  set_pollfds (report answer (pollfds_ ps)) ps.

(** The state in which a one-shot callback is called: its slot is empty
    and its interest bit cleared. *)
Definition disarm_read (i : nat) (fdn : Z) (ps : pollset) : pollset :=
  update_pollfd i (clear_events POLLIN) (update_fd_state fdn (set_rcb None) ps).
Definition disarm_write (i : nat) (fdn : Z) (ps : pollset) : pollset :=
  update_pollfd i (clear_events POLLOUT) (update_fd_state fdn (set_wcb None) ps).

(** The body of the loop of [poll] for slot [i], the count [r] apart. *)
Definition poll_slot (i : nat) (ps : pollset) : outcome pollset :=
  match pollfds_ ps !! i with
  | None => Throw out_of_range ps
  | Some pfd =>
      match state_ ps !! fd pfd with
      | None => Throw out_of_range ps
      | Some _ =>
          if has_flag (revents pfd) POLLNVAL then Terminate
          else dispatch_read i (fd pfd) ps
               >>= dispatch_write (length (pollfds_ ps)) i (fd pfd)
      end
  end.

(** [for (size_t i = 0; r > 0 && i < maxpoll; i++)], with [n] slots left
    to visit. *)
Fixpoint poll_scan (n : nat) (i : nat) (r : Z) (ps : pollset) : outcome pollset :=
  match n with
  | O => Ret ps
  | S n' =>
      if r >? 0 then
        let r' :=
          match pollfds_ ps !! i with
          | Some pfd => if revents pfd =? 0 then r else r - 1
          | None => r
          end in
        poll_slot i ps >>= poll_scan n' (S i) r'
      else Ret ps
  end.

(** *** Consolidation *)

Definition pop_back (v : list pollfd) : list pollfd := take (length v - 1)%nat v.

(** [while (!pollfds_.empty() && !pollfds_.back().events)]: the record of
    the last slot is erased and the slot popped. *)
Fixpoint pop_idle (fuel : nat) (ps : pollset) : pollset :=
  match fuel with
  | O => ps
  | S fuel' =>
      match last (pollfds_ ps) with
      | None => ps
      | Some b =>
          if events b =? 0
          then pop_idle fuel'
                 (set_pollfds (pop_back (pollfds_ ps))
                    (set_state (delete (fd b) (state_ ps)) ps))
          else ps
      end
  end.

(** [for (i -= 2; i >= 0; --i)], entered with [k = i + 1]. *)
Fixpoint compact (k : nat) (ps : pollset) : outcome pollset :=
  match k with
  | O => Ret ps
  | S i =>
      match pollfds_ ps !! i with
      | None => Throw out_of_range ps
      | Some pfd1 =>
          if events pfd1 =? 0 then
            let ps1 := set_state (delete (fd pfd1) (state_ ps)) ps in
            match last (pollfds_ ps1) with
            | None => Undefined
            | Some b =>
                let ps2 := set_pollfds (<[i := b]> (pollfds_ ps1)) ps1 in
                match state_ ps2 !! fd b with
                | None => Throw out_of_range ps2
                | Some fs =>
                    compact i
                      (set_pollfds (pop_back (pollfds_ ps2))
                         (set_state (<[fd b := set_idx (Z.of_nat i) fs]> (state_ ps2))
                            ps2))
                end
            end
          else compact i ps
      end
  end.

(** [pollset::consolidate]. *)
Definition consolidate (ps : pollset) : outcome pollset :=
  let ps1 := pop_idle (length (pollfds_ ps)) ps in
  let i := length (pollfds_ ps1) in
  if (i <? 2)%nat then Ret ps1
  else compact (i - 1) ps1.

(** The constructor: the two ends of the self-pipe come from [pipe(2)],
    which makes an empty pipe of [PIPE_CAPACITY] bytes, and the read end
    is registered with the closure that calls [run_pending_asyncs]. *)
Definition pollset_new (rfd wfd : Z) : pollset :=
  mk_pollset [] ∅ [] O (rfd, wfd) [] [] false 0%N false ∅ PIPE_CAPACITY.

Definition pollset_ctor (rfd wfd : Z) (drain : C) : outcome pollset :=
  fd_cb rfd Read drain (pollset_new rfd wfd).

(** *** Signal router *)

(** What [sigaction(2)] has installed for a signal. *)
Inductive sighandler : Type := SIG_DFL | SIG_pollset_handler.

(** The process: its pollsets by address, the static tables
    [signal_owners] (an absent entry is [nullptr]) and [signal_flags] (an
    absent entry is 0), the dispositions set through [sigaction] (an
    absent entry is whatever the process started with), and the signals
    sent with [std::raise] that did not end the process.  [signal_owners_lock] is held for the whole of
    each call below, which is one step of the model. *)
Record process : Type := mk_process {
  sets : gmap nat pollset;
  signal_owners : gmap Z nat;
  signal_flags : gmap Z Z;
  sigactions : gmap Z sighandler;
  raised : list Z
}.

Definition set_sets (m : gmap nat pollset) (w : process) : process :=
  mk_process m (signal_owners w) (signal_flags w) (sigactions w) (raised w).
Definition set_signal_owners (m : gmap Z nat) (w : process) : process :=
  mk_process (sets w) m (signal_flags w) (sigactions w) (raised w).
Definition set_signal_flags (m : gmap Z Z) (w : process) : process :=
  mk_process (sets w) (signal_owners w) m (sigactions w) (raised w).
Definition set_sigactions (m : gmap Z sighandler) (w : process) : process :=
  mk_process (sets w) (signal_owners w) (signal_flags w) m (raised w).
Definition set_raised (l : list Z) (w : process) : process :=
  mk_process (sets w) (signal_owners w) (signal_flags w) (sigactions w) l.

(** [num_sig] is declared in [xdrc/pollset.h]; [sigaction_ok sig] tells
    whether [sigaction(2)] accepts the signal number; [default_ends sig]
    tells whether [std::raise(sig)] ends the process once the disposition
    of the signal is [SIG_DFL]: the default action of the signal is to
    terminate, and the signal is not blocked. *)
Variable num_sig : Z.
Variable sigaction_ok : Z -> bool.
Variable default_ends : Z -> bool.

Definition signal_flag (sig : Z) (w : process) : Z :=
  default 0 (signal_flags w !! sig).

Definition valid_sig (sig : Z) : bool := (0 <? sig) && (sig <? num_sig).

(** [pollset::signal_handler]. *)
Definition signal_handler (sig : Z) (w : process) : outcome process :=
  if negb (valid_sig sig) then Terminate
  else if negb (signal_flag sig w =? 0) then Ret w
  else
    let w1 := set_signal_flags (<[sig := 1]> (signal_flags w)) w in
    let done w' := Ret (set_signal_flags (<[sig := 2]> (signal_flags w')) w') in
    match signal_owners w1 !! sig with
    | None => done w1
    | Some ps =>
        match sets w1 !! ps with
        | None => Undefined
        | Some p => done (set_sets (<[ps := wake Signal p]> (sets w1)) w1)
        end
    end.

(** [pollset::erase_signal_cb], called on the pollset [this].  When a
    delivery of the signal is recorded in its flag, the signal is raised
    again, after the disposition has been reset to [SIG_DFL]: the call
    returns only if the default action does not end the process. *)
Definition erase_signal_cb (this : nat) (sig : Z) (w : process) : outcome process :=
  match signal_owners w !! sig with
  | None => Ret w
  | Some ps =>
      if negb (sigaction_ok sig) then Throw (system_error "sigaction") w
      else
        let w1 := set_sigactions (<[sig := SIG_DFL]> (sigactions w)) w in
        let w2 := set_signal_owners (delete sig (signal_owners w1)) w1 in
        match sets w2 !! ps with
        | None => Undefined
        | Some p =>
            let w3 :=
              set_sets (<[ps := set_signal_cbs (delete sig (signal_cbs_ p)) p]> (sets w2))
                w2 in
            if negb (Z.land (signal_flag sig w3) 1 =? 0) then Spin w3
            else if negb (signal_flag sig w3 =? 0) then
              if default_ends sig then Terminate
              else Ret (set_raised (raised w3 ++ [sig])
                          (set_signal_flags (<[sig := 0]> (signal_flags w3)) w3))
            else Ret w3
        end
  end.

(** [pollset::signal_cb(sig, nullptr)]. *)
Definition signal_cb_null (this : nat) (sig : Z) (w : process) : outcome process :=
  if negb (valid_sig sig) then Terminate
  else erase_signal_cb this sig w.

(** [pollset::signal_cb(sig, cb)]. *)
Definition signal_cb (this : nat) (sig : Z) (cb : cb_t) (w : process)
  : outcome process :=
  if negb (non_null cb) then signal_cb_null this sig w
  else if negb (valid_sig sig) then Terminate
  else
    match sets w !! this with
    | None => Undefined
    | Some me =>
        let w1 :=
          set_sets (<[this := set_signal_cbs (<[sig := cb]> (signal_cbs_ me)) me]> (sets w))
            w in
        let notify w' :=
          if negb (signal_flag sig w' =? 0) then
            match sets w' !! this with
            | None => Undefined
            | Some me' => Ret (set_sets (<[this := wake Signal me']> (sets w')) w')
            end
          else Ret w' in
        match signal_owners w1 !! sig with
        | Some ps =>
            if decide (ps = this) then Ret w1
            else
              let w2 := set_signal_owners (<[sig := this]> (signal_owners w1)) w1 in
              match sets w2 !! ps with
              | None => Undefined
              | Some p =>
                  notify
                    (set_sets
                       (<[ps := set_signal_cbs (delete sig (signal_cbs_ p)) p]> (sets w2))
                       w2)
              end
        | None =>
            let w2 := set_signal_owners (<[sig := this]> (signal_owners w1)) w1 in
            if sigaction_ok sig
            then notify (set_sigactions (<[sig := SIG_pollset_handler]> (sigactions w2)) w2)
            else Throw (system_error "sigaction") w2
        end
    end.

End Engine.

Arguments pollset : clear implicits.
Arguments process : clear implicits.
Arguments fd_state : clear implicits.
Arguments timer : clear implicits.
Arguments cb_t : clear implicits.

(** *** A small language of callbacks

    Concrete callables, for running the engine on examples: one that
    returns at once, one that throws, one that asks [pending()] first,
    one that schedules a timer, one that cancels the timer behind a
    handle and one that registers a callback for a descriptor. *)
Inductive act : Type :=
| Nop
| Fail (code : Z)
| IfPending (a b : act)
| SetTimer (ms : Z) (a : act)
| Cancel (h : Timeout)
| Watch (fdn : Z) (op : Z) (a : act).

(** The state a call leaves, for a call that also returns a value. *)
Definition state_of {S V : Type} (m : outcome (S * V)) : outcome S :=
  match m with
  | Ret (s, _) => Ret s
  | Throw e (s, _) => Throw e s
  | Terminate => Terminate
  | Undefined => Undefined
  | Spin (s, _) => Spin s
  | NoFuel => NoFuel
  end.

Fixpoint exec (a : act) (ps : pollset act) : outcome (pollset act) :=
  match a with
  | Nop => Ret ps
  | Fail code => Throw (user_error code) ps
  | IfPending a1 a2 => if pending ps then exec a1 ps else exec a2 ps
  | SetTimer ms a' => Ret (fst (timeout_at ms (Some a') ps))
  | Cancel h => state_of (timeout_cancel h ps)
  | Watch fdn op a' => fd_cb fdn op a' ps
  end.

(** *** Vocabulary of the properties *)

(** The timer queue is in key order. *)
Definition ordered {C : Type} (l : list (timer C)) : Prop :=
  StronglySorted (fun a b => deadline a <= deadline b) l.

(** The smaller of a caller timeout and a wait, a negative caller timeout
    counting as infinite. *)
Definition min_timeout (ms wait : Z) : Z :=
  if ms <? 0 then wait else Z.min ms wait.

(** One operation on the inbox: an [inject], or the swap that
    [run_pending_asyncs] does before it runs the batch. *)
Inductive inbox_op (C : Type) : Type :=
| OpInject (cb : cb_t C)
| OpTake.
Arguments OpInject {C} cb.
Arguments OpTake {C}.

Definition inbox_step {C : Type} (op : inbox_op C) (ps : pollset C) : pollset C :=
  match op with
  | OpInject cb => inject cb ps
  | OpTake => snd (take_batch ps)
  end.

(** Bytes an operation appends to the self-pipe. *)
Definition wakes_written {C : Type} (op : inbox_op C) (ps : pollset C) : nat :=
  match op with
  | OpInject cb => (length (pipe_ (inject cb ps)) - length (pipe_ ps))%nat
  | OpTake => O
  end.

(** 1 when the flag goes from false to true, 0 otherwise. *)
Definition rise (before after : bool) : nat :=
  if negb before && after then 1%nat else O.

(** Over a run of operations: the bytes written and the number of times
    [async_pending_] went from false to true. *)
Fixpoint total_wakes {C : Type} (ops : list (inbox_op C)) (ps : pollset C) : nat :=
  match ops with
  | [] => O
  | op :: ops' => (wakes_written op ps + total_wakes ops' (inbox_step op ps))%nat
  end.

Fixpoint total_rises {C : Type} (ops : list (inbox_op C)) (ps : pollset C) : nat :=
  match ops with
  | [] => O
  | op :: ops' =>
      (rise (async_pending_ ps) (async_pending_ (inbox_step op ps))
       + total_rises ops' (inbox_step op ps))%nat
  end.

(** The descriptors of the slots of [pollfds_], and the index stored in
    each descriptor record. *)
Definition slots {C : Type} (ps : pollset C) : list Z := fd <$> pollfds_ ps.
Definition indices {C : Type} (ps : pollset C) : gmap Z Z := idx <$> state_ ps.

(** The array and the records agree: the record of the descriptor in
    slot [i] stores [i], and the index stored in a record is the position
    of a slot that holds the record's descriptor. *)
Definition agree (fds : list Z) (ix : gmap Z Z) : Prop :=
  (forall (i : nat) (f : Z), fds !! i = Some f -> ix !! f = Some (Z.of_nat i))
  /\ (forall (f z : Z), ix !! f = Some z -> 0 <= z /\ fds !! Z.to_nat z = Some f).

Definition registry_ok {C : Type} (ps : pollset C) : Prop :=
  agree (slots ps) (indices ps).

(** No slot has an empty interest mask; none but perhaps slot 0 has. *)
Definition all_active {C : Type} (ps : pollset C) : Prop :=
  forall (i : nat) (p : pollfd), pollfds_ ps !! i = Some p -> events p <> 0.
Definition dense {C : Type} (ps : pollset C) : Prop :=
  forall (i : nat) (p : pollfd),
    (1 <= i)%nat -> pollfds_ ps !! i = Some p -> events p <> 0.

(** Slot 0 holds the read end of the self-pipe. *)
Definition slot0_selfpipe {C : Type} (ps : pollset C) : Prop :=
  exists p : pollfd, pollfds_ ps !! O = Some p /\ fd p = fst (selfpipe_ ps).

(** The operations on the registry: registering a callback, removing one,
    and the consolidation pass that ends a driver step. *)
Inductive reg_op (C : Type) : Type :=
| OpRegister (fdn : Z) (op : Z) (c : C)
| OpUnregister (fdn : Z) (op : Z)
| OpConsolidate.
Arguments OpRegister {C} fdn op c.
Arguments OpUnregister {C} fdn op.
Arguments OpConsolidate {C}.

Definition reg_step {C : Type} (o : reg_op C) (ps : pollset C) : outcome (pollset C) :=
  match o with
  | OpRegister fdn op c => fd_cb fdn op c ps
  | OpUnregister fdn op => fd_cb_null fdn op ps
  | OpConsolidate => consolidate ps
  end.

Fixpoint reg_run {C : Type} (ops : list (reg_op C)) (ps : pollset C)
  : outcome (pollset C) :=
  match ops with
  | [] => Ret ps
  | o :: ops' => reg_step o ps >>= reg_run ops'
  end.

(** A registration names one direction; an operation of the user is on a
    descriptor other than [rfd], the read end of the self-pipe. *)
Definition one_direction (op : Z) : bool :=
  xorb (has_flag op kReadFlag) (has_flag op kWriteFlag).

Definition user_op {C : Type} (rfd : Z) (o : reg_op C) : Prop :=
  match o with
  | OpRegister fdn op _ => fdn <> rfd /\ one_direction op = true
  | OpUnregister fdn _ => fdn <> rfd
  | OpConsolidate => True
  end.

(** What the registry keeps between operations of the user: array and
    records agree, and slot 0 is the active slot of [rfd], the read end
    of the self-pipe. *)
Definition registry_inv {C : Type} (rfd : Z) (ps : pollset C) : Prop :=
  registry_ok ps
  /\ fst (selfpipe_ ps) = rfd
  /\ exists p0 : pollfd, pollfds_ ps !! O = Some p0 /\ fd p0 = rfd /\ events p0 <> 0.

(** Modelled from the spec: [nasync_] is written only in
    [xdrc/pollset.h], which is not among the sources; [pollset.cc] reads
    it in [pending()].  The spec calls it "the async inbox non-empty
    counter": it is positive while the inbox holds a callback. *)
Definition counts_inbox {C : Type} (ps : pollset C) : Prop :=
  async_cbs_ ps <> [] -> (0 < nasync_ ps)%N.

(** *** Vocabulary of the further properties *)

(** The timers at the head of the queue that are due at [now]. *)
Fixpoint due_prefix {C : Type} (now : Z) (l : list (timer C)) : list (timer C) :=
  match l with
  | [] => []
  | t :: l' => if now >=? deadline t then t :: due_prefix now l' else []
  end.

(** One firing, for a callback that returns [f c ps]: the callback, then
    the erase of the timer's node. *)
Definition fired {C : Type} (f : C -> pollset C -> pollset C)
    (ps : pollset C) (t : timer C) : pollset C :=
  match action t with
  | Some c =>
      let ps1 := f c ps in
      set_time_cbs (erase_node (node t) (time_cbs_ ps1)) ps1
  | None => ps
  end.

(** One callback of a batch, for a callback that returns [f c ps]. *)
Definition ran {C : Type} (f : C -> pollset C -> pollset C)
    (ps : pollset C) (cb : cb_t C) : pollset C :=
  match cb with
  | Some c => f c ps
  | None => ps
  end.

(** The timer queue is in key order, its nodes are distinct and were all
    allocated before [next_node_]. *)
Definition timers_ok {C : Type} (ps : pollset C) : Prop :=
  ordered (time_cbs_ ps)
  /\ NoDup (node <$> time_cbs_ ps)
  /\ (forall t, t ∈ time_cbs_ ps -> (node t < next_node_ ps)%nat).

(** The slots with a non-empty interest mask. *)
Definition active (v : list pollfd) : list pollfd :=
  filter (fun p => events p <> 0) v.

(** Two records hold the same callbacks and one-shot flags. *)
Definition same_callbacks {C : Type} (a b : fd_state C) : Prop :=
  rcb a = rcb b /\ wcb a = wcb b
  /\ roneshot a = roneshot b /\ woneshot a = woneshot b.

(** The signal-callback maps of the pollsets of a process. *)
Definition callbacks_of {C : Type} (w : process C) : gmap nat (gmap Z (cb_t C)) :=
  signal_cbs_ <$> sets w.

(** Ownership of signals, for an owner table [ow], the callback maps [cm]
    and the dispositions [sa]: the owner of a signal is a live pollset
    that holds a callback for it, the pollset handler is installed for
    it, and a pollset that holds a callback for a signal is its owner. *)
Definition owns {C : Type} (ow : gmap Z nat) (cm : gmap nat (gmap Z (cb_t C)))
    (sa : gmap Z sighandler) : Prop :=
  (forall (sig : Z) (o : nat), ow !! sig = Some o ->
     (exists m, cm !! o = Some m /\ is_Some (m !! sig))
     /\ sa !! sig = Some SIG_pollset_handler)
  /\ (forall (o : nat) m (sig : Z), cm !! o = Some m ->
        is_Some (m !! sig) -> ow !! sig = Some o).

Definition owners_ok {C : Type} (w : process C) : Prop :=
  owns (signal_owners w) (callbacks_of w) (sigactions w).

(** A timer whose callback returns [f c ps] on every state [ps] and
    leaves the timer queue as it is. *)
Definition quiet {C : Type} (run_cb : C -> pollset C -> outcome (pollset C))
    (f : C -> pollset C -> pollset C) (t : timer C) : Prop :=
  exists c, action t = Some c
            /\ forall ps, run_cb c ps = Ret (f c ps)
                          /\ time_cbs_ (f c ps) = time_cbs_ ps.

(** A callback of the inbox that is not empty and returns [f c ps] on
    every state [ps]. *)
Definition returning {C : Type} (run_cb : C -> pollset C -> outcome (pollset C))
    (f : C -> pollset C -> pollset C) (cb : cb_t C) : Prop :=
  exists c, cb = Some c /\ forall ps, run_cb c ps = Ret (f c ps).

(** An example process: two pollsets at addresses 1 and 2, the second
    holding a callback for signal 10 and owning it. *)
Definition two_pollsets : process act :=
  mk_process
    (<[1%nat := pollset_new 3 4]>
       (<[2%nat := set_signal_cbs (<[10 := Some Nop]> ∅) (pollset_new 5 6)]> ∅))
    (<[10 := 2%nat]> ∅) ∅ (<[10 := SIG_pollset_handler]> ∅) [].

(** An example registry: the self-pipe 3, then descriptors 5 and 6
    registered and 5 removed again, which leaves an idle slot between two
    active ones. *)
Definition registry_example : outcome (pollset act) :=
  pollset_ctor 3 4 Nop
  >>= reg_run [OpRegister 5 Read Nop; OpRegister 6 Write Nop; OpUnregister 5 Read].

End Pollset.

(** * [xdrpp/socket.cc] *)

Module Socket.

(** A [const char *] argument: [None] is the null pointer, [Some s] a
    string of characters. *)
Abbreviation cstr := (option (list ascii)).

(** [std::strchr(s, c)] as a truth value: whether [c] occurs in [s]. *)
Definition strchr (s : list ascii) (c : ascii) : bool :=
  existsb (Ascii.eqb c) s.

(** [cat_host_service]: the text that names a host and a service in an
    error message. *)
Definition cat_host_service (host service : cstr) : list ascii :=
  let target :=
    match host with
    | Some h =>
        if strchr h ":"%char
        then (list_ascii_of_string "[" ++ h) ++ list_ascii_of_string "]"
        else h
    | None => list_ascii_of_string "NULL"
    end in
  match service with
  | Some s => (target ++ list_ascii_of_string ":") ++ s
  | None => target
  end.

End Socket.

(** * Properties *)

(** ** Arithmetic of the padding *)

Lemma land3_mod4 (z : Z) : 0 <= z -> Z.land z 3 = z mod 4.
Proof.
  intros Hz. change 3 with (Z.ones 2). rewrite Z.land_ones by lia. reflexivity.
Qed.

Lemma wrap_size_small (z : Z) : 0 <= z < size_max -> wrap_size z = z.
Proof. intros H. unfold wrap_size. apply Z.mod_small. exact H. Qed.

Module MarshalFacts.
Import Marshal.

Lemma zpad_of_nat (len : nat) : zpad (Z.of_nat len) = pad_len len.
Proof. reflexivity. Qed.

Lemma zpad_zero (len : Z) : 0 <= len -> Z.land len 3 = 0 -> zpad len = O.
Proof.
  intros Hlen H. rewrite land3_mod4 in H by lia. unfold zpad. rewrite H. reflexivity.
Qed.

Lemma zpad_succ (len : Z) :
  0 <= len -> Z.land len 3 <> 0 -> zpad len = S (zpad (len + 1)).
Proof.
  intros Hlen H. rewrite land3_mod4 in H by lia. unfold zpad.
  pose proof (Z.mod_pos_bound len 4 ltac:(lia)) as Hb.
  assert (Hc : len mod 4 = 1 \/ len mod 4 = 2 \/ len mod 4 = 3) by lia.
  assert (Hs : (len + 1) mod 4 = (len mod 4 + 1) mod 4).
  { rewrite Z.add_mod by lia. reflexivity. }
  rewrite Hs.
  destruct Hc as [-> | [-> | ->]]; reflexivity.
Qed.

Lemma zpad_le3 (len : Z) : (zpad len <= 3)%nat.
Proof.
  unfold zpad. pose proof (Z.mod_pos_bound (4 - len mod 4) 4 ltac:(lia)). lia.
Qed.

Lemma padded_aligned (len : nat) : Z.of_nat (padded len) mod 4 = 0.
Proof.
  unfold padded, pad_len.
  pose proof (Z.mod_pos_bound (Z.of_nat len) 4 ltac:(lia)) as Hb.
  pose proof (Z.mod_pos_bound (4 - Z.of_nat len mod 4) 4 ltac:(lia)) as Hb'.
  rewrite Nat2Z.inj_add, Z2Nat.id by lia.
  rewrite Z.add_mod, Zmod_mod, <- Z.add_mod by lia.
  rewrite (Z.div_mod (Z.of_nat len) 4) at 1 by lia.
  assert (Hc : Z.of_nat len mod 4 = 0 \/ Z.of_nat len mod 4 = 1
               \/ Z.of_nat len mod 4 = 2 \/ Z.of_nat len mod 4 = 3) by lia.
  destruct Hc as [-> | [-> | [-> | ->]]];
    match goal with
    | |- (4 * ?q + ?a + ?b) mod 4 = 0 =>
        replace (4 * q + a + b) with ((a + b) + q * 4) by lia;
        rewrite Z.mod_add by lia; reflexivity
    end.
Qed.

(** The reading loop: it returns after the pad bytes when they are all
    zero and throws otherwise. *)
Lemma get_pad_spec (fuel : nat) (mem : buffer) :
  forall (p : nat) (len : Z),
    0 <= len -> len + Z.of_nat (zpad len) < size_max ->
    (zpad len <= fuel)%nat -> (p + zpad len <= length mem)%nat ->
    get_pad fuel mem p len =
      if forallb (Byte.eqb "000"%byte) (take (zpad len) (drop p mem))
      then Ok (p + zpad len)%nat else XdrShouldBeZero.
Proof.
  induction fuel as [|fuel IH]; intros p len Hlen Hmax Hfuel Hbound.
  - assert (Hz : zpad len = O) by lia.
    assert (Hl : Z.land len 3 = 0).
    { destruct (Z.eq_dec (Z.land len 3) 0) as [|Hne]; [assumption|].
      rewrite (zpad_succ len Hlen Hne) in Hz. discriminate. }
    simpl. rewrite Hl, Hz. simpl. f_equal. lia.
  - simpl. destruct (Z.land len 3 =? 0) eqn:Hl.
    + apply Z.eqb_eq in Hl. rewrite (zpad_zero len Hlen Hl). simpl. f_equal. lia.
    + apply Z.eqb_neq in Hl. pose proof (zpad_succ len Hlen Hl) as Hs.
      rewrite Hs in *.
      destruct (mem !! p) as [c|] eqn:Hp.
      2:{ apply lookup_ge_None in Hp. lia. }
      rewrite (drop_S mem c p Hp). simpl.
      rewrite wrap_size_small by lia.
      rewrite (IH (S p) (len + 1)) by lia.
      replace (Byte.eqb "000" c) with (Byte.eqb c "000").
      2:{ destruct (Byte.eqb c "000") eqn:E1, (Byte.eqb "000" c) eqn:E2; try reflexivity.
          - apply Byte.byte_dec_bl in E1. subst. discriminate.
          - apply Byte.byte_dec_bl in E2. subst. discriminate. }
      destruct (Byte.eqb c "000"); simpl; [|reflexivity].
      replace (p + S (zpad (len + 1)))%nat with (S p + zpad (len + 1))%nat by lia.
      reflexivity.
Qed.

(** The writing loop: it stores the pad bytes and returns after them. *)
Lemma put_pad_spec (fuel : nat) :
  forall (mem : buffer) (p : nat) (len : Z),
    0 <= len -> len + Z.of_nat (zpad len) < size_max ->
    (zpad len <= fuel)%nat -> (p + zpad len <= length mem)%nat ->
    put_pad fuel mem p len =
      Ok (take p mem ++ replicate (zpad len) "000"%byte ++ drop (p + zpad len) mem,
          (p + zpad len)%nat).
Proof.
  induction fuel as [|fuel IH]; intros mem p len Hlen Hmax Hfuel Hbound.
  - assert (Hz : zpad len = O) by lia.
    assert (Hl : Z.land len 3 = 0).
    { destruct (Z.eq_dec (Z.land len 3) 0) as [|Hne]; [assumption|].
      rewrite (zpad_succ len Hlen Hne) in Hz. discriminate. }
    simpl. rewrite Hl, Hz. simpl. rewrite Nat.add_0_r, take_drop. reflexivity.
  - simpl. destruct (Z.land len 3 =? 0) eqn:Hl.
    + apply Z.eqb_eq in Hl. rewrite (zpad_zero len Hlen Hl). simpl.
      rewrite Nat.add_0_r, take_drop. reflexivity.
    + apply Z.eqb_neq in Hl. pose proof (zpad_succ len Hlen Hl) as Hs.
      rewrite Hs in *.
      destruct (decide (p < length mem)%nat) as [Hp|Hp]; [|lia].
      rewrite wrap_size_small by lia.
      rewrite (IH (<[p:="000"%byte]> mem) (S p) (len + 1))
        by (rewrite ?length_insert; lia).
      rewrite drop_insert_lt by lia.
      assert (Ht : take (S p) (<[p:="000"%byte]> mem) = take p mem ++ ["000"%byte]).
      { rewrite (take_S_r _ _ "000"%byte).
        - rewrite take_insert_ge by lia. reflexivity.
        - apply list_lookup_insert_eq. lia. }
      rewrite Ht, <- app_assoc. simpl.
      replace (p + S (zpad (len + 1)))%nat with (S p + zpad (len + 1))%nat by lia.
      reflexivity.
Qed.

Lemma forallb_zero_false (l : list byte) :
  forallb (Byte.eqb "000"%byte) l = false <->
  exists c, c ∈ l /\ c <> "000"%byte.
Proof.
  induction l as [|x l IH]; simpl.
  - split; [discriminate|]. intros (c & Hc & _). inversion Hc.
  - destruct (Byte.eqb "000" x) eqn:E; simpl.
    + apply Byte.byte_dec_bl in E. subst x. rewrite IH. split.
      * intros (c & Hc & Hne). exists c. split; [by right|done].
      * intros (c & Hc & Hne). exists c. split; [|done].
        apply elem_of_cons in Hc as [->|Hc]; [done|done].
    + split; [|done]. intros _. exists x. split; [by left|].
      intros ->. discriminate.
Qed.

Lemma forallb_zero_replicate (n : nat) :
  forallb (Byte.eqb "000"%byte) (replicate n "000"%byte) = true.
Proof. induction n as [|n IH]; simpl; [reflexivity|exact IH]. Qed.

(** [get_bytes] within the bounds of the buffer. *)
Lemma get_bytes_spec (m : buffer) (pr len : nat) :
  (pr + padded len <= length m)%nat -> Z.of_nat (length m) < size_max ->
  get_bytes m pr len =
    if forallb (Byte.eqb "000"%byte) (padding m pr len)
    then Ok (take len (drop pr m), (pr + padded len)%nat)
    else XdrShouldBeZero.
Proof.
  intros Hb Hsz. unfold get_bytes, memcpy_out, padded in *.
  destruct (decide (pr + len <= length m)%nat) as [_|Hn]; [|lia].
  unfold pad_fuel. rewrite get_pad_spec.
  - rewrite zpad_of_nat. unfold padding.
    destruct (forallb _ _); [|reflexivity].
    f_equal. f_equal. lia.
  - lia.
  - rewrite zpad_of_nat. lia.
  - apply zpad_le3.
  - rewrite zpad_of_nat. lia.
Qed.

(** [put_bytes] within the bounds of the buffer. *)
Lemma put_bytes_spec (mem : buffer) (pr : nat) (buf : list byte) :
  (pr + padded (length buf) <= length mem)%nat ->
  Z.of_nat (length mem) < size_max ->
  put_bytes mem pr buf =
    Ok (take pr mem ++ buf ++ replicate (pad_len (length buf)) "000"%byte
          ++ drop (pr + padded (length buf)) mem,
        (pr + padded (length buf))%nat).
Proof.
  intros Hb Hsz. unfold put_bytes, memcpy_in, padded in *.
  destruct (decide (pr + length buf <= length mem)%nat) as [Hle|Hn]; [|lia].
  set (mem1 := take pr mem ++ buf ++ drop (pr + length buf) mem).
  assert (Hlen1 : length mem1 = length mem).
  { unfold mem1. rewrite !length_app, length_take, length_drop. lia. }
  unfold pad_fuel. rewrite put_pad_spec.
  - rewrite zpad_of_nat. f_equal. f_equal; [|lia].
    assert (Ht : take (pr + length buf) mem1 = take pr mem ++ buf).
    { unfold mem1. rewrite app_assoc. apply take_app_length'.
      rewrite length_app, length_take. lia. }
    assert (Hd : drop (pr + length buf + pad_len (length buf)) mem1
                 = drop (pr + (length buf + pad_len (length buf))) mem).
    { unfold mem1. rewrite app_assoc, drop_app_ge.
      - rewrite length_app, length_take, drop_drop. f_equal. lia.
      - rewrite length_app, length_take. lia. }
    rewrite Ht, Hd, <- app_assoc. reflexivity.
  - lia.
  - rewrite zpad_of_nat. lia.
  - apply zpad_le3.
  - rewrite zpad_of_nat. lia.
Qed.

(** C9.  Within a buffer, [put_bytes] writes the [N] bytes of [buf]
    followed by zero bytes up to the next multiple of four and moves the
    cursor by the padded length; [get_bytes] of [N] bytes at the same
    place gives [buf] back and moves the cursor as far; and on any buffer
    [get_bytes] throws exactly when one of the pad bytes is not zero, and
    returns the [N] bytes otherwise. *)
Theorem put_get_bytes_padded (mem : buffer) (pr : nat) (buf : list byte) :
  (pr + padded (length buf) <= length mem)%nat ->
  Z.of_nat (length mem) < size_max ->
  let n := length buf in
  let mem' :=
    take pr mem ++ buf ++ replicate (pad_len n) "000"%byte
      ++ drop (pr + padded n) mem in
  Z.of_nat (padded n) mod 4 = 0 /\ (n <= padded n < n + 4)%nat
  /\ put_bytes mem pr buf = Ok (mem', (pr + padded n)%nat)
  /\ get_bytes mem' pr n = Ok (buf, (pr + padded n)%nat)
  /\ (forall m : buffer,
        (pr + padded n <= length m)%nat -> Z.of_nat (length m) < size_max ->
        (get_bytes m pr n = XdrShouldBeZero <->
           exists c, c ∈ padding m pr n /\ c <> "000"%byte)
        /\ (get_bytes m pr n = XdrShouldBeZero
            \/ get_bytes m pr n = Ok (take n (drop pr m), (pr + padded n)%nat))).
Proof.
  intros Hb Hsz n mem'. subst n. set (n := length buf) in *.
  assert (Hn : length buf = n) by reflexivity. clearbody n.
  assert (Hpad : (pad_len n <= 3)%nat) by (rewrite <- zpad_of_nat; apply zpad_le3).
  assert (Hlen' : length mem' = length mem).
  { unfold mem'. rewrite !length_app, length_take, length_replicate, length_drop.
    unfold padded in *. lia. }
  split; [apply padded_aligned|].
  split; [unfold padded; lia|].
  split; [unfold mem'; rewrite <- Hn in *; apply put_bytes_spec; assumption|].
  split.
  - rewrite get_bytes_spec by (rewrite ?Hlen'; assumption).
    assert (Hpr : length (take pr mem) = pr).
    { rewrite length_take. unfold padded in Hb. lia. }
    assert (Hd : drop pr mem' = buf ++ replicate (pad_len n) "000"%byte
                                  ++ drop (pr + padded n) mem).
    { unfold mem'. apply drop_app_length'. symmetry. exact Hpr. }
    assert (Hp : padding mem' pr n = replicate (pad_len n) "000"%byte).
    { unfold padding. rewrite <- drop_drop, Hd.
      rewrite (drop_app_length' buf _ n) by (symmetry; exact Hn).
      rewrite take_app_length'; [reflexivity|].
      rewrite length_replicate. reflexivity. }
    rewrite Hp, forallb_zero_replicate, Hd.
    rewrite (take_app_length' buf _ n) by (symmetry; exact Hn). reflexivity.
  - intros m Hm Hmsz. rewrite get_bytes_spec by assumption.
    destruct (forallb (Byte.eqb "000"%byte) (padding m pr n)) eqn:E.
    + split; [|right; reflexivity]. split; [discriminate|].
      intros Hex. apply forallb_zero_false in Hex. congruence.
    + split; [|left; reflexivity]. split; [|reflexivity].
      intros _. apply forallb_zero_false. exact E.
Qed.

(** Five bytes written at offset 4 of a 16-byte buffer, and read back. *)
Lemma put_get_bytes_padded_witness :
  let mem : buffer := replicate 16 "255"%byte in
  let buf : list byte := ["001"; "002"; "003"; "004"; "005"]%byte in
  put_bytes mem 4 buf
    = Ok (replicate 4 "255"%byte ++ buf ++ replicate 3 "000"%byte
            ++ replicate 4 "255"%byte, 12%nat)
  /\ get_bytes (replicate 4 "255"%byte ++ buf ++ replicate 3 "000"%byte
                  ++ replicate 4 "255"%byte) 4 5 = Ok (buf, 12%nat).
Proof.
  intros mem buf.
  assert (H1 : (4 + padded (length buf) <= length mem)%nat) by (vm_compute; lia).
  assert (H2 : Z.of_nat (length mem) < size_max) by (vm_compute; reflexivity).
  pose proof (put_get_bytes_padded mem 4 buf H1 H2) as (_ & _ & Hput & Hget & _).
  split; [exact Hput | exact Hget].
Defined.

End MarshalFacts.

(** ** The pollset *)

Module PollsetFacts.
Import Pollset.

Section Timeouts.
Context {C : Type}.
Implicit Types (ps : pollset C) (t : timer C) (l : list (timer C)).

Lemma ordered_head_earliest l t :
  ordered l -> head l = Some t -> forall t', t' ∈ l -> deadline t <= deadline t'.
Proof.
  intros Ho Hh t' Hin. destruct l as [|x l]; [discriminate|].
  simpl in Hh. injection Hh as ->.
  apply StronglySorted_inv in Ho as [_ Hall].
  apply elem_of_cons in Hin as [->|Hin]; [lia|].
  rewrite Forall_forall in Hall. by apply Hall.
Qed.

Lemma elem_of_mm_insert t l y : y ∈ mm_insert t l -> y = t \/ y ∈ l.
Proof.
  induction l as [|z l IH]; simpl; intros Hy.
  - apply list_elem_of_singleton in Hy. by left.
  - destruct (deadline z <=? deadline t).
    + apply elem_of_cons in Hy as [->|Hy]; [right; by left|].
      destruct (IH Hy) as [->|Hin]; [by left|right; by right].
    + apply elem_of_cons in Hy as [->|Hy]; [by left|by right].
Qed.

Lemma mm_insert_ordered t l : ordered l -> ordered (mm_insert t l).
Proof.
  unfold ordered. induction l as [|x l IH]; intros Ho; simpl.
  - constructor; [constructor|constructor].
  - apply StronglySorted_inv in Ho as [Hl Hall].
    destruct (deadline x <=? deadline t) eqn:E.
    + apply Z.leb_le in E. constructor; [by apply IH|].
      rewrite Forall_forall in *. intros y Hy.
      destruct (elem_of_mm_insert _ _ _ Hy) as [->|Hin]; [lia|by apply Hall].
    + apply Z.leb_gt in E. constructor.
      * constructor; assumption.
      * constructor; [lia|].
        rewrite Forall_forall in *. intros y Hy. specialize (Hall y Hy). lia.
Qed.

(** C6.  [next_timeout(ms)] is [ms] when the queue is empty, 0 when the
    earliest deadline is not after [now], and otherwise the smaller of
    [ms] (a negative [ms] counting as infinite) and the time to the
    earliest deadline, that time being cut at [INT_MAX].  The head of the
    ordered queue is its earliest timer; the subtraction does not
    overflow an [int64_t]. *)
Theorem next_timeout_min (now ms : Z) ps :
  ordered (time_cbs_ ps) ->
  (forall t, head (time_cbs_ ps) = Some t -> deadline t - now <= INT64_MAX) ->
  match head (time_cbs_ ps) with
  | None => next_timeout now ms ps = ms
  | Some t =>
      (forall t', t' ∈ time_cbs_ ps -> deadline t <= deadline t')
      /\ (deadline t <= now -> next_timeout now ms ps = 0)
      /\ (now < deadline t ->
          next_timeout now ms ps = min_timeout ms (Z.min (deadline t - now) INT_MAX))
  end.
Proof.
  intros Hord Hov. unfold next_timeout.
  destruct (time_cbs_ ps) as [|t l] eqn:El; simpl; [reflexivity|].
  specialize (Hov t eq_refl).
  split; [apply (ordered_head_earliest (t :: l)); [assumption|reflexivity]|].
  split.
  - intros Hdue. destruct (now >=? deadline t) eqn:E; [reflexivity|].
    rewrite Z.geb_leb in E. apply Z.leb_gt in E. lia.
  - intros Hlater. destruct (now >=? deadline t) eqn:E.
    { rewrite Z.geb_leb in E. apply Z.leb_le in E. lia. }
    assert (Hw : wrap_int64 (deadline t - now) = deadline t - now).
    { unfold wrap_int64. unfold INT64_MAX in Hov.
      rewrite Z.mod_small by lia. lia. }
    rewrite Hw. unfold min_timeout, INT_MAX, wrap_int.
    destruct (deadline t - now >? 2 ^ 31 - 1) eqn:Eg.
    + rewrite Z.gtb_ltb in Eg. apply Z.ltb_lt in Eg.
      rewrite (Z.min_r (deadline t - now)) by lia.
      destruct (ms <? 0) eqn:Em.
      * apply Z.ltb_lt in Em.
        replace (ms >=? 0) with false by (symmetry; rewrite Z.geb_leb; apply Z.leb_gt; lia).
        simpl. rewrite Z.mod_small by lia. lia.
      * apply Z.ltb_ge in Em.
        replace (ms >=? 0) with true by (symmetry; rewrite Z.geb_leb; apply Z.leb_le; lia).
        simpl. destruct (ms <=? 2 ^ 31 - 1) eqn:El'.
        -- apply Z.leb_le in El'. lia.
        -- apply Z.leb_gt in El'. rewrite Z.mod_small by lia. lia.
    + rewrite Z.gtb_ltb in Eg. apply Z.ltb_ge in Eg.
      rewrite (Z.min_l (deadline t - now)) by lia.
      destruct (ms <? 0) eqn:Em.
      * apply Z.ltb_lt in Em.
        replace (ms >=? 0) with false by (symmetry; rewrite Z.geb_leb; apply Z.leb_gt; lia).
        simpl. rewrite Z.mod_small by lia. lia.
      * apply Z.ltb_ge in Em.
        replace (ms >=? 0) with true by (symmetry; rewrite Z.geb_leb; apply Z.leb_le; lia).
        simpl. destruct (ms <=? deadline t - now) eqn:El'.
        -- apply Z.leb_le in El'. lia.
        -- apply Z.leb_gt in El'. rewrite Z.mod_small by lia. lia.
Qed.

(** C10.  [timeout_cancel] on the null handle returns with nothing
    changed, and leaves every handle it returns null;
    [timeout_reschedule_at] reads the node behind the handle first, so
    on the null handle, on a handle whose node is gone (fired, or
    cancelled through another copy), and on the handle a cancel has made
    null, its behaviour is undefined; on a handle to a node of the queue
    it returns. *)
Theorem timeout_reschedule_at_needs_node (ms : Z) ps :
  timeout_cancel timeout_null ps = Ret (ps, timeout_null)
  /\ timeout_reschedule_at timeout_null ms ps = Undefined
  /\ (forall n, find_node n (time_cbs_ ps) = None ->
       timeout_reschedule_at (mk_Timeout (Some n)) ms ps = Undefined)
  /\ (forall h ps' h', timeout_cancel h ps = Ret (ps', h') ->
       h' = timeout_null /\ timeout_reschedule_at h' ms ps' = Undefined)
  /\ (forall n nd, find_node n (time_cbs_ ps) = Some nd ->
       exists ps', timeout_reschedule_at (mk_Timeout (Some n)) ms ps
                   = Ret (ps', mk_Timeout (Some (next_node_ ps)))).
Proof.
  repeat split.
  - intros n Hn. unfold timeout_reschedule_at. simpl. rewrite Hn. reflexivity.
  - unfold timeout_cancel in H. destruct h as [[n|]]; simpl in H.
    + destruct (find_node n (time_cbs_ ps)); [|discriminate].
      by injection H as _ <-.
    + by injection H as _ <-.
  - unfold timeout_cancel in H. destruct h as [[n|]]; simpl in H.
    + destruct (find_node n (time_cbs_ ps)); [|discriminate].
      by injection H as _ <-.
    + by injection H as _ <-.
  - intros n nd Hn. unfold timeout_reschedule_at. simpl. rewrite Hn.
    eexists. reflexivity.
Qed.

End Timeouts.

(** A queue holding one timer due at 5, asked at time 3 with no caller
    timeout, and asked at time 7. *)
Lemma next_timeout_min_witness :
  let ps := fst (timeout_at 5 (Some Nop) (pollset_new 3 4)) in
  next_timeout 3 (-1) ps = 2 /\ next_timeout 7 (-1) ps = 0.
Proof.
  intros ps.
  assert (Hord : ordered (time_cbs_ ps)).
  { unfold ordered. simpl. constructor; constructor. }
  assert (Hov : forall now, -1 <= now ->
            forall t, head (time_cbs_ ps) = Some t -> deadline t - now <= INT64_MAX).
  { intros now Hnow t Ht. simpl in Ht. injection Ht as <-. simpl.
    unfold INT64_MAX. lia. }
  pose proof (next_timeout_min 3 (-1) ps Hord (Hov 3 ltac:(lia))) as H3.
  pose proof (next_timeout_min 7 (-1) ps Hord (Hov 7 ltac:(lia))) as H7.
  simpl in H3, H7.
  destruct H3 as (_ & _ & H3). destruct H7 as (_ & H7 & _).
  split; [apply H3; lia | apply H7; lia].
Defined.

(** A timer scheduled with [timeout_at] and then cancelled: the handle
    is null afterwards and cannot be rescheduled; the live handle can. *)
Lemma timeout_reschedule_at_needs_node_witness :
  let '(ps, h) := timeout_at 5 (Some Nop) (pollset_new 3 4) in
  (exists ps', timeout_reschedule_at h 9 ps = Ret (ps', mk_Timeout (Some 1%nat)))
  /\ (exists ps', timeout_cancel h ps = Ret (ps', timeout_null)
                  /\ timeout_reschedule_at timeout_null 9 ps' = Undefined)
  /\ timeout_reschedule_at (mk_Timeout (Some 7%nat)) 9 ps = Undefined.
Proof.
  set (ps := fst (timeout_at 5 (Some Nop) (pollset_new 3 4))).
  change (timeout_at 5 (Some Nop) (pollset_new 3 4))
    with (ps, mk_Timeout (Some O)).
  cbv beta iota.
  pose proof (timeout_reschedule_at_needs_node 9 ps) as (_ & _ & Hgone & Hcan & Hlive).
  split; [|split].
  - exact (Hlive O (mk_timer 5 O (Some Nop)) eq_refl).
  - eexists. split; [reflexivity|].
    exact (proj2 (Hcan (mk_Timeout (Some O)) _ _ eq_refl)).
  - exact (Hgone 7%nat eq_refl).
Defined.

Section Pending.
Context {C : Type}.
Implicit Types (ps : pollset C) (cb : cb_t C).

(** The [inject] of the header, which is not among the sources, taken as
    the spec describes it: it appends the callback to the inbox, and the
    "async inbox non-empty counter" is positive while the inbox holds a
    callback. *)
Variable inject_h : cb_t C -> pollset C -> pollset C.
Hypothesis inject_h_appends :
  forall cb ps, async_cbs_ (inject_h cb ps) = async_cbs_ ps ++ [cb].
Hypothesis inject_h_counts : forall cb ps, counts_inbox (inject_h cb ps).


End Pending.


Section Dispatch.
Context {C : Type} (run_cb : C -> pollset C -> outcome (pollset C)).
Implicit Types (ps : pollset C) (pfd : pollfd) (fi : fd_state C).

Lemma land_ready (r a b c : Z) :
  Z.land r (Z.lor a (Z.lor b c)) <> 0 <->
  Z.land r a <> 0 \/ Z.land r b <> 0 \/ Z.land r c <> 0.
Proof.
  rewrite !Z.land_lor_distr_r, !Z.lor_eq_0_iff.
  destruct (Z.eq_dec (Z.land r a) 0), (Z.eq_dec (Z.land r b) 0),
    (Z.eq_dec (Z.land r c) 0); intuition congruence.
Qed.

Lemma clear_events_bit (bit : Z) pfd :
  Z.land (events (clear_events bit pfd)) bit = 0.
Proof.
  unfold clear_events. simpl.
  rewrite <- Z.land_assoc, (Z.land_comm (Z.lnot bit)), Z.land_lnot_diag.
  apply Z.land_0_r.
Qed.

Lemma disarm_read_state i ps pfd fi :
  pollfds_ ps !! i = Some pfd -> state_ ps !! fd pfd = Some fi ->
  pollfds_ (disarm_read i (fd pfd) ps) !! i = Some (clear_events POLLIN pfd)
  /\ state_ (disarm_read i (fd pfd) ps) !! fd pfd = Some (set_rcb None fi).
Proof.
  intros Hp Hs. unfold disarm_read, update_pollfd, update_fd_state. simpl.
  rewrite list_lookup_alter_eq, Hp. rewrite lookup_alter_eq, Hs. done.
Qed.

Lemma dispatch_read_runs i ps pfd fi :
  pollfds_ ps !! i = Some pfd -> state_ ps !! fd pfd = Some fi ->
  dispatch_read run_cb i (fd pfd) ps =
    match rcb fi with
    | Some c =>
        if negb (Z.land (revents pfd) read_ready =? 0)
        then (if roneshot fi then run_cb c (disarm_read i (fd pfd) ps)
              else run_cb c ps)
        else Ret ps
    | None => Ret ps
    end.
Proof.
  intros Hp Hs. unfold dispatch_read. rewrite Hp, Hs.
  destruct (rcb fi) as [c|]; simpl.
  - rewrite andb_true_r. reflexivity.
  - rewrite andb_false_r. reflexivity.
Qed.

Lemma dispatch_write_runs (n0 : nat) i ps pfd fi (fdn : Z) :
  (length (pollfds_ ps) <= n0)%nat ->
  pollfds_ ps !! i = Some pfd -> state_ ps !! fdn = Some fi ->
  dispatch_write run_cb n0 i fdn ps =
    match wcb fi with
    | Some c =>
        if negb (Z.land (revents pfd) write_ready =? 0)
        then (if woneshot fi then run_cb c (disarm_write i fdn ps)
              else run_cb c ps)
        else Ret ps
    | None => Ret ps
    end.
Proof.
  intros Hn Hp Hs. unfold dispatch_write.
  replace (n0 <? length (pollfds_ ps))%nat with false
    by (symmetry; apply Nat.ltb_ge; exact Hn).
  rewrite Hp, Hs.
  destruct (wcb fi) as [c|]; simpl.
  - rewrite andb_true_r. reflexivity.
  - rewrite andb_false_r. reflexivity.
Qed.

Lemma disarm_write_state i ps pfd fi (fdn : Z) :
  pollfds_ ps !! i = Some pfd -> state_ ps !! fdn = Some fi ->
  pollfds_ (disarm_write i fdn ps) !! i = Some (clear_events POLLOUT pfd)
  /\ state_ (disarm_write i fdn ps) !! fdn = Some (set_wcb None fi).
Proof.
  intros Hp Hs. unfold disarm_write, update_pollfd, update_fd_state. simpl.
  rewrite list_lookup_alter_eq, Hp. rewrite lookup_alter_eq, Hs. done.
Qed.

(** C8.  For a ready slot [i] of descriptor [fd] (its record present, no
    [POLLNVAL] reported): the read direction is dispatched first and the
    write direction on the state the read direction leaves, through the
    references bound before the read callback ran; a registered read
    callback is called when [POLLIN], [POLLERR] or [POLLHUP] is reported,
    and is not called otherwise; a one-shot callback is called on the
    state in which its slot is already empty and [POLLIN] already cleared
    from the interest mask, a persistent one on the state as it is.  The
    write direction does the same with [POLLOUT] and the write callback
    when the read callback has not grown [pollfds_]; when it has, the
    write dispatch is undefined. *)
Theorem poll_slot_dispatch i ps pfd fi :
  pollfds_ ps !! i = Some pfd ->
  state_ ps !! fd pfd = Some fi ->
  has_flag (revents pfd) POLLNVAL = false ->
  let n0 := length (pollfds_ ps) in
  poll_slot run_cb i ps
    = dispatch_read run_cb i (fd pfd) ps >>= dispatch_write run_cb n0 i (fd pfd)
  /\ (forall c, rcb fi = Some c ->
        Z.land (revents pfd) POLLIN <> 0 \/ Z.land (revents pfd) POLLHUP <> 0
          \/ Z.land (revents pfd) POLLERR <> 0 ->
        dispatch_read run_cb i (fd pfd) ps =
          if roneshot fi then run_cb c (disarm_read i (fd pfd) ps)
          else run_cb c ps)
  /\ (rcb fi = None \/ Z.land (revents pfd) read_ready = 0 ->
        dispatch_read run_cb i (fd pfd) ps = Ret ps)
  /\ (exists pfd' fi',
        pollfds_ (disarm_read i (fd pfd) ps) !! i = Some pfd'
        /\ state_ (disarm_read i (fd pfd) ps) !! fd pfd = Some fi'
        /\ Z.land (events pfd') POLLIN = 0 /\ rcb fi' = None)
  /\ (forall ps1, (n0 < length (pollfds_ ps1))%nat ->
        dispatch_write run_cb n0 i (fd pfd) ps1 = Undefined)
  /\ (forall ps1 pfd1 fi1,
        (length (pollfds_ ps1) <= n0)%nat ->
        pollfds_ ps1 !! i = Some pfd1 -> state_ ps1 !! fd pfd = Some fi1 ->
        (forall c, wcb fi1 = Some c ->
           Z.land (revents pfd1) POLLOUT <> 0 \/ Z.land (revents pfd1) POLLHUP <> 0
             \/ Z.land (revents pfd1) POLLERR <> 0 ->
           dispatch_write run_cb n0 i (fd pfd) ps1 =
             if woneshot fi1 then run_cb c (disarm_write i (fd pfd) ps1)
             else run_cb c ps1)
        /\ (wcb fi1 = None \/ Z.land (revents pfd1) write_ready = 0 ->
            dispatch_write run_cb n0 i (fd pfd) ps1 = Ret ps1)
        /\ (exists pfd' fi',
              pollfds_ (disarm_write i (fd pfd) ps1) !! i = Some pfd'
              /\ state_ (disarm_write i (fd pfd) ps1) !! fd pfd = Some fi'
              /\ Z.land (events pfd') POLLOUT = 0 /\ wcb fi' = None
              /\ rcb fi' = rcb fi1)).
Proof.
  intros Hp Hs Hnval n0. split; [|split; [|split; [|split; [|split]]]].
  - unfold poll_slot. rewrite Hp, Hs, Hnval. reflexivity.
  - intros c Hc Hready. rewrite (dispatch_read_runs i ps pfd fi Hp Hs), Hc.
    apply land_ready in Hready. apply Z.eqb_neq in Hready.
    unfold read_ready. rewrite Hready. reflexivity.
  - intros Hno. rewrite (dispatch_read_runs i ps pfd fi Hp Hs).
    destruct (rcb fi) as [c|]; [|reflexivity].
    destruct Hno as [Hno|Hno]; [discriminate|]. rewrite Hno. reflexivity.
  - destruct (disarm_read_state i ps pfd fi Hp Hs) as [H1 H2].
    exists (clear_events POLLIN pfd), (set_rcb None fi).
    split; [exact H1|]. split; [exact H2|]. split; [apply clear_events_bit|reflexivity].
  - intros ps1 Hgrow. unfold dispatch_write.
    replace (n0 <? length (pollfds_ ps1))%nat with true
      by (symmetry; apply Nat.ltb_lt; exact Hgrow).
    reflexivity.
  - intros ps1 pfd1 fi1 Hn Hp1 Hs1. split; [|split].
    + intros c Hc Hready.
      rewrite (dispatch_write_runs n0 i ps1 pfd1 fi1 (fd pfd) Hn Hp1 Hs1), Hc.
      apply land_ready in Hready. apply Z.eqb_neq in Hready.
      unfold write_ready. rewrite Hready. reflexivity.
    + intros Hno. rewrite (dispatch_write_runs n0 i ps1 pfd1 fi1 (fd pfd) Hn Hp1 Hs1).
      destruct (wcb fi1) as [c|]; [|reflexivity].
      destruct Hno as [Hno|Hno]; [discriminate|]. rewrite Hno. reflexivity.
    + destruct (disarm_write_state i ps1 pfd1 fi1 (fd pfd) Hp1 Hs1) as [H1 H2].
      exists (clear_events POLLOUT pfd1), (set_wcb None fi1).
      split; [exact H1|]. split; [exact H2|].
      split; [apply clear_events_bit|]. split; reflexivity.
Qed.

End Dispatch.

(** Descriptor 5 registered read-once on a fresh pollset, and reported
    readable: its callback, which throws, runs on the state without the
    callback and without the interest bit.  Registered write-once and
    reported writable, its callback runs on the state without the write
    callback.  Registered for reading with a callback that registers
    descriptor 6: the write dispatch that follows is undefined. *)
Lemma poll_slot_dispatch_witness :
  (exists ps : pollset act,
    fd_cb 5 ReadOnce (Fail 7) (pollset_new 3 4) >>= (fun p => Ret (kernel_report [POLLIN] p))
      = Ret ps
    /\ poll_slot exec O ps = Throw (user_error 7) (disarm_read O 5 ps)
    /\ pollfds_ (disarm_read O 5 ps) = [mk_pollfd 5 0 POLLIN])
  /\ (exists ps : pollset act,
        fd_cb 5 WriteOnce (Fail 8) (pollset_new 3 4)
          >>= (fun p => Ret (kernel_report [POLLOUT] p)) = Ret ps
        /\ poll_slot exec O ps = Throw (user_error 8) (disarm_write O 5 ps)
        /\ pollfds_ (disarm_write O 5 ps) = [mk_pollfd 5 0 POLLOUT]
        /\ wcb <$> state_ (disarm_write O 5 ps) !! 5 = Some None)
  /\ (exists ps : pollset act,
        fd_cb 5 Read (Watch 6 Read Nop) (pollset_new 3 4)
          >>= (fun p => Ret (kernel_report [POLLIN] p)) = Ret ps
        /\ poll_slot exec O ps = Undefined).
Proof.
  split; [|split].
  - eexists. split; [vm_compute; reflexivity|].
    match goal with |- poll_slot exec O ?p = _ /\ _ => set (ps := p) end.
    set (fi := mk_fd_state (C:=act) 0 (Some (Fail 7)) None true false).
    assert (Hp : pollfds_ ps !! O = Some (mk_pollfd 5 POLLIN POLLIN))
      by (vm_compute; reflexivity).
    assert (Hs : state_ ps !! fd (mk_pollfd 5 POLLIN POLLIN) = Some fi)
      by (vm_compute; reflexivity).
    assert (Hn : has_flag (revents (mk_pollfd 5 POLLIN POLLIN)) POLLNVAL = false)
      by reflexivity.
    pose proof (poll_slot_dispatch exec O ps _ fi Hp Hs Hn) as (Hslot & Hread & _).
    split; [|vm_compute; reflexivity].
    rewrite Hslot, (Hread (Fail 7) eq_refl); [reflexivity|].
    left. discriminate.
  - eexists. split; [vm_compute; reflexivity|].
    match goal with |- poll_slot exec O ?p = _ /\ _ => set (ps := p) end.
    set (pfd := mk_pollfd 5 POLLOUT POLLOUT).
    set (fi := mk_fd_state (C:=act) 0 None (Some (Fail 8)) false true).
    assert (Hp : pollfds_ ps !! O = Some pfd) by (vm_compute; reflexivity).
    assert (Hs : state_ ps !! fd pfd = Some fi) by (vm_compute; reflexivity).
    assert (Hn : has_flag (revents pfd) POLLNVAL = false) by reflexivity.
    pose proof (poll_slot_dispatch exec O ps pfd fi Hp Hs Hn)
      as (Hslot & _ & Hnoread & _ & _ & Hwrite).
    destruct (Hwrite ps pfd fi ltac:(lia) Hp Hs) as (Hrun & _ & _).
    split; [|split; vm_compute; reflexivity].
    rewrite Hslot, (Hnoread (or_introl eq_refl)). cbn [bind].
    rewrite (Hrun (Fail 8) eq_refl); [reflexivity|].
    left. discriminate.
  - eexists. split; [vm_compute; reflexivity|].
    match goal with |- poll_slot exec O ?p = _ => set (ps := p) end.
    set (pfd := mk_pollfd 5 POLLIN POLLIN).
    set (fi := mk_fd_state (C:=act) 0 (Some (Watch 6 Read Nop)) None false false).
    assert (Hp : pollfds_ ps !! O = Some pfd) by (vm_compute; reflexivity).
    assert (Hs : state_ ps !! fd pfd = Some fi) by (vm_compute; reflexivity).
    assert (Hn : has_flag (revents pfd) POLLNVAL = false) by reflexivity.
    pose proof (poll_slot_dispatch exec O ps pfd fi Hp Hs Hn)
      as (Hslot & Hread & _ & _ & Hgrow & _).
    rewrite Hslot, (Hread (Watch 6 Read Nop) eq_refl) by (left; discriminate).
    cbn [roneshot fi].
    destruct (exec (Watch 6 Read Nop) ps) as [ps1| | | | |] eqn:Hcb;
      try (vm_compute in Hcb; discriminate Hcb).
    cbn [bind]. apply Hgrow.
    vm_compute in Hcb. injection Hcb as <-. vm_compute. lia.
Defined.

Section RunTimeouts.
Context {C : Type} (run_cb : C -> pollset C -> outcome (pollset C)).
Implicit Types (ps : pollset C) (l : list (timer C)).

Lemma find_node_erase_ne (n m : nat) l :
  m <> n -> find_node m (erase_node n l) = find_node m l.
Proof.
  intros Hne. induction l as [|x l IH]; simpl; [reflexivity|].
  destruct (decide (node x = n)) as [Hx|Hx]; simpl.
  - destruct (decide (node x = m)); [congruence|reflexivity].
  - destruct (decide (node x = m)); [reflexivity|exact IH].
Qed.

Lemma find_node_None (n : nat) l :
  n ∉ node <$> l -> find_node n l = None.
Proof.
  induction l as [|x l IH]; simpl; intros Hn; [reflexivity|].
  apply not_elem_of_cons in Hn as [Hne Hn].
  destruct (decide (node x = n)); [congruence|by apply IH].
Qed.

Lemma find_node_erase_eq (n : nat) l :
  NoDup (node <$> l) -> find_node n (erase_node n l) = None.
Proof.
  induction l as [|x l IH]; simpl; intros Hnd; [reflexivity|].
  apply NoDup_cons in Hnd as [Hx Hnd].
  destruct (decide (node x = n)) as [<-|Hne]; simpl.
  - by apply find_node_None.
  - destruct (decide (node x = n)); [congruence|by apply IH].
Qed.

End RunTimeouts.

(** C1, on the code.  One timer due at 5, put in the queue of a fresh
    pollset by [emplace], and run at time 10.  The callback
    is called with the timer's record still in the queue, and the record
    is erased only after the callback has returned: a callback that asks
    [pending()] is told that a timer is queued; a callback that throws
    leaves its timer in the queue; and after a callback that cancels its
    own timer through the handle of the timer, [run_timeouts] erases
    through an iterator to a node that is gone, which is undefined.  On
    the queue without the record the first callback returns. *)
Theorem run_timeouts_erases_after_call :
  let h := mk_Timeout (Some O) in
  let queued (cb : act) : pollset act :=
    fst (emplace 5 (Some cb) (pollset_new 3 4)) in
  let erased (cb : act) : pollset act :=
    set_time_cbs (erase_node O (time_cbs_ (queued cb))) (queued cb) in
  snd (emplace 5 (Some (Cancel h)) (pollset_new 3 4)) = i_ h
  /\ run_timeouts exec 1 10 (queued (IfPending (Fail 1) Nop))
     = Throw (user_error 1) (queued (IfPending (Fail 1) Nop))
  /\ exec (IfPending (Fail 1) Nop) (erased (IfPending (Fail 1) Nop))
     = Ret (erased (IfPending (Fail 1) Nop))
  /\ run_timeouts exec 1 10 (queued (Fail 2)) = Throw (user_error 2) (queued (Fail 2))
  /\ time_cbs_ (queued (Fail 2)) = [mk_timer 5 O (Some (Fail 2))]
  /\ run_timeouts exec 1 10 (queued (Cancel h)) = Undefined
  /\ exec (Cancel h) (queued (Cancel h)) = Ret (erased (Cancel h)).
Proof.
  cbv zeta. repeat (split; [vm_compute; reflexivity|]). vm_compute; reflexivity.
Qed.

Section Reinject.
Context {C : Type} (run_cb : C -> pollset C -> outcome (pollset C)).
Implicit Types (ps : pollset C).

(** Moving a range that is not empty to [end()] assigns past the last
    element. *)
Lemma inject_cb_vec_past_end (c : cb_t C) (range : list (cb_t C)) ps :
  inject_cb_vec (c :: range) ps = Undefined.
Proof.
  unfold inject_cb_vec. simpl.
  destruct (decide (length (async_cbs_ ps) < length (async_cbs_ ps))%nat); [lia|].
  reflexivity.
Qed.

Lemma run_batch_throw_with_tail (c : C) (next : cb_t C) (rest : list (cb_t C))
    ps (e : exn) ps' :
  run_cb c ps = Throw e ps' ->
  run_batch run_cb (Some c :: next :: rest) ps = Undefined.
Proof.
  intros Hc. cbn -[inject_cb_vec]. rewrite Hc, inject_cb_vec_past_end.
  reflexivity.
Qed.

End Reinject.

(** C3, on the code.  A batch of two callbacks whose first throws: the
    second is not put back in the inbox; [inject_cb_vec] assigns through
    [async_cbs_.end()], which is undefined and leaves the size of the
    inbox as it is, where appending would propagate the error with the
    second callback in the inbox and a wake byte written. *)
Theorem run_pending_asyncs_tail_lost :
  let ps : pollset act :=
    set_pipe [Normal]
      (set_async_pending true
         (set_async_cbs [Some (Fail 1); Some Nop] (pollset_new 3 4))) in
  let appended : pollset act :=
    set_pipe [Normal]
      (set_async_pending true (set_async_cbs [Some Nop] (pollset_new 3 4))) in
  run_pending_asyncs exec ps = Undefined
  /\ run_pending_asyncs exec ps <> Throw (user_error 1) appended
  /\ inject_cb_vec [Some Nop] (snd (take_batch ps)) = Undefined.
Proof.
  cbv zeta. split; [vm_compute; reflexivity|].
  split; [intros H; vm_compute in H; discriminate H|vm_compute; reflexivity].
Qed.

Section Signals.
Context {C : Type} (num_sig : Z) (sigaction_ok default_ends : Z -> bool).
Implicit Types (w : process C) (p : pollset C).


End Signals.



(** ** The registry: array and records *)

Section Agree.
Implicit Types (fds : list Z) (ix : gmap Z Z).

Lemma agree_inj fds ix (i j : nat) (f : Z) :
  agree fds ix -> fds !! i = Some f -> fds !! j = Some f -> i = j.
Proof.
  intros [H1 _] Hi Hj. apply H1 in Hi. apply H1 in Hj. rewrite Hi in Hj.
  injection Hj as Hj. lia.
Qed.

Lemma agree_empty : agree [] ∅.
Proof.
  split.
  - intros i f H. discriminate.
  - intros f z H. rewrite lookup_empty in H. discriminate.
Qed.

(** A new slot at the end for a descriptor without a record. *)
Lemma agree_snoc fds ix (f : Z) :
  agree fds ix -> ix !! f = None ->
  agree (fds ++ [f]) (<[f := Z.of_nat (length fds)]> ix).
Proof.
  intros [H1 H2] Hf. split.
  - intros i g Hi. apply lookup_app_Some in Hi as [Hi|[Hlen Hi]].
    + assert (g <> f) by (intros ->; apply H1 in Hi; congruence).
      rewrite lookup_insert_ne by congruence. by apply H1.
    + destruct (i - length fds)%nat as [|k] eqn:Ek; simpl in Hi; [|discriminate].
      injection Hi as <-. rewrite lookup_insert_eq. f_equal. lia.
  - intros g z Hg. destruct (decide (f = g)) as [<-|Hne].
    + rewrite lookup_insert_eq in Hg. injection Hg as <-.
      split; [lia|]. rewrite Nat2Z.id. apply list_lookup_middle. reflexivity.
    + rewrite lookup_insert_ne in Hg by congruence.
      destruct (H2 g z Hg) as [Hz Hl]. split; [lia|].
      by apply lookup_app_l_Some.
Qed.

(** The last slot popped and its record erased. *)
Lemma agree_pop fds ix (f : Z) :
  agree (fds ++ [f]) ix -> agree fds (delete f ix).
Proof.
  intros [H1 H2]. split.
  - intros i g Hi.
    assert (Hi' : (fds ++ [f]) !! i = Some g) by by apply lookup_app_l_Some.
    assert (Hl : (fds ++ [f]) !! length fds = Some f)
      by (apply list_lookup_middle; reflexivity).
    assert (g <> f).
    { intros ->. apply lookup_lt_Some in Hi.
      pose proof (agree_inj _ _ _ _ _ (conj H1 H2) Hi' Hl). lia. }
    rewrite lookup_delete_ne by congruence. by apply H1.
  - intros g z Hg. destruct (decide (f = g)) as [<-|Hne].
    + rewrite lookup_delete_eq in Hg. discriminate.
    + rewrite lookup_delete_ne in Hg by congruence.
      destruct (H2 g z Hg) as [Hz Hl]. split; [lia|].
      apply lookup_app_Some in Hl as [Hl|[Hlen Hl]]; [exact Hl|].
      destruct (Z.to_nat z - length fds)%nat; simpl in Hl; [|discriminate].
      congruence.
Qed.

(** The last slot moved to position [i], whose record is erased. *)
Lemma agree_move_last fds ix (i : nat) (fi fb : Z) :
  agree (fds ++ [fb]) ix -> fds !! i = Some fi ->
  agree (<[i := fb]> fds) (<[fb := Z.of_nat i]> (delete fi ix)).
Proof.
  intros [H1 H2] Hi.
  assert (Hlt : (i < length fds)%nat) by (by apply lookup_lt_Some in Hi).
  assert (Hl : (fds ++ [fb]) !! length fds = Some fb)
    by (apply list_lookup_middle; reflexivity).
  assert (Hi' : (fds ++ [fb]) !! i = Some fi) by by apply lookup_app_l_Some.
  assert (Hne : fi <> fb).
  { intros ->. pose proof (agree_inj _ _ _ _ _ (conj H1 H2) Hi' Hl). lia. }
  split.
  - intros j g Hj. destruct (decide (i = j)) as [<-|Hij].
    + rewrite list_lookup_insert_eq in Hj by lia. injection Hj as <-.
      by rewrite lookup_insert_eq.
    + rewrite list_lookup_insert_ne in Hj by lia.
      assert (Hj' : (fds ++ [fb]) !! j = Some g) by by apply lookup_app_l_Some.
      assert (g <> fb).
      { intros ->. apply lookup_lt_Some in Hj.
        pose proof (agree_inj _ _ _ _ _ (conj H1 H2) Hj' Hl). lia. }
      assert (g <> fi).
      { intros ->. pose proof (agree_inj _ _ _ _ _ (conj H1 H2) Hj' Hi'). lia. }
      rewrite lookup_insert_ne, lookup_delete_ne by congruence. by apply H1.
  - intros g z Hg. destruct (decide (fb = g)) as [<-|Hgb].
    + rewrite lookup_insert_eq in Hg. injection Hg as <-.
      split; [lia|]. rewrite Nat2Z.id. apply list_lookup_insert_eq. lia.
    + rewrite lookup_insert_ne in Hg by congruence.
      destruct (decide (fi = g)) as [<-|Hgi].
      { rewrite lookup_delete_eq in Hg. discriminate. }
      rewrite lookup_delete_ne in Hg by congruence.
      destruct (H2 g z Hg) as [Hz Hlk]. split; [lia|].
      apply lookup_app_Some in Hlk as [Hlk|[Hlen Hlk]].
      * assert (Z.to_nat z <> i) by (intros Heq; rewrite Heq in Hlk; congruence).
        rewrite list_lookup_insert_ne by lia. exact Hlk.
      * destruct (Z.to_nat z - length fds)%nat; simpl in Hlk; [|discriminate].
        congruence.
Qed.

End Agree.


Section Registry.
Context {C : Type}.
Implicit Types (ps : pollset C) (v : list pollfd) (p b : pollfd).

Lemma pop_back_snoc v b : pop_back (v ++ [b]) = v.
Proof.
  unfold pop_back. rewrite length_app. simpl.
  apply take_app_length'. lia.
Qed.

Lemma slots_update_pollfd (i : nat) (g : pollfd -> pollfd) ps :
  (forall p, fd (g p) = fd p) -> slots (update_pollfd i g ps) = slots ps.
Proof.
  intros Hg. unfold slots, update_pollfd. simpl.
  apply list_eq. intros j. rewrite !list_lookup_fmap.
  destruct (decide (i = j)) as [<-|Hne].
  - rewrite list_lookup_alter_eq. destruct (pollfds_ ps !! i); simpl; [|done].
    by rewrite Hg.
  - by rewrite list_lookup_alter_ne.
Qed.

Lemma indices_update_fd_state (f : Z) (g : fd_state C -> fd_state C) ps :
  (forall s, idx (g s) = idx s) -> indices (update_fd_state f g ps) = indices ps.
Proof.
  intros Hg. unfold indices, update_fd_state. simpl.
  apply map_eq. intros k. rewrite !lookup_fmap.
  destruct (decide (f = k)) as [<-|Hne].
  - rewrite lookup_alter_eq. destruct (state_ ps !! f); simpl; [|done].
    by rewrite Hg.
  - by rewrite lookup_alter_ne.
Qed.

Lemma registry_slot_record ps (i : nat) p :
  registry_ok ps -> pollfds_ ps !! i = Some p ->
  exists fs, state_ ps !! fd p = Some fs /\ idx fs = Z.of_nat i.
Proof.
  intros [H1 _] Hp.
  assert (Hs : slots ps !! i = Some (fd p)).
  { unfold slots. by apply list_lookup_fmap_Some_2. }
  apply H1 in Hs. unfold indices in Hs. apply lookup_fmap_Some in Hs.
  destruct Hs as (fs & Hidx & Hfs). by exists fs.
Qed.

Lemma registry_record_slot ps (f : Z) (fs : fd_state C) :
  registry_ok ps -> state_ ps !! f = Some fs ->
  0 <= idx fs /\ exists p, pollfds_ ps !! Z.to_nat (idx fs) = Some p /\ fd p = f.
Proof.
  intros [_ H2] Hfs.
  assert (Hi : indices ps !! f = Some (idx fs)).
  { unfold indices. apply lookup_fmap_Some. by exists fs. }
  apply H2 in Hi as [Hz Hs]. split; [exact Hz|].
  unfold slots in Hs. apply list_lookup_fmap_Some_1 in Hs.
  destruct Hs as (p & Hfd & Hp). by exists p.
Qed.

(** The first loop of [consolidate]. *)
Lemma pop_idle_spec (fuel : nat) :
  forall ps, registry_ok ps ->
    registry_ok (pop_idle fuel ps)
    /\ selfpipe_ (pop_idle fuel ps) = selfpipe_ ps
    /\ (forall (i : nat) p, pollfds_ ps !! i = Some p -> events p <> 0 ->
          pollfds_ (pop_idle fuel ps) !! i = Some p)
    /\ ((length (pollfds_ ps) <= fuel)%nat ->
          forall b, last (pollfds_ (pop_idle fuel ps)) = Some b -> events b <> 0).
Proof.
  induction fuel as [|fuel IH]; intros ps Hok; simpl.
  - split; [exact Hok|]. split; [reflexivity|]. split; [auto|].
    intros Hlen b Hb. destruct (pollfds_ ps); [discriminate|simpl in Hlen; lia].
  - destruct (last (pollfds_ ps)) as [b|] eqn:Hlast.
    2:{ split; [exact Hok|]. split; [reflexivity|]. split; [auto|].
        intros _ b Hb. congruence. }
    destruct (events b =? 0) eqn:Eb.
    2:{ apply Z.eqb_neq in Eb.
        split; [exact Hok|]. split; [reflexivity|]. split; [auto|].
        intros _ b' Hb'. congruence. }
    apply Z.eqb_eq in Eb.
    apply last_Some in Hlast as [v' Hv].
    set (ps1 := set_pollfds (pop_back (pollfds_ ps))
                  (set_state (delete (fd b) (state_ ps)) ps)).
    assert (Hv1 : pollfds_ ps1 = v').
    { unfold ps1. simpl. rewrite Hv. apply pop_back_snoc. }
    assert (Hok1 : registry_ok ps1).
    { unfold registry_ok, slots, indices in *. rewrite Hv1.
      unfold ps1. simpl. rewrite fmap_delete.
      apply agree_pop. rewrite Hv, fmap_snoc in Hok. exact Hok. }
    destruct (IH ps1 Hok1) as (Hok' & Hsp & Hkeep & Hl).
    split; [exact Hok'|]. split; [exact Hsp|]. split.
    + intros i p Hp Hne. apply Hkeep; [|exact Hne].
      rewrite Hv1. rewrite Hv in Hp.
      apply lookup_app_Some in Hp as [Hp|[Hlen Hp]]; [exact Hp|].
      destruct (i - length v')%nat; simpl in Hp; [|discriminate].
      injection Hp as <-. congruence.
    + intros Hlen. apply Hl. rewrite Hv1. rewrite Hv, length_app in Hlen.
      simpl in Hlen. lia.
Qed.

(** The second loop of [consolidate], entered at [k] with every slot from
    [k] on active. *)
Lemma compact_spec (k : nat) :
  forall ps, registry_ok ps ->
    (k < length (pollfds_ ps))%nat ->
    (forall (j : nat) p, (k <= j)%nat -> pollfds_ ps !! j = Some p -> events p <> 0) ->
    exists ps',
      compact k ps = Ret ps'
      /\ registry_ok ps' /\ all_active ps'
      /\ selfpipe_ ps' = selfpipe_ ps
      /\ (forall p0, pollfds_ ps !! O = Some p0 -> events p0 <> 0 ->
            pollfds_ ps' !! O = Some p0).
Proof.
  induction k as [|i IH]; intros ps Hok Hlen Hact.
  - exists ps. simpl. split; [reflexivity|]. split; [exact Hok|].
    split; [|split; [reflexivity|auto]].
    intros j p Hp. apply (Hact j p); [lia|exact Hp].
  - simpl.
    destruct (pollfds_ ps !! i) as [pfd1|] eqn:Hi.
    2:{ apply lookup_ge_None in Hi. lia. }
    destruct (events pfd1 =? 0) eqn:E1.
    2:{ apply Z.eqb_neq in E1. apply IH; [exact Hok|lia|].
        intros j p Hj Hp. destruct (decide (j = i)) as [->|Hne].
        - congruence.
        - apply (Hact j p); [lia|exact Hp]. }
    apply Z.eqb_eq in E1.
    destruct (last (pollfds_ ps)) as [b|] eqn:Hlast.
    2:{ apply last_None in Hlast. rewrite Hlast in Hlen. simpl in Hlen. lia. }
    apply last_Some in Hlast as [v' Hv].
    assert (Hlen' : (i < length v')%nat).
    { rewrite Hv, length_app in Hlen. simpl in Hlen. lia. }
    assert (Hi' : v' !! i = Some pfd1).
    { rewrite Hv, lookup_app_l in Hi by lia. exact Hi. }
    assert (Hb : pollfds_ ps !! length v' = Some b).
    { rewrite Hv. apply list_lookup_middle. reflexivity. }
    assert (Hbact : events b <> 0).
    { apply (Hact (length v') b); [lia|exact Hb]. }
    destruct (registry_slot_record ps _ b Hok Hb) as (fs & Hfs & Hidx).
    assert (Hfdne : fd pfd1 <> fd b).
    { intros Heq.
      assert (H1 : slots ps !! i = Some (fd b)).
      { unfold slots. rewrite <- Heq. by apply list_lookup_fmap_Some_2. }
      assert (H2 : slots ps !! length v' = Some (fd b)).
      { unfold slots. by apply list_lookup_fmap_Some_2. }
      pose proof (agree_inj _ _ _ _ _ Hok H1 H2). lia. }
    simpl. rewrite lookup_delete_ne by exact Hfdne. rewrite Hfs.
    match goal with |- exists ps', compact i ?p = _ /\ _ => set (ps3 := p) end.
    assert (Hv3 : pollfds_ ps3 = <[i := b]> v').
    { unfold ps3. simpl. rewrite Hv, insert_app_l by lia. apply pop_back_snoc. }
    assert (Hok3 : registry_ok ps3).
    { unfold registry_ok, slots, indices in *. rewrite Hv3.
      unfold ps3. simpl. rewrite fmap_insert, fmap_delete, list_fmap_insert. simpl.
      apply agree_move_last.
      - rewrite Hv, fmap_snoc in Hok. exact Hok.
      - by apply list_lookup_fmap_Some_2. }
    destruct (IH ps3 Hok3) as (ps' & Hrun & Hok' & Hall & Hsp & H0).
    + rewrite Hv3, length_insert. lia.
    + intros j p Hj Hp. rewrite Hv3 in Hp.
      destruct (decide (i = j)) as [<-|Hne].
      * rewrite list_lookup_insert_eq in Hp by lia. congruence.
      * rewrite list_lookup_insert_ne in Hp by lia.
        apply (Hact j p); [lia|]. rewrite Hv. by apply lookup_app_l_Some.
    + exists ps'. split; [exact Hrun|]. split; [exact Hok'|].
      split; [exact Hall|]. split; [exact Hsp|].
      intros p0 Hp0 Hne0. apply H0; [|exact Hne0].
      rewrite Hv3. destruct (decide (i = O)) as [->|Hi0].
      * congruence.
      * rewrite list_lookup_insert_ne by lia.
        rewrite Hv, lookup_app_l in Hp0 by lia. exact Hp0.
Qed.

(** The consolidation pass on a registry whose array and records agree:
    it returns, the two still agree, no slot is left with an empty
    interest mask, and an active slot 0 stays what it is. *)
Lemma consolidate_spec ps :
  registry_ok ps ->
  exists ps',
    consolidate ps = Ret ps'
    /\ registry_ok ps' /\ all_active ps'
    /\ selfpipe_ ps' = selfpipe_ ps
    /\ (forall p0, pollfds_ ps !! O = Some p0 -> events p0 <> 0 ->
          pollfds_ ps' !! O = Some p0).
Proof.
  intros Hok. unfold consolidate.
  destruct (pop_idle_spec (length (pollfds_ ps)) ps Hok) as (Hok1 & Hsp1 & Hkeep & Hl).
  specialize (Hl (Nat.le_refl _)).
  set (ps1 := pop_idle (length (pollfds_ ps)) ps) in *.
  destruct (length (pollfds_ ps1) <? 2)%nat eqn:E.
  - apply Nat.ltb_lt in E. exists ps1. split; [reflexivity|].
    split; [exact Hok1|]. split; [|split; [exact Hsp1|exact (Hkeep O)]].
    intros i p Hp. apply Hl. rewrite last_lookup.
    pose proof (lookup_lt_Some _ _ _ Hp) as Hlt.
    replace (pred (length (pollfds_ ps1))) with i by lia. exact Hp.
  - apply Nat.ltb_ge in E.
    destruct (compact_spec (length (pollfds_ ps1) - 1) ps1 Hok1) as
      (ps' & Hrun & Hok' & Hall & Hsp & H0).
    + lia.
    + intros j p Hj Hp. apply Hl. rewrite last_lookup.
      pose proof (lookup_lt_Some _ _ _ Hp) as Hlt.
      replace (pred (length (pollfds_ ps1))) with j by lia. exact Hp.
    + exists ps'. split; [exact Hrun|]. split; [exact Hok'|].
      split; [exact Hall|]. split; [congruence|].
      intros p0 Hp0 Hne. apply H0; [|exact Hne]. by apply Hkeep.
Qed.

Lemma registry_ok_update_pollfd (i : nat) (g : pollfd -> pollfd) ps :
  (forall p, fd (g p) = fd p) -> registry_ok ps -> registry_ok (update_pollfd i g ps).
Proof.
  intros Hg Hok. unfold registry_ok. rewrite slots_update_pollfd by exact Hg.
  exact Hok.
Qed.

Lemma registry_ok_update_fd_state (f : Z) (g : fd_state C -> fd_state C) ps :
  (forall s, idx (g s) = idx s) -> registry_ok ps -> registry_ok (update_fd_state f g ps).
Proof.
  intros Hg Hok. unfold registry_ok. rewrite indices_update_fd_state by exact Hg.
  exact Hok.
Qed.

(** Removing a callback. *)
Lemma fd_cb_null_spec (f op : Z) ps :
  registry_ok ps ->
  exists ps',
    fd_cb_null f op ps = Ret ps'
    /\ registry_ok ps'
    /\ selfpipe_ ps' = selfpipe_ ps
    /\ (forall p0, pollfds_ ps !! O = Some p0 -> fd p0 <> f ->
          pollfds_ ps' !! O = Some p0).
Proof.
  intros Hok. unfold fd_cb_null.
  destruct (state_ ps !! f) as [fs|] eqn:Hfs.
  2:{ exists ps. auto. }
  destruct (registry_record_slot ps f fs Hok Hfs) as (Hz & p & Hp & Hfd).
  pose proof (lookup_lt_Some _ _ _ Hp) as Hlt.
  replace (0 <=? idx fs) with true by (symmetry; apply Z.leb_le; lia).
  rewrite bool_decide_eq_true_2 by exact Hlt. simpl.
  eexists. split; [reflexivity|].
  assert (Hkeep : forall p0, pollfds_ ps !! O = Some p0 -> fd p0 <> f ->
            Z.to_nat (idx fs) <> O).
  { intros p0 Hp0 Hne Heq. rewrite Heq in Hp. congruence. }
  destruct (has_flag op kReadFlag), (has_flag op kWriteFlag).
  - split; [|split; [reflexivity|]].
    + repeat first [apply registry_ok_update_fd_state; [reflexivity|]
                   |apply registry_ok_update_pollfd; [reflexivity|]].
      exact Hok.
    + intros p0 Hp0 Hne. pose proof (Hkeep p0 Hp0 Hne). simpl.
      rewrite !list_lookup_alter_ne by lia. exact Hp0.
  - split; [|split; [reflexivity|]].
    + repeat first [apply registry_ok_update_fd_state; [reflexivity|]
                   |apply registry_ok_update_pollfd; [reflexivity|]].
      exact Hok.
    + intros p0 Hp0 Hne. pose proof (Hkeep p0 Hp0 Hne). simpl.
      rewrite !list_lookup_alter_ne by lia. exact Hp0.
  - split; [|split; [reflexivity|]].
    + repeat first [apply registry_ok_update_fd_state; [reflexivity|]
                   |apply registry_ok_update_pollfd; [reflexivity|]].
      exact Hok.
    + intros p0 Hp0 Hne. pose proof (Hkeep p0 Hp0 Hne). simpl.
      rewrite !list_lookup_alter_ne by lia. exact Hp0.
  - split; [exact Hok|]. split; [reflexivity|]. auto.
Qed.

(** The slot of a descriptor, made if need be. *)
Lemma locate_spec (f : Z) ps :
  registry_ok ps ->
  exists ps1 (i : nat),
    locate f ps = Ret (ps1, i)
    /\ registry_ok ps1
    /\ slots ps1 !! i = Some f
    /\ selfpipe_ ps1 = selfpipe_ ps
    /\ (forall (j : nat) p, pollfds_ ps !! j = Some p -> pollfds_ ps1 !! j = Some p).
Proof.
  intros Hok. unfold locate.
  destruct (state_ ps !! f) as [fs|] eqn:Hfs; simpl.
  - destruct (registry_record_slot ps f fs Hok Hfs) as (Hz & p & Hp & Hfd).
    replace (idx fs <? 0) with false by (symmetry; apply Z.ltb_ge; lia).
    rewrite Hp. replace (fd p =? f) with true by (symmetry; apply Z.eqb_eq; exact Hfd).
    eexists _, _. split; [reflexivity|].
    rewrite insert_id by exact Hfs.
    assert (Hsame : set_state (state_ ps) ps = ps) by (by destruct ps).
    rewrite Hsame. split; [exact Hok|]. split; [|split; [reflexivity|auto]].
    unfold slots. rewrite <- Hfd. by apply list_lookup_fmap_Some_2.
  - eexists _, _. split; [reflexivity|]. split; [|split; [|split; [reflexivity|]]].
    + unfold registry_ok, slots, indices in *. simpl.
      rewrite fmap_snoc, fmap_insert. simpl.
      rewrite <- (length_fmap fd (pollfds_ ps)).
      apply agree_snoc; [exact Hok|]. by rewrite lookup_fmap, Hfs.
    + unfold slots. simpl. rewrite fmap_snoc. simpl.
      rewrite <- (length_fmap fd (pollfds_ ps)).
      apply list_lookup_middle. reflexivity.
    + intros j p Hp. simpl. by apply lookup_app_l_Some.
Qed.

(** Registering a callback for one direction. *)
Lemma fd_cb_spec (f op : Z) (c : C) ps :
  registry_ok ps -> one_direction op = true ->
  exists ps',
    fd_cb f op c ps = Ret ps'
    /\ registry_ok ps'
    /\ selfpipe_ ps' = selfpipe_ ps
    /\ (forall p0, pollfds_ ps !! O = Some p0 -> fd p0 <> f ->
          pollfds_ ps' !! O = Some p0).
Proof.
  intros Hok Hdir. unfold fd_cb, fd_cb_helper.
  destruct (locate_spec f ps Hok) as (ps1 & i & Hloc & Hok1 & Hi & Hsp & Hkeep).
  rewrite Hloc.
  assert (H0 : forall (g : pollfd -> pollfd) p0,
            pollfds_ ps !! O = Some p0 -> fd p0 <> f ->
            alter g i (pollfds_ ps1) !! O = Some p0).
  { intros g p0 Hp0 Hne.
    assert (i <> O).
    { intros ->. apply Hkeep in Hp0. unfold slots in Hi.
      rewrite list_lookup_fmap, Hp0 in Hi. simpl in Hi. congruence. }
    rewrite list_lookup_alter_ne by lia. by apply Hkeep. }
  unfold one_direction in Hdir.
  destruct (has_flag op kReadFlag), (has_flag op kWriteFlag); simpl in Hdir;
    try discriminate.
  - eexists. split; [reflexivity|]. split; [|split; [exact Hsp|]].
    + unfold assign_slot.
      repeat first [apply registry_ok_update_fd_state; [reflexivity|]
                   |apply registry_ok_update_pollfd; [reflexivity|]].
      exact Hok1.
    + intros p0 Hp0 Hne. simpl. by apply H0.
  - eexists. split; [reflexivity|]. split; [|split; [exact Hsp|]].
    + unfold assign_slot.
      repeat first [apply registry_ok_update_fd_state; [reflexivity|]
                   |apply registry_ok_update_pollfd; [reflexivity|]].
      exact Hok1.
    + intros p0 Hp0 Hne. simpl. by apply H0.
Qed.

Lemma pollset_ctor_spec (rfd wfd : Z) (drain : C) :
  exists ps0, pollset_ctor rfd wfd drain = Ret ps0 /\ registry_inv rfd ps0.
Proof.
  assert (Hnew : registry_ok (pollset_new (C:=C) rfd wfd)).
  { unfold registry_ok, slots, indices. simpl. rewrite fmap_empty. apply agree_empty. }
  destruct (fd_cb_spec rfd Read drain (pollset_new rfd wfd) Hnew eq_refl)
    as (ps0 & Hrun & Hok & Hsp & _).
  exists ps0. split; [exact Hrun|]. split; [exact Hok|]. split; [by rewrite Hsp|].
  unfold fd_cb, fd_cb_helper, locate in Hrun. simpl in Hrun.
  rewrite lookup_empty in Hrun. simpl in Hrun. injection Hrun as <-.
  eexists. simpl. split; [reflexivity|]. split; [reflexivity|]. simpl. discriminate.
Qed.

Lemma reg_run_app (a b : list (reg_op C)) ps :
  reg_run (a ++ b) ps = reg_run a ps >>= reg_run b.
Proof.
  revert ps. induction a as [|o a IH]; intros ps; simpl; [reflexivity|].
  destruct (reg_step o ps); simpl; auto.
Qed.

Lemma reg_step_inv (rfd : Z) (o : reg_op C) ps :
  registry_inv rfd ps -> user_op rfd o ->
  exists ps', reg_step o ps = Ret ps' /\ registry_inv rfd ps'
              /\ (o = OpConsolidate -> all_active ps').
Proof.
  intros (Hok & Hsp & p0 & Hp0 & Hfd & Hact) Huser.
  destruct o as [f op c|f op|]; simpl in *.
  - destruct Huser as [Hne Hdir].
    destruct (fd_cb_spec f op c ps Hok Hdir) as (ps' & Hrun & Hok' & Hsp' & H0).
    exists ps'. split; [exact Hrun|]. split; [|discriminate].
    split; [exact Hok'|]. split; [congruence|].
    exists p0. split; [apply H0; congruence|]. auto.
  - destruct (fd_cb_null_spec f op ps Hok) as (ps' & Hrun & Hok' & Hsp' & H0).
    exists ps'. split; [exact Hrun|]. split; [|discriminate].
    split; [exact Hok'|]. split; [congruence|].
    exists p0. split; [apply H0; congruence|]. auto.
  - destruct (consolidate_spec ps Hok) as (ps' & Hrun & Hok' & Hall & Hsp' & H0).
    exists ps'. split; [exact Hrun|]. split; [|intros _; exact Hall].
    split; [exact Hok'|]. split; [congruence|].
    exists p0. split; [by apply H0|]. auto.
Qed.

Lemma reg_run_inv (rfd : Z) (ops : list (reg_op C)) :
  forall ps, registry_inv rfd ps -> Forall (user_op rfd) ops ->
    exists ps', reg_run ops ps = Ret ps' /\ registry_inv rfd ps'.
Proof.
  induction ops as [|o ops IH]; intros ps Hinv Hops.
  - exists ps. split; [reflexivity|exact Hinv].
  - apply Forall_cons in Hops as [Ho Hops].
    destruct (reg_step_inv rfd o ps Hinv Ho) as (ps1 & Hstep & Hinv1 & _).
    destruct (IH ps1 Hinv1 Hops) as (ps' & Hrun & Hinv').
    exists ps'. simpl. rewrite Hstep. simpl. split; [exact Hrun|exact Hinv'].
Qed.

(** C5 (amended).  From the pollset as constructed, after any sequence of
    registrations (of one direction each), removals and consolidation
    passes on descriptors other than the read end of the self-pipe, the
    consolidation pass returns and leaves the array dense, slot 0 holding
    the read end of the self-pipe, and array and records in agreement:
    the index stored in each record is the position of the slot of its
    descriptor, and each slot has the record of its descriptor. *)
Theorem consolidate_keeps_registry (rfd wfd : Z) (drain : C) (ops : list (reg_op C)) :
  Forall (user_op rfd) ops ->
  exists ps0 ps',
    pollset_ctor rfd wfd drain = Ret ps0
    /\ reg_run (ops ++ [OpConsolidate]) ps0 = Ret ps'
    /\ dense ps'
    /\ slot0_selfpipe ps'
    /\ (exists p0, pollfds_ ps' !! O = Some p0 /\ fd p0 = rfd /\ events p0 <> 0)
    /\ (forall (f : Z) (fs : fd_state C), state_ ps' !! f = Some fs ->
          0 <= idx fs
          /\ exists p, pollfds_ ps' !! Z.to_nat (idx fs) = Some p /\ fd p = f)
    /\ (forall (i : nat) (p : pollfd), pollfds_ ps' !! i = Some p ->
          exists fs, state_ ps' !! fd p = Some fs /\ idx fs = Z.of_nat i).
Proof.
  intros Hops.
  destruct (pollset_ctor_spec rfd wfd drain) as (ps0 & Hctor & Hinv0).
  destruct (reg_run_inv rfd ops ps0 Hinv0 Hops) as (ps1 & Hrun1 & Hinv1).
  destruct (reg_step_inv rfd OpConsolidate ps1 Hinv1 I)
    as (ps' & Hstep & (Hok & Hsp & p0 & Hp0 & Hfd & Hact) & Hall).
  exists ps0, ps'. split; [exact Hctor|]. split.
  { rewrite reg_run_app, Hrun1. simpl. simpl in Hstep. rewrite Hstep. reflexivity. }
  split; [intros i p _ Hp; by apply (Hall eq_refl i p)|].
  split; [exists p0; split; [exact Hp0|congruence]|].
  split; [exists p0; auto|].
  split.
  - intros f fs Hfs. by apply registry_record_slot.
  - intros i p Hp. by apply registry_slot_record.
Qed.

End Registry.

(** Descriptors 5 and 6 registered, 5 removed again, and the pass run:
    the array holds the self-pipe and descriptor 6. *)
Lemma consolidate_keeps_registry_witness :
  exists ps0 ps' : pollset act,
    pollset_ctor 3 4 Nop = Ret ps0
    /\ reg_run ([OpRegister 5 Read Nop; OpRegister 6 WriteOnce Nop;
                  OpUnregister 5 ReadWrite] ++ [OpConsolidate]) ps0 = Ret ps'
    /\ dense ps' /\ slot0_selfpipe ps'.
Proof.
  assert (Hops : Forall (user_op (C:=act) 3)
            [OpRegister 5 Read Nop; OpRegister 6 WriteOnce Nop;
             OpUnregister 5 ReadWrite]).
  { repeat constructor; simpl; lia. }
  destruct (consolidate_keeps_registry 3 4 Nop _ Hops)
    as (ps0 & ps' & Hctor & Hrun & Hdense & Hslot & _).
  exists ps0, ps'. auto.
Defined.

(** The read end of the self-pipe removed like any descriptor after
    descriptor 5 was registered: the pass moves the slot of 5 to slot 0. *)
Lemma consolidate_moves_slot0 :
  exists ps0 ps' : pollset act,
    pollset_ctor 3 4 Nop = Ret ps0
    /\ reg_run ([OpRegister 5 Read Nop; OpUnregister 3 Read] ++ [OpConsolidate]) ps0
       = Ret ps'
    /\ pollfds_ ps' = [mk_pollfd 5 POLLIN 0]
    /\ selfpipe_ ps' = (3, 4)
    /\ ~ slot0_selfpipe ps'.
Proof.
  eexists _, _. split; [vm_compute; reflexivity|].
  split; [vm_compute; reflexivity|].
  split; [vm_compute; reflexivity|].
  split; [vm_compute; reflexivity|].
  intros (p & Hp & Hfd). vm_compute in Hp. injection Hp as <-.
  vm_compute in Hfd. discriminate Hfd.
Qed.

Section Inbox.
Context {C : Type}.
Implicit Types (ps : pollset C) (cb : cb_t C).

Lemma request_wake_pipe ps :
  pipe_ (request_wake ps)
    = pipe_ ps ++ (if async_pending_ ps || pipe_full ps then [] else [Normal])
  /\ async_pending_ (request_wake ps) = true
  /\ async_cbs_ (request_wake ps) = async_cbs_ ps
  /\ pipe_capacity_ (request_wake ps) = pipe_capacity_ ps.
Proof.
  unfold request_wake, wake. destruct (async_pending_ ps) eqn:E; simpl.
  - rewrite app_nil_r. auto.
  - change (pipe_full (set_async_pending true ps)) with (pipe_full ps).
    destruct (pipe_full ps); simpl; rewrite ?app_nil_r; auto.
Qed.

Lemma step_wakes_le (op : inbox_op C) ps :
  (wakes_written op ps <= rise (async_pending_ ps) (async_pending_ (inbox_step op ps)))%nat
  /\ (pipe_full ps = false ->
      wakes_written op ps = rise (async_pending_ ps) (async_pending_ (inbox_step op ps))).
Proof.
  destruct op as [cb|]; simpl.
  - unfold inject.
    destruct (request_wake_pipe (set_async_cbs (async_cbs_ ps ++ [cb]) ps))
      as (Hp & Hf & _).
    rewrite Hp, Hf. simpl. unfold rise.
    change (pipe_full (set_async_cbs (async_cbs_ ps ++ [cb]) ps)) with (pipe_full ps).
    split; [|intros ->];
      destruct (async_pending_ ps); simpl; try destruct (pipe_full ps); simpl;
      rewrite length_app; simpl; lia.
  - unfold rise. rewrite andb_false_r. split; [lia|reflexivity].
Qed.

(** An operation on the inbox adds at most one byte to the pipe and
    leaves its capacity as it is. *)
Lemma inbox_step_pipe (op : inbox_op C) ps :
  (length (pipe_ (inbox_step op ps)) <= S (length (pipe_ ps)))%nat
  /\ pipe_capacity_ (inbox_step op ps) = pipe_capacity_ ps.
Proof.
  destruct op as [cb|]; simpl.
  - unfold inject.
    destruct (request_wake_pipe (set_async_cbs (async_cbs_ ps ++ [cb]) ps))
      as (Hp & _ & _ & Hc).
    rewrite Hp, Hc. simpl. split; [|reflexivity].
    destruct (_ || _); rewrite length_app; simpl; lia.
  - split; [lia|reflexivity].
Qed.

(** On a full pipe, with the flag false, [inject] sets the flag and
    writes nothing. *)
Lemma inject_on_full_pipe cb ps :
  async_pending_ ps = false -> pipe_full ps = true ->
  async_pending_ (inject cb ps) = true
  /\ async_cbs_ (inject cb ps) = async_cbs_ ps ++ [cb]
  /\ pipe_ (inject cb ps) = pipe_ ps.
Proof.
  intros Hflag Hfull. unfold inject.
  destruct (request_wake_pipe (set_async_cbs (async_cbs_ ps ++ [cb]) ps))
    as (Hp & Hf & Hc & _).
  change (pipe_full (set_async_cbs (async_cbs_ ps ++ [cb]) ps)) with (pipe_full ps)
    in Hp.
  rewrite Hfull, orb_true_r, app_nil_r in Hp. auto.
Qed.

Lemma replicate_fills_pipe ps (wt : wake_type) :
  pipe_full (set_pipe (replicate (N.to_nat (pipe_capacity_ ps)) wt) ps) = true.
Proof.
  unfold pipe_full. cbn [pipe_ pipe_capacity_ set_pipe].
  rewrite length_replicate, N2Nat.id. apply N.leb_refl.
Qed.

(** C7 (amended).  [inject] puts its callback at the end of the inbox and
    leaves the flag set.  It writes a [Normal] byte to the self-pipe only
    when the flag was false, and then one byte when the pipe has room and
    none when the pipe is full; the test and the wake are those that
    close [inject_cb_vec].  Over any run of injects and inbox swaps the
    bytes written are at most as many as the times the flag went from
    false to true, and exactly as many when the pipe has room for one
    byte per operation. *)
Theorem inject_wakes_once cb ps :
  async_cbs_ (inject cb ps) = async_cbs_ ps ++ [cb]
  /\ async_pending_ (inject cb ps) = true
  /\ pipe_ (inject cb ps)
     = pipe_ ps ++ (if async_pending_ ps || pipe_full ps then [] else [Normal])
  /\ (length (pipe_ (inject cb ps)) = S (length (pipe_ ps))
      <-> async_pending_ ps = false /\ pipe_full ps = false)
  /\ pipe_ (request_wake ps)
     = pipe_ ps ++ (if async_pending_ ps || pipe_full ps then [] else [Normal])
  /\ (forall ops : list (inbox_op C),
        (total_wakes ops ps <= total_rises ops ps)%nat)
  /\ (forall ops : list (inbox_op C),
        (N.of_nat (length (pipe_ ps) + length ops) <= pipe_capacity_ ps)%N ->
        total_wakes ops ps = total_rises ops ps).
Proof.
  unfold inject.
  destruct (request_wake_pipe (set_async_cbs (async_cbs_ ps ++ [cb]) ps))
    as (Hp & Hf & Hc & _).
  change (pipe_full (set_async_cbs (async_cbs_ ps ++ [cb]) ps)) with (pipe_full ps)
    in Hp.
  split; [exact Hc|]. split; [exact Hf|]. split; [exact Hp|].
  split; [|split; [|split]].
  - rewrite Hp. simpl. rewrite length_app.
    destruct (async_pending_ ps), (pipe_full ps); simpl; split;
      intros H; try lia; try (destruct H; congruence); auto.
  - apply request_wake_pipe.
  - clear Hp Hf Hc. intros ops. revert ps. induction ops as [|op ops IH]; intros ps.
    + reflexivity.
    + simpl. pose proof (proj1 (step_wakes_le op ps)). specialize (IH (inbox_step op ps)).
      lia.
  - clear Hp Hf Hc. intros ops. revert ps. induction ops as [|op ops IH]; intros ps Hroom.
    + reflexivity.
    + simpl in *. destruct (inbox_step_pipe op ps) as [Hlen Hcap].
      rewrite (proj2 (step_wakes_le op ps)).
      * f_equal. apply IH. rewrite Hcap. lia.
      * unfold pipe_full. apply N.leb_gt. lia.
Qed.

End Inbox.

(** A self-pipe filled with [Signal] bytes, the flag being false: the
    inject sets the flag and no byte is written. *)
Lemma inject_full_pipe_no_wake :
  let ps : pollset act :=
    set_pipe (replicate (N.to_nat PIPE_CAPACITY) Signal) (pollset_new 3 4) in
  async_pending_ ps = false
  /\ async_pending_ (inject (Some Nop) ps) = true
  /\ async_cbs_ (inject (Some Nop) ps) = [Some Nop]
  /\ pipe_ (inject (Some Nop) ps) = pipe_ ps.
Proof.
  intros ps. split; [reflexivity|].
  exact (inject_on_full_pipe (Some Nop) ps eq_refl
           (replicate_fills_pipe (pollset_new 3 4) Signal)).
Qed.

(** Two injects, a swap of the inbox and a third inject on the pollset
    as constructed: two bytes written, for two rises of the flag. *)
Lemma inject_wakes_once_witness :
  let ops : list (inbox_op act) :=
    [OpInject (Some Nop); OpInject (Some Nop); OpTake; OpInject (Some Nop)] in
  total_wakes ops (pollset_new 3 4) = 2%nat
  /\ total_rises ops (pollset_new 3 4) = 2%nat.
Proof.
  intros ops.
  pose proof (inject_wakes_once (Some Nop) (pollset_new 3 4)) as (_ & _ & _ & _ & _ & _ & Hrun).
  rewrite (Hrun ops) by (vm_compute; discriminate).
  split; vm_compute; reflexivity.
Defined.

End PollsetFacts.


(** * Further properties *)

(** ** The padded byte copies *)

Module MarshalMore.
Import Marshal MarshalFacts.

(** The writing loop runs off the buffer when the pad bytes do not fit. *)
Lemma put_pad_overrun (fuel : nat) :
  forall (mem : buffer) (p : nat) (len : Z),
    0 <= len -> len + Z.of_nat (zpad len) < size_max ->
    (zpad len <= fuel)%nat ->
    (p <= length mem)%nat -> (length mem < p + zpad len)%nat ->
    put_pad fuel mem p len = Undefined.
Proof.
  induction fuel as [|fuel IH]; intros mem p len Hlen Hmax Hfuel Hp Hover.
  - lia.
  - simpl. destruct (Z.land len 3 =? 0) eqn:Hl.
    + apply Z.eqb_eq in Hl. rewrite (zpad_zero len Hlen Hl) in Hover. lia.
    + apply Z.eqb_neq in Hl. pose proof (zpad_succ len Hlen Hl) as Hs.
      rewrite Hs in *.
      destruct (decide (p < length mem)%nat) as [Hlt|Hge]; [|reflexivity].
      rewrite wrap_size_small by lia.
      apply IH; rewrite ?length_insert; lia.
Qed.

(** A write that does not fit runs past the end of the buffer. *)
Lemma put_bytes_overrun (mem : buffer) (pr : nat) (buf : list byte) :
  Z.of_nat (length mem) + 3 < size_max ->
  (length mem < pr + padded (length buf))%nat ->
  put_bytes mem pr buf = Undefined.
Proof.
  intros Hsz Hover. unfold put_bytes, memcpy_in, padded in *.
  destruct (decide (pr + length buf <= length mem)%nat) as [Hle|Hn]; [|reflexivity].
  assert (Hlen1 : length (take pr mem ++ buf ++ drop (pr + length buf) mem)
                  = length mem).
  { rewrite !length_app, length_take, length_drop. lia. }
  pose proof (zpad_le3 (Z.of_nat (length buf))) as H3.
  apply put_pad_overrun; rewrite ?zpad_of_nat, ?Hlen1; unfold pad_fuel; try lia.
  + rewrite <- zpad_of_nat. lia.
  + rewrite <- zpad_of_nat. lia.
Qed.

(** X1.  In a buffer of fewer than 2^64 - 3 bytes, [put_bytes] returns
    exactly when the data and its padding fit between the cursor and the
    end of the buffer; otherwise it writes outside the buffer. *)
Theorem put_bytes_defined_iff (mem : buffer) (pr : nat) (buf : list byte) :
  Z.of_nat (length mem) + 3 < size_max ->
  ((pr + padded (length buf) <= length mem)%nat ->
     exists mem', put_bytes mem pr buf = Ok (mem', (pr + padded (length buf))%nat))
  /\ ((length mem < pr + padded (length buf))%nat ->
        put_bytes mem pr buf = Undefined).
Proof.
  intros Hsz. split.
  - intros Hfit. eexists. apply put_bytes_spec; [exact Hfit|lia].
  - intros Hover. by apply put_bytes_overrun.
Qed.

(** A 6-byte buffer takes five bytes at offset 0 only with their three
    pad bytes, which do not fit; an 8-byte buffer takes them. *)
Lemma put_bytes_defined_iff_witness :
  let buf : list byte := ["001"; "002"; "003"; "004"; "005"]%byte in
  put_bytes (replicate 6 "255"%byte) 0 buf = Undefined
  /\ exists mem', put_bytes (replicate 8 "255"%byte) 0 buf = Ok (mem', 8%nat).
Proof.
  intros buf. split.
  - apply (proj2 (put_bytes_defined_iff (replicate 6 "255"%byte) 0 buf
                    ltac:(vm_compute; reflexivity))).
    vm_compute. lia.
  - apply (proj1 (put_bytes_defined_iff (replicate 8 "255"%byte) 0 buf
                    ltac:(vm_compute; reflexivity))).
    vm_compute. lia.
Defined.

(** X2.  [put_bytes] changes the buffer only between the old and the new
    cursor: the length is the same and every byte before the cursor or
    from the new cursor on is what it was. *)
Theorem put_bytes_frame (mem mem' : buffer) (pr pr' : nat) (buf : list byte) :
  Z.of_nat (length mem) + 3 < size_max ->
  put_bytes mem pr buf = Ok (mem', pr') ->
  length mem' = length mem
  /\ forall i : nat, (i < pr \/ pr' <= i)%nat -> mem' !! i = mem !! i.
Proof.
  intros Hsz Hput.
  destruct (decide (pr + padded (length buf) <= length mem)%nat) as [Hfit|Hover].
  2:{ rewrite (put_bytes_overrun mem pr buf Hsz) in Hput by lia.
      discriminate. }
  rewrite put_bytes_spec in Hput by (assumption || lia).
  injection Hput as <- <-.
  assert (Hpad : (pad_len (length buf) <= 3)%nat)
    by (rewrite <- zpad_of_nat; apply zpad_le3).
  unfold padded in *. split.
  - rewrite !length_app, length_take, length_replicate, length_drop. lia.
  - intros i [Hi|Hi].
    + rewrite lookup_app_l by (rewrite length_take; lia).
      apply lookup_take_lt. exact Hi.
    + rewrite lookup_app_r by (rewrite length_take; lia).
      rewrite lookup_app_r by (rewrite length_take; lia).
      rewrite lookup_app_r by (rewrite length_take, length_replicate; lia).
      rewrite lookup_drop, length_take, length_replicate. f_equal. lia.
Qed.

Lemma put_bytes_frame_witness :
  let mem : buffer := replicate 16 "255"%byte in
  let buf : list byte := ["001"; "002"; "003"; "004"; "005"]%byte in
  exists mem', put_bytes mem 4 buf = Ok (mem', 12%nat)
               /\ length mem' = 16%nat
               /\ mem' !! 3%nat = Some "255"%byte /\ mem' !! 12%nat = Some "255"%byte.
Proof.
  intros mem buf. eexists. split; [vm_compute; reflexivity|].
  match goal with |- length ?m = _ /\ _ =>
    pose proof (put_bytes_frame mem m 4 12 buf ltac:(vm_compute; reflexivity)
                  ltac:(vm_compute; reflexivity)) as [Hlen Hout]
  end.
  split; [exact Hlen|]. split.
  - rewrite Hout by lia. reflexivity.
  - rewrite Hout by lia. reflexivity.
Defined.

(** Reading where a field and its zero padding lie. *)
Lemma get_bytes_of_segment (m pre buf rest : buffer) (pr : nat) :
  m = pre ++ buf ++ replicate (pad_len (length buf)) "000"%byte ++ rest ->
  length pre = pr ->
  Z.of_nat (length m) < size_max ->
  get_bytes m pr (length buf) = Ok (buf, (pr + padded (length buf))%nat).
Proof.
  intros -> Hpre Hsz.
  rewrite get_bytes_spec; [| |exact Hsz].
  2:{ rewrite !length_app, length_replicate. unfold padded. lia. }
  assert (Hd : drop pr (pre ++ buf ++ replicate (pad_len (length buf)) "000"%byte ++ rest)
               = buf ++ replicate (pad_len (length buf)) "000"%byte ++ rest).
  { apply drop_app_length'. symmetry. exact Hpre. }
  unfold padding. rewrite <- drop_drop, Hd, drop_app_length.
  rewrite take_app_length' by (by rewrite length_replicate).
  rewrite forallb_zero_replicate, take_app_length. reflexivity.
Qed.

(** X3.  Two fields written one after the other, the second at the
    cursor the first write returns, are read back one after the other
    from the same cursors: the second write does not disturb the first
    field. *)
Theorem put_put_get_get (mem : buffer) (pr : nat) (a b : list byte) :
  Z.of_nat (length mem) + 3 < size_max ->
  (pr + padded (length a) + padded (length b) <= length mem)%nat ->
  let p1 := (pr + padded (length a))%nat in
  let p2 := (p1 + padded (length b))%nat in
  exists m1 m2 : buffer,
    put_bytes mem pr a = Ok (m1, p1)
    /\ put_bytes m1 p1 b = Ok (m2, p2)
    /\ get_bytes m2 pr (length a) = Ok (a, p1)
    /\ get_bytes m2 p1 (length b) = Ok (b, p2).
Proof.
  intros Hsz Hfit p1 p2.
  set (m1 := take pr mem ++ a ++ replicate (pad_len (length a)) "000"%byte
               ++ drop p1 mem).
  assert (Hlen1 : length m1 = length mem).
  { unfold m1, p1, padded in *.
    rewrite !length_app, length_take, length_replicate, length_drop. lia. }
  set (m2 := take p1 m1 ++ b ++ replicate (pad_len (length b)) "000"%byte
               ++ drop p2 m1).
  assert (Hlen2 : length m2 = length mem).
  { unfold m2, p2, padded in *.
    rewrite !length_app, length_take, length_replicate, length_drop. lia. }
  assert (Ht1 : take p1 m1 = take pr mem ++ a ++ replicate (pad_len (length a)) "000"%byte).
  { unfold m1. rewrite !app_assoc. apply take_app_length'.
    rewrite !length_app, length_take, length_replicate. unfold p1, padded in *. lia. }
  exists m1, m2.
  split; [apply put_bytes_spec; unfold p1 in *; lia|].
  split; [apply put_bytes_spec; rewrite ?Hlen1; unfold p2 in *; lia|].
  split.
  - apply (get_bytes_of_segment m2 (take pr mem) a
             (b ++ replicate (pad_len (length b)) "000"%byte ++ drop p2 m1)).
    + unfold m2. rewrite Ht1, <- !app_assoc. reflexivity.
    + rewrite length_take. unfold padded in *. lia.
    + lia.
  - apply (get_bytes_of_segment m2 (take p1 m1) b (drop p2 m1)).
    + reflexivity.
    + rewrite length_take. unfold p1, padded in *. lia.
    + lia.
Qed.

Lemma put_put_get_get_witness :
  let mem : buffer := replicate 16 "255"%byte in
  let a : list byte := ["001"; "002"; "003"]%byte in
  let b : list byte := ["004"; "005"; "006"; "007"; "008"]%byte in
  exists m1 m2 : buffer,
    put_bytes mem 4 a = Ok (m1, 8%nat) /\ put_bytes m1 8 b = Ok (m2, 16%nat)
    /\ get_bytes m2 4 3 = Ok (a, 8%nat) /\ get_bytes m2 8 5 = Ok (b, 16%nat).
Proof.
  intros mem a b.
  exact (put_put_get_get mem 4 a b ltac:(vm_compute; reflexivity)
           ltac:(vm_compute; lia)).
Defined.

(** The reading loop, when it returns, has moved over the pad bytes. *)
Lemma get_pad_ok (fuel : nat) (mem : buffer) :
  forall (p p' : nat) (len : Z),
    0 <= len -> len + Z.of_nat (zpad len) < size_max ->
    get_pad fuel mem p len = Ok p' ->
    p' = (p + zpad len)%nat /\ (p' <= length mem \/ zpad len = O)%nat.
Proof.
  induction fuel as [|fuel IH]; intros p p' len Hlen Hmax Hget; simpl in Hget.
  - destruct (Z.land len 3 =? 0) eqn:Hl; [|discriminate].
    apply Z.eqb_eq in Hl. injection Hget as <-.
    rewrite (zpad_zero len Hlen Hl). split; [lia|by right].
  - destruct (Z.land len 3 =? 0) eqn:Hl.
    + apply Z.eqb_eq in Hl. injection Hget as <-.
      rewrite (zpad_zero len Hlen Hl). split; [lia|by right].
    + apply Z.eqb_neq in Hl. pose proof (zpad_succ len Hlen Hl) as Hs.
      rewrite Hs in *.
      destruct (mem !! p) as [c|] eqn:Hp; [|discriminate].
      destruct (Byte.eqb c "000"); [|discriminate].
      rewrite wrap_size_small in Hget by lia.
      apply lookup_lt_Some in Hp.
      destruct (IH (S p) p' (len + 1)) as [Heq Hb]; [lia|lia|exact Hget|].
      split; [lia|]. left. destruct Hb as [Hb|Hb]; lia.
Qed.

(** X4.  Whenever [get_bytes] returns, it returns the [len] bytes at the
    cursor, the new cursor is the old one plus the padded length and lies
    within the buffer, and a cursor that was a multiple of four still
    is. *)
Theorem get_bytes_returns (m : buffer) (pr len : nat) (buf : list byte) (pr' : nat) :
  Z.of_nat (length m) + 3 < size_max ->
  get_bytes m pr len = Ok (buf, pr') ->
  buf = take len (drop pr m) /\ length buf = len
  /\ pr' = (pr + padded len)%nat /\ (pr' <= length m)%nat
  /\ (Z.of_nat pr mod 4 = 0 -> Z.of_nat pr' mod 4 = 0).
Proof.
  intros Hsz Hget. unfold get_bytes, memcpy_out in Hget.
  destruct (decide (pr + len <= length m)%nat) as [Hle|]; [|discriminate].
  destruct (get_pad pad_fuel m (pr + len) (Z.of_nat len)) as [p| | |] eqn:Hpad;
    try discriminate.
  injection Hget as <- <-.
  pose proof (zpad_le3 (Z.of_nat len)) as H3.
  destruct (get_pad_ok pad_fuel m (pr + len)%nat p (Z.of_nat len)
              ltac:(lia) ltac:(lia) Hpad) as [Hp Hb].
  rewrite zpad_of_nat in *.
  split; [reflexivity|]. split; [rewrite length_take, length_drop; lia|].
  split; [unfold padded; lia|]. split; [lia|].
  intros Hal. subst p.
  replace (pr + len + pad_len len)%nat with (pr + padded len)%nat
    by (unfold padded; lia).
  rewrite Nat2Z.inj_add, Z.add_mod, Hal, padded_aligned by lia. reflexivity.
Qed.

Lemma get_bytes_returns_witness :
  let m : buffer := (["001"; "002"; "003"; "004"; "005"; "000"; "000"; "000"])%byte in
  get_bytes m 0 5 = Ok (["001"; "002"; "003"; "004"; "005"]%byte, 8%nat)
  /\ Z.of_nat 8 mod 4 = 0.
Proof.
  intros m.
  assert (Hget : get_bytes m 0 5 = Ok (["001"; "002"; "003"; "004"; "005"]%byte, 8%nat))
    by (vm_compute; reflexivity).
  split; [exact Hget|].
  destruct (get_bytes_returns m 0 5 _ 8 ltac:(vm_compute; reflexivity) Hget)
    as (_ & _ & _ & _ & Hal).
  apply Hal. reflexivity.
Defined.

End MarshalMore.

(** ** The pollset *)

Module PollsetMore.
Import Pollset PollsetFacts.

Section TimerQueue.
Context {C : Type}.
Implicit Types (ps : pollset C) (t : timer C) (l : list (timer C)).

Lemma erase_node_sublist (n : nat) l : sublist (erase_node n l) l.
Proof.
  induction l as [|x l IH]; simpl; [constructor|].
  destruct (decide (node x = n)).
  - by apply sublist_cons.
  - by apply sublist_skip.
Qed.

Lemma ordered_sublist l l' : sublist l' l -> ordered l -> ordered l'.
Proof.
  unfold ordered. intros Hsub. induction Hsub as [|x l1 l2 Hsub IH|x l1 l2 Hsub IH];
    intros Ho.
  - constructor.
  - apply StronglySorted_inv in Ho as [Ho Hall]. constructor; [by apply IH|].
    rewrite Forall_forall in *. intros y Hy. apply Hall.
    by eapply elem_of_sublist.
  - apply StronglySorted_inv in Ho as [Ho _]. by apply IH.
Qed.

Lemma mm_insert_perm t l : mm_insert t l ≡ₚ t :: l.
Proof.
  induction l as [|x l IH]; simpl; [reflexivity|].
  destruct (deadline x <=? deadline t); [|reflexivity].
  rewrite IH. apply Permutation_swap.
Qed.

Lemma find_node_mm_insert (m : nat) t l :
  node t ∉ node <$> l ->
  find_node m (mm_insert t l) = if decide (node t = m) then Some t else find_node m l.
Proof.
  induction l as [|x l IH]; simpl; intros Hfresh.
  - reflexivity.
  - apply not_elem_of_cons in Hfresh as [Hne Hfresh].
    destruct (deadline x <=? deadline t); simpl.
    + destruct (decide (node x = m)) as [<-|Hxm].
      * destruct (decide (node t = node x)); [congruence|reflexivity].
      * by apply IH.
    + reflexivity.
Qed.

Lemma erase_node_fresh (n : nat) l : n ∉ node <$> l -> erase_node n l = l.
Proof.
  induction l as [|x l IH]; simpl; intros Hn; [reflexivity|].
  apply not_elem_of_cons in Hn as [Hne Hn].
  destruct (decide (node x = n)); [congruence|]. f_equal. by apply IH.
Qed.

Lemma erase_node_mm_insert t l :
  node t ∉ node <$> l -> erase_node (node t) (mm_insert t l) = l.
Proof.
  induction l as [|x l IH]; simpl; intros Hfresh.
  - destruct (decide (node t = node t)); [reflexivity|congruence].
  - apply not_elem_of_cons in Hfresh as [Hne Hfresh].
    destruct (deadline x <=? deadline t); simpl.
    + destruct (decide (node x = node t)); [congruence|]. f_equal. by apply IH.
    + destruct (decide (node t = node t)); [reflexivity|congruence].
Qed.

Lemma find_node_Some_elem (n : nat) l t :
  find_node n l = Some t -> t ∈ l /\ node t = n.
Proof.
  induction l as [|x l IH]; simpl; [discriminate|].
  destruct (decide (node x = n)) as [Hx|Hx].
  - intros [= <-]. split; [by left|exact Hx].
  - intros H. destruct (IH H) as [Hin Hn]. split; [by right|exact Hn].
Qed.

Lemma timers_ok_fresh ps : timers_ok ps -> next_node_ ps ∉ node <$> time_cbs_ ps.
Proof.
  intros (_ & _ & Hb) Hin. apply list_elem_of_fmap in Hin as (t & Heq & Hin).
  apply Hb in Hin. lia.
Qed.

(** Insertion of a new node keeps the queue well formed. *)
Lemma emplace_ok (ms : Z) (cb : cb_t C) ps :
  timers_ok ps -> timers_ok (fst (emplace ms cb ps)).
Proof.
  intros Hok. pose proof (timers_ok_fresh ps Hok) as Hfresh.
  destruct Hok as (Ho & Hnd & Hb). unfold timers_ok, emplace.
  cbn [fst time_cbs_ next_node_ set_next_node set_time_cbs].
  split; [by apply mm_insert_ordered|]. split.
  - rewrite mm_insert_perm. simpl. apply NoDup_cons. split; assumption.
  - intros t Ht. rewrite mm_insert_perm in Ht.
    apply elem_of_cons in Ht as [->|Ht]; simpl; [lia|]. apply Hb in Ht. lia.
Qed.

(** Erasing a node keeps the queue well formed. *)
Lemma erase_ok (n : nat) ps :
  timers_ok ps -> timers_ok (set_time_cbs (erase_node n (time_cbs_ ps)) ps).
Proof.
  intros (Ho & Hnd & Hb). pose proof (erase_node_sublist n (time_cbs_ ps)) as Hsub.
  split; [by eapply ordered_sublist|]. split.
  - simpl. apply (sublist_NoDup _ (node <$> time_cbs_ ps));
      [exact Hnd|apply fmap_sublist; exact Hsub].
  - simpl. intros t Ht. apply Hb. by eapply elem_of_sublist.
Qed.

Lemma erase_node_perm (n : nat) l t :
  find_node n l = Some t -> t :: erase_node n l ≡ₚ l.
Proof.
  induction l as [|x l IH]; simpl; [discriminate|].
  destruct (decide (node x = n)).
  - by intros [= ->].
  - intros H. rewrite Permutation_swap. by rewrite (IH H).
Qed.

(** X5.  On a well-formed queue, [timeout_cancel] on a handle to a queued
    timer returns the null handle and removes that timer and no other:
    the queue stays well formed, the node is gone, every other node is
    found as before; a second cancel, on the handle now null, changes
    nothing. *)
Theorem timeout_cancel_removes (n : nat) (nd : timer C) ps :
  timers_ok ps ->
  find_node n (time_cbs_ ps) = Some nd ->
  exists ps',
    timeout_cancel (mk_Timeout (Some n)) ps = Ret (ps', timeout_null)
    /\ timers_ok ps'
    /\ nd :: time_cbs_ ps' ≡ₚ time_cbs_ ps
    /\ find_node n (time_cbs_ ps') = None
    /\ (forall m, m <> n -> find_node m (time_cbs_ ps') = find_node m (time_cbs_ ps))
    /\ timeout_cancel timeout_null ps' = Ret (ps', timeout_null).
Proof.
  intros Hok Hfind. unfold timeout_cancel. simpl. rewrite Hfind.
  eexists. split; [reflexivity|]. split; [by apply erase_ok|].
  simpl. split; [by apply erase_node_perm|]. split.
  - apply find_node_erase_eq. apply Hok.
  - split; [|reflexivity]. intros m Hm. by apply find_node_erase_ne.
Qed.

(** X6.  On a well-formed queue, [timeout_reschedule_at] on a handle to a
    queued timer returns a handle to a new node that holds the same
    callback at the new deadline; the old node is gone, every other
    timer is found as before, the queue has as many timers as it had and
    is still in deadline order. *)
Theorem timeout_reschedule_at_moves (n : nat) (nd : timer C) (ms : Z) ps :
  timers_ok ps ->
  find_node n (time_cbs_ ps) = Some nd ->
  exists ps',
    timeout_reschedule_at (mk_Timeout (Some n)) ms ps
      = Ret (ps', mk_Timeout (Some (next_node_ ps)))
    /\ timers_ok ps'
    /\ find_node (next_node_ ps) (time_cbs_ ps')
       = Some (mk_timer ms (next_node_ ps) (action nd))
    /\ find_node n (time_cbs_ ps') = None
    /\ (forall m, m <> n -> m <> next_node_ ps ->
          find_node m (time_cbs_ ps') = find_node m (time_cbs_ ps))
    /\ length (time_cbs_ ps') = length (time_cbs_ ps).
Proof.
  intros Hok Hfind. unfold timeout_reschedule_at. simpl. rewrite Hfind.
  pose proof (timers_ok_fresh ps Hok) as Hfresh.
  pose proof (emplace_ok ms (action nd) ps Hok) as Hok1.
  destruct (find_node_Some_elem _ _ _ Hfind) as [Hin Hn].
  assert (Hlt : (n < next_node_ ps)%nat).
  { destruct Hok as (_ & _ & Hb). apply Hb in Hin. lia. }
  unfold emplace in *. cbn [fst] in Hok1.
  set (new := mk_timer ms (next_node_ ps) (action nd)) in *.
  eexists. split; [reflexivity|].
  split; [exact (erase_ok n _ Hok1)|].
  cbn [time_cbs_ next_node_ set_next_node set_time_cbs].
  assert (Hnew : find_node n (mm_insert new (time_cbs_ ps)) = Some nd).
  { rewrite find_node_mm_insert by exact Hfresh. simpl.
    destruct (decide (next_node_ ps = n)); [lia|exact Hfind]. }
  split; [|split; [|split]].
  - rewrite find_node_erase_ne by lia.
    rewrite find_node_mm_insert by exact Hfresh. simpl.
    destruct (decide (next_node_ ps = next_node_ ps)); [reflexivity|congruence].
  - apply find_node_erase_eq. apply Hok1.
  - intros m Hm Hm'. rewrite find_node_erase_ne by exact Hm.
    rewrite find_node_mm_insert by exact Hfresh. simpl.
    destruct (decide (next_node_ ps = m)); [congruence|reflexivity].
  - pose proof (Permutation_length (erase_node_perm n _ nd Hnew)) as Hp.
    pose proof (Permutation_length (mm_insert_perm new (time_cbs_ ps))) as Hq.
    simpl in Hp, Hq. lia.
Qed.

(** X7.  A timer inserted in a well-formed queue and cancelled through
    the handle of the insertion leaves the queue exactly as it was before
    the insertion. *)
Theorem emplace_cancel_restores (ms : Z) (cb : cb_t C) ps :
  timers_ok ps ->
  exists ps',
    timeout_cancel (mk_Timeout (snd (emplace ms cb ps))) (fst (emplace ms cb ps))
      = Ret (ps', timeout_null)
    /\ time_cbs_ ps' = time_cbs_ ps
    /\ ps' = set_next_node (S (next_node_ ps)) ps.
Proof.
  intros Hok. pose proof (timers_ok_fresh ps Hok) as Hfresh.
  unfold emplace, timeout_cancel.
  cbn [fst snd i_ time_cbs_ next_node_ set_next_node set_time_cbs].
  rewrite find_node_mm_insert by exact Hfresh. simpl.
  destruct (decide (next_node_ ps = next_node_ ps)); [|congruence].
  eexists. split; [reflexivity|].
  pose proof (erase_node_mm_insert (mk_timer ms (next_node_ ps) cb) (time_cbs_ ps) Hfresh)
    as He. simpl in He.
  split.
  - simpl. exact He.
  - unfold set_time_cbs, set_next_node. simpl. rewrite He. reflexivity.
Qed.

End TimerQueue.

Section FireTimers.
Context {C : Type} (run_cb : C -> pollset C -> outcome (pollset C)).
Context (f : C -> pollset C -> pollset C).
Implicit Types (ps : pollset C) (t : timer C) (l : list (timer C)).

Lemma due_prefix_split (now : Z) l :
  l = due_prefix now l ++ drop (length (due_prefix now l)) l
  /\ Forall (fun t => deadline t <= now) (due_prefix now l)
  /\ (forall t, head (drop (length (due_prefix now l)) l) = Some t -> now < deadline t).
Proof.
  induction l as [|x l (IH1 & IH2 & IH3)]; simpl.
  - split; [reflexivity|]. split; [constructor|]. intros t Ht. discriminate.
  - destruct (now >=? deadline x) eqn:E; simpl.
    + rewrite Z.geb_leb in E. apply Z.leb_le in E.
      split; [by rewrite <- IH1|]. split; [by constructor|exact IH3].
    + rewrite Z.geb_leb in E. apply Z.leb_gt in E.
      split; [reflexivity|]. split; [constructor|]. intros t [= <-]. exact E.
Qed.

(** The loop over timers that are due and quiet: each is called and
    erased in turn, and the loop goes on at what follows them. *)
Lemma run_timeouts_loop_prefix (now : Z) (pre : list (timer C)) :
  forall ps (fuel : nat) (rest : list (timer C)),
    time_cbs_ ps = pre ++ rest ->
    Forall (quiet run_cb f) pre ->
    Forall (fun t => deadline t <= now) pre ->
    run_timeouts_loop run_cb (length pre + fuel) now (mm_begin (pre ++ rest)) ps
      = run_timeouts_loop run_cb fuel now (mm_begin rest) (foldl (fired f) ps pre)
    /\ time_cbs_ (foldl (fired f) ps pre) = rest.
Proof.
  induction pre as [|t pre IH]; intros ps fuel rest Hq Hquiet Hdue.
  - simpl. auto.
  - apply Forall_cons in Hquiet as [(c & Hc & Hrun) Hquiet].
    apply Forall_cons in Hdue as [Ht Hdue].
    destruct (Hrun ps) as [Hret Hframe].
    cbn [app] in *.
    assert (Hfind : find_node (node t) (t :: pre ++ rest) = Some t).
    { simpl. destruct (decide (node t = node t)); [reflexivity|congruence]. }
    assert (Hsucc : successor (node t) (t :: pre ++ rest) = mm_begin (pre ++ rest)).
    { simpl. destruct (decide (node t = node t)); [reflexivity|congruence]. }
    assert (Herase : erase_node (node t) (t :: pre ++ rest) = pre ++ rest).
    { simpl. destruct (decide (node t = node t)); [reflexivity|congruence]. }
    set (ps1 := fired f ps t).
    assert (Hps1 : ps1 = set_time_cbs (pre ++ rest) (f c ps)).
    { unfold ps1, fired. rewrite Hc. cbn zeta. rewrite Hframe, Hq, Herase.
      reflexivity. }
    assert (Hq1 : time_cbs_ ps1 = pre ++ rest) by (rewrite Hps1; reflexivity).
    destruct (IH ps1 fuel rest Hq1 Hquiet Hdue) as [IHrun IHq].
    split; [|exact IHq].
    change (foldl (fired f) ps (t :: pre)) with (foldl (fired f) ps1 pre).
    rewrite <- IHrun.
    change (length (t :: pre) + fuel)%nat with (S (length pre + fuel)).
    change (mm_begin (t :: pre ++ rest)) with (Some (node t)).
    cbn [run_timeouts_loop].
    rewrite Hq, Hfind.
    replace (now >=? deadline t) with true
      by (symmetry; rewrite Z.geb_leb; apply Z.leb_le; lia).
    rewrite Hc. cbn [call]. rewrite Hret. cbn [bind].
    rewrite Hframe, Hq, Hfind, Hsucc, Herase, <- Hps1. reflexivity.
Qed.

Lemma run_timeouts_loop_not_due (now : Z) (fuel : nat) ps :
  (forall t, head (time_cbs_ ps) = Some t -> now < deadline t) ->
  run_timeouts_loop run_cb fuel now (mm_begin (time_cbs_ ps)) ps = Ret ps.
Proof.
  intros Hhead. destruct (time_cbs_ ps) as [|t l] eqn:Hq; simpl.
  - destruct fuel; reflexivity.
  - specialize (Hhead t eq_refl).
    assert (Hfind : find_node (node t) (t :: l) = Some t).
    { simpl. destruct (decide (node t = node t)); [reflexivity|congruence]. }
    destruct fuel; simpl; rewrite Hq; simpl in *; rewrite Hfind;
      replace (now >=? deadline t) with false
        by (symmetry; rewrite Z.geb_leb; apply Z.leb_gt; lia);
      reflexivity.
Qed.

Lemma run_timeouts_as_loop (fuel : nat) (now : Z) ps :
  run_timeouts run_cb fuel now ps
    = run_timeouts_loop run_cb fuel now (mm_begin (time_cbs_ ps)) ps.
Proof.
  unfold run_timeouts. destruct (mm_begin (time_cbs_ ps)); [reflexivity|].
  destruct fuel; reflexivity.
Qed.

(** X8.  When the callbacks of the timers due at [now] return and leave
    the timer queue alone, [run_timeouts] returns after calling them in
    queue order, each followed by the erase of its node, and stops at the
    first timer that is not due: the queue left is the old one without
    the due timers, and in an ordered queue every timer left is later
    than [now]. *)
Theorem run_timeouts_fires_due (fuel : nat) (now : Z) ps :
  Forall (quiet run_cb f) (due_prefix now (time_cbs_ ps)) ->
  (length (due_prefix now (time_cbs_ ps)) <= fuel)%nat ->
  let due := due_prefix now (time_cbs_ ps) in
  run_timeouts run_cb fuel now ps = Ret (foldl (fired f) ps due)
  /\ time_cbs_ (foldl (fired f) ps due) = drop (length due) (time_cbs_ ps)
  /\ (ordered (time_cbs_ ps) ->
      forall t, t ∈ time_cbs_ (foldl (fired f) ps due) -> now < deadline t).
Proof.
  intros Hquiet Hfuel. cbv zeta.
  destruct (due_prefix_split now (time_cbs_ ps)) as (Hsplit & Hdue & Hnext).
  set (due := due_prefix now (time_cbs_ ps)) in *.
  set (rest := drop (length due) (time_cbs_ ps)) in *.
  destruct (run_timeouts_loop_prefix now due ps (fuel - length due) rest
              Hsplit Hquiet Hdue) as [Hrun Hq].
  replace (length due + (fuel - length due))%nat with fuel in Hrun by lia.
  rewrite <- Hsplit in Hrun.
  split; [|split; [exact Hq|]].
  - rewrite run_timeouts_as_loop, Hrun. rewrite <- Hq.
    apply run_timeouts_loop_not_due. rewrite Hq. exact Hnext.
  - intros Hord t Ht. rewrite Hq in Ht.
    rewrite Hsplit in Hord. apply StronglySorted_app in Hord as (_ & _ & Hrest).
    destruct rest as [|r rest']; [inversion Ht|].
    specialize (Hnext r eq_refl).
    apply elem_of_cons in Ht as [->|Ht]; [exact Hnext|].
    apply StronglySorted_inv in Hrest as [_ Hall].
    rewrite Forall_forall in Hall. specialize (Hall t Ht). lia.
Qed.

(** X9.  When a due timer's callback throws, after earlier due timers
    whose callbacks returned, the exception leaves [run_timeouts] with
    the state as the callback left it: the earlier timers are erased, and
    the throwing timer was still at the head of the queue when it was
    called, its erase and the later timers not being reached. *)
Theorem run_timeouts_throw (fuel : nat) (now : Z) ps
    (pre : list (timer C)) (t : timer C) (rest : list (timer C))
    (c : C) (e : exn) (ps2 : pollset C) :
  time_cbs_ ps = pre ++ t :: rest ->
  Forall (quiet run_cb f) pre ->
  Forall (fun x => deadline x <= now) pre ->
  deadline t <= now ->
  action t = Some c ->
  run_cb c (foldl (fired f) ps pre) = Throw e ps2 ->
  (length pre < fuel)%nat ->
  run_timeouts run_cb fuel now ps = Throw e ps2
  /\ time_cbs_ (foldl (fired f) ps pre) = t :: rest.
Proof.
  intros Hq Hquiet Hdue Ht Hc Hthrow Hfuel.
  destruct (run_timeouts_loop_prefix now pre ps (fuel - length pre) (t :: rest)
              Hq Hquiet Hdue) as [Hrun Hq1].
  replace (length pre + (fuel - length pre))%nat with fuel in Hrun by lia.
  split; [|exact Hq1].
  rewrite run_timeouts_as_loop, Hq, Hrun.
  destruct (fuel - length pre)%nat as [|k] eqn:Hk; [lia|].
  cbn [run_timeouts_loop mm_begin head fmap option_fmap option_map].
  rewrite Hq1.
  assert (Hfind : find_node (node t) (t :: rest) = Some t).
  { simpl. destruct (decide (node t = node t)); [reflexivity|congruence]. }
  rewrite Hfind.
  replace (now >=? deadline t) with true
    by (symmetry; rewrite Z.geb_leb; apply Z.leb_le; lia).
  rewrite Hc. cbn [call]. rewrite Hthrow. reflexivity.
Qed.

End FireTimers.

(** Three timers whose callbacks write a byte to the self-pipe, at 5, 7
    and 20, run at time 10. *)
Lemma run_timeouts_fires_due_witness :
  let run := fun (w : wake_type) (ps : pollset wake_type) => Ret (wake w ps) in
  let ps := fst (emplace 20 (Some Normal)
             (fst (emplace 7 (Some Signal)
                (fst (emplace 5 (Some Normal) (pollset_new 3 4)))))) in
  exists ps', run_timeouts run 2 10 ps = Ret ps'
              /\ pipe_ ps' = [Normal; Signal]
              /\ time_cbs_ ps' = [mk_timer 20 2 (Some Normal)].
Proof.
  intros run ps.
  assert (Hq : Forall (quiet run wake) (due_prefix 10 (time_cbs_ ps))).
  { change (due_prefix 10 (time_cbs_ ps))
      with [mk_timer 5 O (Some Normal); mk_timer 7 1 (Some Signal)].
    repeat constructor; eexists; (split; [reflexivity|]); intros s;
      (split; [reflexivity|]); unfold wake; destruct (pipe_full s); reflexivity. }
  destruct (run_timeouts_fires_due run wake 2 10 ps Hq ltac:(simpl; lia))
    as (Hrun & _ & _).
  eexists. split; [exact Hrun|]. split; vm_compute; reflexivity.
Defined.

(** A timer whose callback returns, then one whose callback throws, both
    due: the first is erased, the second stays. *)
Lemma run_timeouts_throw_witness :
  let ps := fst (emplace 7 (Some (Fail 3)) (fst (emplace 5 (Some Nop) (pollset_new 3 4)))) in
  exists ps', run_timeouts exec 2 10 ps = Throw (user_error 3) ps'
              /\ time_cbs_ ps' = [mk_timer 7 1 (Some (Fail 3))].
Proof.
  intros ps.
  assert (Hq : Forall (quiet exec (fun _ s => s)) [mk_timer 5 O (Some Nop)]).
  { repeat constructor. exists Nop. split; [reflexivity|]. intros s. split; reflexivity. }
  destruct (run_timeouts_throw exec (fun _ s => s) 2 10 ps
              [mk_timer 5 O (Some Nop)] (mk_timer 7 1 (Some (Fail 3))) [] (Fail 3)
              (user_error 3) _ eq_refl Hq
              ltac:(repeat constructor; simpl; lia) ltac:(simpl; lia) eq_refl eq_refl
              ltac:(simpl; lia))
    as (Hrun & _).
  eexists. split; [exact Hrun|]. reflexivity.
Defined.

Section NextTimeout.
Context {C : Type}.
Implicit Types (ps : pollset C) (t : timer C).

(** X10.  With a timer queued whose distance from [now] fits an
    [int64_t], [next_timeout] is between 0 and [INT_MAX], is not above a
    caller timeout that is not negative, and is not above the time to the
    earliest deadline: the wait is finite even when the caller asks for
    an infinite one. *)
Theorem next_timeout_bounds (now ms : Z) ps t :
  head (time_cbs_ ps) = Some t ->
  deadline t - now <= INT64_MAX ->
  0 <= next_timeout now ms ps <= INT_MAX
  /\ (0 <= ms -> next_timeout now ms ps <= ms)
  /\ next_timeout now ms ps <= Z.max 0 (deadline t - now).
Proof.
  intros Hhead Hov. unfold next_timeout.
  destruct (time_cbs_ ps) as [|x l]; [discriminate|]. injection Hhead as ->.
  unfold INT_MAX, INT64_MAX in *.
  destruct (now >=? deadline t) eqn:E.
  { rewrite Z.geb_leb in E. apply Z.leb_le in E. lia. }
  rewrite Z.geb_leb in E. apply Z.leb_gt in E.
  assert (Hw : wrap_int64 (deadline t - now) = deadline t - now).
  { unfold wrap_int64. rewrite Z.mod_small by lia. lia. }
  rewrite Hw.
  set (wait := if deadline t - now >? 2 ^ 31 - 1 then 2 ^ 31 - 1 else deadline t - now).
  assert (Hwait : 0 < wait <= 2 ^ 31 - 1 /\ wait <= deadline t - now).
  { unfold wait. destruct (deadline t - now >? 2 ^ 31 - 1) eqn:Eg.
    - rewrite Z.gtb_ltb in Eg. apply Z.ltb_lt in Eg. lia.
    - rewrite Z.gtb_ltb in Eg. apply Z.ltb_ge in Eg. lia. }
  assert (Hwi : wrap_int wait = wait).
  { unfold wrap_int. rewrite Z.mod_small by lia. lia. }
  destruct (ms >=? 0) eqn:Em; rewrite Z.geb_leb in Em.
  - apply Z.leb_le in Em. destruct (ms <=? wait) eqn:El; simpl.
    + apply Z.leb_le in El. lia.
    + apply Z.leb_gt in El. rewrite Hwi. lia.
  - apply Z.leb_gt in Em. simpl. rewrite Hwi. lia.
Qed.

End NextTimeout.

Lemma next_timeout_bounds_witness :
  let ps := fst (emplace 5 (Some Nop) (pollset_new 3 4)) in
  0 <= next_timeout 3 (-1) ps <= INT_MAX /\ next_timeout 3 (-1) ps <= 2.
Proof.
  intros ps.
  destruct (next_timeout_bounds 3 (-1) ps (mk_timer 5 O (Some Nop)) eq_refl
              ltac:(vm_compute; discriminate)) as (Hb & _ & Hd).
  split; [exact Hb|exact Hd].
Defined.

Section Batch.
Context {C : Type} (run_cb : C -> pollset C -> outcome (pollset C)).
Context (f : C -> pollset C -> pollset C).
Implicit Types (ps : pollset C) (cbs : list (cb_t C)).

Lemma scan_wake_fold (l : list wake_type) (b : bool) :
  fold_left scan_wake l b = b || existsb is_signal l.
Proof.
  revert b. induction l as [|w l IH]; intros b; simpl.
  - by rewrite orb_false_r.
  - rewrite IH. unfold scan_wake. destruct b, (is_signal w); reflexivity.
Qed.

Lemma run_batch_returning cbs :
  forall ps, Forall (returning run_cb f) cbs ->
    run_batch run_cb cbs ps = Ret (foldl (ran f) ps cbs).
Proof.
  induction cbs as [|cb cbs IH]; intros ps Hall; simpl; [reflexivity|].
  apply Forall_cons in Hall as [(c & -> & Hc) Hall].
  simpl. rewrite Hc. by apply IH.
Qed.

Lemma run_batch_app_returning (pre : list (cb_t C)) cbs :
  forall ps, Forall (returning run_cb f) pre ->
    run_batch run_cb (pre ++ cbs) ps = run_batch run_cb cbs (foldl (ran f) ps pre).
Proof.
  induction pre as [|cb pre IH]; intros ps Hall; simpl; [reflexivity|].
  apply Forall_cons in Hall as [(c & -> & Hc) Hall].
  simpl. rewrite Hc. by apply IH.
Qed.

(** X11.  [run_pending_asyncs] first empties the self-pipe, clears the
    pending-wake flag and takes the inbox, setting [signal_pending_] when
    it was set or a [Signal] byte was in the pipe; when the callbacks
    taken all return, it calls them in the order they were queued, on the
    state with the inbox empty, and returns. *)
Theorem run_pending_asyncs_fifo ps :
  Forall (returning run_cb f) (async_cbs_ ps) ->
  let ps0 := snd (take_batch ps) in
  run_pending_asyncs run_cb ps = Ret (foldl (ran f) ps0 (async_cbs_ ps))
  /\ async_cbs_ ps0 = [] /\ async_pending_ ps0 = false /\ pipe_ ps0 = []
  /\ signal_pending_ ps0 = signal_pending_ ps || existsb is_signal (pipe_ ps)
  /\ pollfds_ ps0 = pollfds_ ps /\ state_ ps0 = state_ ps
  /\ time_cbs_ ps0 = time_cbs_ ps.
Proof.
  intros Hall. cbv zeta. unfold run_pending_asyncs, take_batch, drain_pipe.
  cbn [fst snd async_cbs_ set_pipe set_signal_pending set_async_cbs
       set_async_pending async_pending_ pipe_ signal_pending_ pollfds_ state_
       time_cbs_].
  split; [by apply run_batch_returning|].
  rewrite scan_wake_fold. repeat split; reflexivity.
Qed.

(** X12.  When the callbacks of the batch before the last return and the
    last one throws, the exception leaves [run_pending_asyncs] with the
    state as that callback left it: the callbacks before it have run in
    order and nothing is put back in the inbox. *)
Theorem run_pending_asyncs_last_throws ps (pre : list (cb_t C)) (c : C)
    (e : exn) (ps2 : pollset C) :
  async_cbs_ ps = pre ++ [Some c] ->
  Forall (returning run_cb f) pre ->
  run_cb c (foldl (ran f) (snd (take_batch ps)) pre) = Throw e ps2 ->
  run_pending_asyncs run_cb ps = Throw e ps2.
Proof.
  intros Hq Hall Hthrow. unfold run_pending_asyncs, take_batch, drain_pipe in *.
  cbn [fst snd async_cbs_ set_pipe set_signal_pending set_async_cbs
       set_async_pending] in *.
  rewrite Hq, run_batch_app_returning by exact Hall.
  cbn [run_batch call]. rewrite Hthrow. reflexivity.
Qed.

End Batch.

(** An inbox of two callbacks that each write a byte to the self-pipe,
    with a [Signal] byte waiting in the pipe. *)
Lemma run_pending_asyncs_fifo_witness :
  let run := fun (w : wake_type) (ps : pollset wake_type) => Ret (wake w ps) in
  let ps := set_pipe [Normal; Signal]
              (set_async_pending true
                 (set_async_cbs [Some Signal; Some Normal] (pollset_new 3 4))) in
  exists ps', run_pending_asyncs run ps = Ret ps'
              /\ pipe_ ps' = [Signal; Normal]
              /\ signal_pending_ ps' = true /\ async_pending_ ps' = false.
Proof.
  intros run ps.
  assert (Hall : Forall (returning run wake) (async_cbs_ ps)).
  { repeat constructor; eexists; (split; [reflexivity|]); intros s; reflexivity. }
  destruct (run_pending_asyncs_fifo run wake ps Hall) as (Hrun & _).
  eexists. split; [exact Hrun|]. repeat split; reflexivity.
Defined.

(** An inbox whose first callback returns and whose last one throws. *)
Lemma run_pending_asyncs_last_throws_witness :
  let ps := set_async_cbs [Some Nop; Some (Fail 2)] (pollset_new 3 4) in
  run_pending_asyncs exec ps = Throw (user_error 2) (set_async_cbs [] ps).
Proof.
  intros ps.
  assert (Hall : Forall (returning exec (fun _ s => s)) [Some Nop]).
  { repeat constructor. exists Nop. split; [reflexivity|]. intros s. reflexivity. }
  exact (run_pending_asyncs_last_throws exec (fun _ s => s) ps [Some Nop] (Fail 2)
           (user_error 2) _ eq_refl Hall eq_refl).
Defined.

Section Ownership.
Context {C : Type}.
Implicit Types (ow : gmap Z nat) (cm : gmap nat (gmap Z (cb_t C)))
  (sa : gmap Z sighandler) (m : gmap Z (cb_t C)).

(** The owner replaces its callback. *)
Lemma owns_replace ow cm sa (this : nat) (sig : Z) (cb : cb_t C) m :
  owns ow cm sa -> ow !! sig = Some this -> cm !! this = Some m ->
  owns ow (<[this := <[sig := cb]> m]> cm) sa.
Proof.
  intros [H1 H2] Hown Hm. split.
  - intros sig' o Ho. destruct (H1 sig' o Ho) as [(mo & Hmo & Hs) Hsa].
    split; [|exact Hsa]. destruct (decide (this = o)) as [<-|Hne].
    + exists (<[sig := cb]> m). rewrite lookup_insert_eq. split; [reflexivity|].
      destruct (decide (sig = sig')) as [<-|Hs'].
      * rewrite lookup_insert_eq. eauto.
      * rewrite lookup_insert_ne by exact Hs'. congruence.
    + exists mo. by rewrite lookup_insert_ne.
  - intros o mo sig' Hmo Hs. destruct (decide (this = o)) as [<-|Hne].
    + rewrite lookup_insert_eq in Hmo. injection Hmo as <-.
      destruct (decide (sig = sig')) as [<-|Hs'].
      * exact Hown.
      * rewrite lookup_insert_ne in Hs by exact Hs'. by apply (H2 this m).
    + rewrite lookup_insert_ne in Hmo by exact Hne. by apply (H2 o mo).
Qed.

(** A pollset takes the signal from its owner. *)
Lemma owns_steal ow cm sa (this ps : nat) (sig : Z) (cb : cb_t C) m mp :
  owns ow cm sa -> ow !! sig = Some ps -> ps <> this ->
  cm !! this = Some m -> cm !! ps = Some mp ->
  owns (<[sig := this]> ow)
       (<[ps := delete sig mp]> (<[this := <[sig := cb]> m]> cm)) sa.
Proof.
  intros [H1 H2] Hown Hne Hm Hmp. split.
  - intros sig' o Ho. destruct (decide (sig = sig')) as [<-|Hs'].
    + rewrite lookup_insert_eq in Ho. injection Ho as <-.
      split; [|by apply (H1 sig ps)].
      exists (<[sig := cb]> m).
      rewrite lookup_insert_ne, lookup_insert_eq by exact Hne.
      split; [reflexivity|]. rewrite lookup_insert_eq. eauto.
    + rewrite lookup_insert_ne in Ho by exact Hs'.
      destruct (H1 sig' o Ho) as [(mo & Hmo & Hs) Hsa]. split; [|exact Hsa].
      destruct (decide (ps = o)) as [<-|Hpo].
      * exists (delete sig mp). rewrite lookup_insert_eq. split; [reflexivity|].
        rewrite lookup_delete_ne by exact Hs'. congruence.
      * rewrite lookup_insert_ne by exact Hpo.
        destruct (decide (this = o)) as [<-|Hto].
        -- exists (<[sig := cb]> m). rewrite lookup_insert_eq. split; [reflexivity|].
           rewrite lookup_insert_ne by exact Hs'. congruence.
        -- exists mo. by rewrite lookup_insert_ne.
  - intros o mo sig' Hmo Hs. destruct (decide (ps = o)) as [<-|Hpo].
    + rewrite lookup_insert_eq in Hmo. injection Hmo as <-.
      destruct (decide (sig = sig')) as [<-|Hs'].
      * rewrite lookup_delete_eq in Hs. by destruct Hs.
      * rewrite lookup_delete_ne in Hs by exact Hs'.
        rewrite lookup_insert_ne by exact Hs'. by apply (H2 ps mp).
    + rewrite lookup_insert_ne in Hmo by exact Hpo.
      destruct (decide (this = o)) as [<-|Hto].
      * rewrite lookup_insert_eq in Hmo. injection Hmo as <-.
        destruct (decide (sig = sig')) as [<-|Hs'].
        -- by rewrite lookup_insert_eq.
        -- rewrite lookup_insert_ne in Hs by exact Hs'.
           rewrite lookup_insert_ne by exact Hs'. by apply (H2 this m).
      * rewrite lookup_insert_ne in Hmo by exact Hto.
        destruct (decide (sig = sig')) as [<-|Hs'].
        -- pose proof (H2 o mo sig Hmo Hs). congruence.
        -- rewrite lookup_insert_ne by exact Hs'. by apply (H2 o mo).
Qed.

(** A pollset installs a callback for a signal nobody owns. *)
Lemma owns_install ow cm sa (this : nat) (sig : Z) (cb : cb_t C) m :
  owns ow cm sa -> ow !! sig = None -> cm !! this = Some m ->
  owns (<[sig := this]> ow) (<[this := <[sig := cb]> m]> cm)
       (<[sig := SIG_pollset_handler]> sa).
Proof.
  intros [H1 H2] Hown Hm. split.
  - intros sig' o Ho. destruct (decide (sig = sig')) as [<-|Hs'].
    + rewrite lookup_insert_eq in Ho. injection Ho as <-.
      rewrite !lookup_insert_eq. split; [|reflexivity].
      exists (<[sig := cb]> m). split; [reflexivity|]. rewrite lookup_insert_eq. eauto.
    + rewrite lookup_insert_ne in Ho by exact Hs'.
      destruct (H1 sig' o Ho) as [(mo & Hmo & Hs) Hsa].
      split; [|by rewrite lookup_insert_ne by exact Hs'].
      destruct (decide (this = o)) as [<-|Hto].
      * exists (<[sig := cb]> m). rewrite lookup_insert_eq. split; [reflexivity|].
        rewrite lookup_insert_ne by exact Hs'. congruence.
      * exists mo. by rewrite lookup_insert_ne.
  - intros o mo sig' Hmo Hs. destruct (decide (this = o)) as [<-|Hto].
    + rewrite lookup_insert_eq in Hmo. injection Hmo as <-.
      destruct (decide (sig = sig')) as [<-|Hs'].
      * by rewrite lookup_insert_eq.
      * rewrite lookup_insert_ne in Hs by exact Hs'.
        rewrite lookup_insert_ne by exact Hs'. by apply (H2 this m).
    + rewrite lookup_insert_ne in Hmo by exact Hto.
      destruct (decide (sig = sig')) as [<-|Hs'].
      * pose proof (H2 o mo sig Hmo Hs). congruence.
      * rewrite lookup_insert_ne by exact Hs'. by apply (H2 o mo).
Qed.

(** The callback of the owner of a signal is erased. *)
Lemma owns_erase ow cm sa (ps : nat) (sig : Z) mp :
  owns ow cm sa -> ow !! sig = Some ps -> cm !! ps = Some mp ->
  owns (delete sig ow) (<[ps := delete sig mp]> cm) (<[sig := SIG_DFL]> sa).
Proof.
  intros [H1 H2] Hown Hmp. split.
  - intros sig' o Ho. destruct (decide (sig = sig')) as [<-|Hs'].
    { rewrite lookup_delete_eq in Ho. discriminate. }
    rewrite lookup_delete_ne in Ho by exact Hs'.
    destruct (H1 sig' o Ho) as [(mo & Hmo & Hs) Hsa].
    split; [|by rewrite lookup_insert_ne by exact Hs'].
    destruct (decide (ps = o)) as [<-|Hpo].
    + exists (delete sig mp). rewrite lookup_insert_eq. split; [reflexivity|].
      rewrite lookup_delete_ne by exact Hs'. congruence.
    + exists mo. by rewrite lookup_insert_ne.
  - intros o mo sig' Hmo Hs. destruct (decide (ps = o)) as [<-|Hpo].
    + rewrite lookup_insert_eq in Hmo. injection Hmo as <-.
      destruct (decide (sig = sig')) as [<-|Hs'].
      * rewrite lookup_delete_eq in Hs. by destruct Hs.
      * rewrite lookup_delete_ne in Hs by exact Hs'.
        rewrite lookup_delete_ne by exact Hs'. by apply (H2 ps mp).
    + rewrite lookup_insert_ne in Hmo by exact Hpo.
      destruct (decide (sig = sig')) as [<-|Hs'].
      * pose proof (H2 o mo sig Hmo Hs). congruence.
      * rewrite lookup_delete_ne by exact Hs'. by apply (H2 o mo).
Qed.

End Ownership.

Section SignalRouter.
Context {C : Type} (num_sig : Z) (sigaction_ok default_ends : Z -> bool).
Implicit Types (w : process C) (p : pollset C).

Lemma callbacks_of_lookup w (o : nat) :
  callbacks_of w !! o = signal_cbs_ <$> sets w !! o.
Proof. unfold callbacks_of. apply lookup_fmap. Qed.

Lemma callbacks_of_live w (o : nat) (m : gmap Z (cb_t C)) :
  callbacks_of w !! o = Some m -> exists p, sets w !! o = Some p /\ signal_cbs_ p = m.
Proof.
  rewrite callbacks_of_lookup. destruct (sets w !! o) as [p|]; [|discriminate].
  intros [= <-]. eauto.
Qed.

Lemma callbacks_of_set_sets w (o : nat) p :
  callbacks_of (set_sets (<[o := p]> (sets w)) w)
    = <[o := signal_cbs_ p]> (callbacks_of w).
Proof. unfold callbacks_of. simpl. apply fmap_insert. Qed.

(** Writing a wake byte to a pollset changes no callback map. *)
Lemma callbacks_of_wake w (o : nat) p (wt : wake_type) :
  sets w !! o = Some p ->
  callbacks_of (set_sets (<[o := wake wt p]> (sets w)) w) = callbacks_of w.
Proof.
  intros Hp. rewrite callbacks_of_set_sets. apply insert_id.
  rewrite callbacks_of_lookup, Hp. unfold wake.
  destruct (pipe_full p); reflexivity.
Qed.

(** X13.  With ownership in order and the flag of a valid signal at 0,
    the handler returns with that flag at 2 and every other flag as it
    was, the owners, the dispositions and the raised signals unchanged,
    and no pollset changed but the owner of the signal, if there is one:
    one [Signal] byte is added to its self-pipe when the pipe has room,
    and nothing is written when the pipe is full.  A second delivery
    before the flag is cleared returns at once and changes nothing. *)
Theorem signal_handler_coalesces (sig : Z) w :
  owners_ok w ->
  valid_sig num_sig sig = true ->
  signal_flag sig w = 0 ->
  exists w1,
    signal_handler num_sig sig w = Ret w1
    /\ signal_flags w1 = <[sig := 2]> (signal_flags w)
    /\ signal_owners w1 = signal_owners w /\ sigactions w1 = sigactions w
    /\ raised w1 = raised w
    /\ match signal_owners w !! sig with
       | Some o =>
           exists p, sets w !! o = Some p
                     /\ sets w1
                        = <[o := if pipe_full p then p
                                 else set_pipe (pipe_ p ++ [Signal]) p]> (sets w)
       | None => sets w1 = sets w
       end
    /\ signal_handler num_sig sig w1 = Ret w1.
Proof.
  intros [H1 _] Hvalid Hflag. unfold signal_handler. rewrite Hvalid, Hflag.
  cbn [negb Z.eqb signal_owners set_signal_flags sets].
  destruct (signal_owners w !! sig) as [o|] eqn:Ho.
  - destruct (H1 sig o Ho) as [(m & Hm & _) _].
    destruct (callbacks_of_live w o m Hm) as (p & Hp & _). rewrite Hp.
    eexists. split; [reflexivity|].
    unfold signal_flag.
    cbn [signal_flags set_signal_flags set_sets signal_owners sigactions raised sets].
    rewrite !lookup_insert_eq. cbn [default].
    split; [apply insert_insert_eq|].
    repeat (split; [reflexivity|]). split; [exists p; split; reflexivity|].
    reflexivity.
  - eexists. split; [reflexivity|].
    unfold signal_flag.
    cbn [signal_flags set_signal_flags set_sets signal_owners sigactions raised sets].
    rewrite !lookup_insert_eq. cbn [default].
    split; [apply insert_insert_eq|].
    repeat (split; [reflexivity|]). reflexivity.
Qed.

(** X14.  With ownership in order, [signal_cb(sig, cb)] by a live pollset
    for a valid signal (one [sigaction] accepts, if nobody owns it yet)
    returns with that pollset as the owner of the signal and holding the
    callback, no other pollset holding a callback for it, the owners of
    the other signals as they were, and ownership in order. *)
Theorem signal_cb_takes_ownership (this : nat) (sig : Z) (c : C) w (me : pollset C) :
  owners_ok w ->
  valid_sig num_sig sig = true ->
  sets w !! this = Some me ->
  (signal_owners w !! sig = None -> sigaction_ok sig = true) ->
  exists w',
    signal_cb num_sig sigaction_ok default_ends this sig (Some c) w = Ret w'
    /\ owners_ok w'
    /\ signal_owners w' !! sig = Some this
    /\ (exists m, callbacks_of w' !! this = Some m /\ m !! sig = Some (Some c))
    /\ (forall (o : nat) m, o <> this -> callbacks_of w' !! o = Some m -> m !! sig = None)
    /\ (forall sig', sig' <> sig -> signal_owners w' !! sig' = signal_owners w !! sig').
Proof.
  intros Hok Hvalid Hme Hsa.
  assert (Hcm : callbacks_of w !! this = Some (signal_cbs_ me)).
  { rewrite callbacks_of_lookup, Hme. reflexivity. }
  set (me1 := set_signal_cbs (<[sig := Some c]> (signal_cbs_ me)) me).
  set (w1 := set_sets (<[this := me1]> (sets w)) w).
  assert (Hstep : forall w2 : process C,
            sets w2 !! this = Some me1 ->
            owners_ok w2 -> signal_owners w2 !! sig = Some this ->
            (forall sig', sig' <> sig -> signal_owners w2 !! sig' = signal_owners w !! sig') ->
            exists w',
              (if negb (signal_flag sig w2 =? 0)
               then match sets w2 !! this with
                    | Some me' => Ret (set_sets (<[this := wake Signal me']> (sets w2)) w2)
                    | None => Undefined
                    end
               else Ret w2) = Ret w'
              /\ owners_ok w' /\ signal_owners w' !! sig = Some this
              /\ (exists m, callbacks_of w' !! this = Some m /\ m !! sig = Some (Some c))
              /\ (forall sig', sig' <> sig ->
                    signal_owners w' !! sig' = signal_owners w !! sig')).
  { intros w2 Hthis Hok2 Hown2 Hothers.
    destruct (negb (signal_flag sig w2 =? 0)).
    - rewrite Hthis. eexists. split; [reflexivity|].
      unfold owners_ok. rewrite (callbacks_of_wake w2 this me1 Signal Hthis).
      cbn [signal_owners sigactions set_sets].
      split; [exact Hok2|]. split; [exact Hown2|]. split; [|exact Hothers].
      exists (signal_cbs_ me1). rewrite callbacks_of_lookup, Hthis.
      split; [reflexivity|]. unfold me1. simpl. apply lookup_insert_eq.
    - exists w2. split; [reflexivity|]. split; [exact Hok2|].
      split; [exact Hown2|]. split; [|exact Hothers].
      exists (signal_cbs_ me1). rewrite callbacks_of_lookup, Hthis.
      split; [reflexivity|]. unfold me1. simpl. apply lookup_insert_eq. }
  assert (Hfinish : forall w',
            owners_ok w' -> signal_owners w' !! sig = Some this ->
            forall (o : nat) m, o <> this -> callbacks_of w' !! o = Some m ->
                                m !! sig = None).
  { intros w' [_ H2] Hown o m Hne Hm.
    destruct (m !! sig) as [cb|] eqn:Hs; [|reflexivity].
    pose proof (H2 o m sig Hm ltac:(rewrite Hs; eauto)). congruence. }
  unfold signal_cb. cbn [non_null negb]. rewrite Hvalid. cbn [negb]. rewrite Hme.
  cbn [signal_owners set_sets].
  destruct (signal_owners w !! sig) as [ps|] eqn:Hown.
  - destruct (decide (ps = this)) as [->|Hne].
    + exists w1. split; [reflexivity|].
      assert (Hok1 : owners_ok w1).
      { unfold owners_ok, w1. rewrite callbacks_of_set_sets.
        cbn [signal_owners sigactions set_sets]. unfold me1. simpl.
        by apply owns_replace. }
      split; [exact Hok1|]. split; [exact Hown|]. split; [|split; [|auto]].
      * exists (signal_cbs_ me1). unfold w1. rewrite callbacks_of_set_sets.
        rewrite lookup_insert_eq. split; [reflexivity|]. apply lookup_insert_eq.
      * by apply Hfinish.
    + destruct Hok as [H1 H2].
      destruct (H1 sig ps Hown) as [(mp & Hmp & _) _].
      destruct (callbacks_of_live w ps mp Hmp) as (p & Hp & Hpm). subst mp.
      cbn [sets set_signal_owners set_sets].
      rewrite lookup_insert_ne by congruence. rewrite Hp.
      set (wa := set_signal_owners (<[sig := this]> (signal_owners w1)) w1).
      set (w2 := set_sets
                   (<[ps := set_signal_cbs (delete sig (signal_cbs_ p)) p]> (sets wa)) wa).
      destruct (Hstep w2) as (w' & Hret & Hok' & Hown' & Hcb & Hothers).
      * unfold w2, wa, w1. cbn [sets set_sets set_signal_owners].
        rewrite lookup_insert_ne by congruence. apply lookup_insert_eq.
      * unfold owners_ok, w2. rewrite callbacks_of_set_sets.
        cbn [signal_owners sigactions set_sets].
        unfold wa. cbn [signal_owners sigactions set_signal_owners].
        change (callbacks_of (set_signal_owners _ w1)) with (callbacks_of w1).
        unfold w1. rewrite callbacks_of_set_sets.
        cbn [signal_owners sigactions set_sets]. unfold me1. simpl.
        apply owns_steal with (ps := ps); try assumption; try congruence.
        split; assumption.
      * unfold w2, wa. cbn [signal_owners set_signal_owners set_sets].
        apply lookup_insert_eq.
      * intros sig' Hs'. unfold w2, wa, w1.
        cbn [signal_owners set_signal_owners set_sets].
        by rewrite lookup_insert_ne.
      * exists w'. split; [exact Hret|]. split; [exact Hok'|].
        split; [exact Hown'|]. split; [exact Hcb|]. split; [by apply Hfinish|exact Hothers].
  - rewrite (Hsa eq_refl).
    set (wa := set_signal_owners (<[sig := this]> (signal_owners w1)) w1).
    set (w2 := set_sigactions (<[sig := SIG_pollset_handler]> (sigactions wa)) wa).
    destruct (Hstep w2) as (w' & Hret & Hok' & Hown' & Hcb & Hothers).
    * unfold w2, wa, w1. cbn [sets set_sets set_sigactions set_signal_owners].
      apply lookup_insert_eq.
    * unfold owners_ok, w2, wa.
      cbn [signal_owners sigactions set_signal_owners set_sigactions].
      change (callbacks_of (set_sigactions _ _)) with (callbacks_of w1).
      unfold w1. rewrite callbacks_of_set_sets.
      cbn [signal_owners sigactions set_sets]. unfold me1. simpl.
      by apply owns_install.
    * unfold w2, wa. cbn [signal_owners set_signal_owners set_sigactions].
      apply lookup_insert_eq.
    * intros sig' Hs'. unfold w2, wa, w1.
      cbn [signal_owners set_signal_owners set_sigactions set_sets].
      by rewrite lookup_insert_ne.
    * exists w'. split; [exact Hret|]. split; [exact Hok'|].
      split; [exact Hown'|]. split; [exact Hcb|]. split; [by apply Hfinish|exact Hothers].
Qed.

(** X15.  With ownership in order and no handler in progress for a valid
    signal, [signal_cb(sig, nullptr)] returns, unless it raises the
    signal and that ends the process, with nobody owning the signal and
    no pollset holding a callback for it, the other signals as they were
    and ownership in order; when the signal had an owner, its disposition
    is [SIG_DFL] and its flag 0 afterwards, and the signal has been
    raised again exactly when the flag was not 0.  When the signal had an
    owner, its flag was not 0 and the default action ends the process,
    the call does not return. *)
Theorem signal_cb_null_releases (this : nat) (sig : Z) w :
  owners_ok w ->
  valid_sig num_sig sig = true ->
  (is_Some (signal_owners w !! sig) -> sigaction_ok sig = true) ->
  Z.land (signal_flag sig w) 1 = 0 ->
  (signal_owners w !! sig = None \/ signal_flag sig w = 0 \/ default_ends sig = false ->
   exists w',
     signal_cb_null num_sig sigaction_ok default_ends this sig w = Ret w'
     /\ owners_ok w'
     /\ signal_owners w' !! sig = None
     /\ (forall (o : nat) m, callbacks_of w' !! o = Some m -> m !! sig = None)
     /\ (forall sig', sig' <> sig -> signal_owners w' !! sig' = signal_owners w !! sig')
     /\ (is_Some (signal_owners w !! sig) ->
         signal_flag sig w' = 0
         /\ sigactions w' !! sig = Some SIG_DFL
         /\ raised w' = raised w ++ (if signal_flag sig w =? 0 then [] else [sig])))
  /\ (is_Some (signal_owners w !! sig) ->
      signal_flag sig w <> 0 -> default_ends sig = true ->
      signal_cb_null num_sig sigaction_ok default_ends this sig w = Terminate).
Proof.
  intros Hok Hvalid Hsa Hflag.
  assert (Hfinish : forall w',
            owners_ok w' -> signal_owners w' !! sig = None ->
            forall (o : nat) m, callbacks_of w' !! o = Some m -> m !! sig = None).
  { intros w' [_ H2] Hown o m Hm.
    destruct (m !! sig) as [cb|] eqn:Hs; [|reflexivity].
    pose proof (H2 o m sig Hm ltac:(rewrite Hs; eauto)). congruence. }
  unfold signal_cb_null, erase_signal_cb. rewrite Hvalid. cbn [negb].
  destruct (signal_owners w !! sig) as [ps|] eqn:Hown.
  2:{ split; [|intros [x Hx]; discriminate].
      intros _. exists w. split; [reflexivity|]. split; [exact Hok|].
      split; [exact Hown|].
      split; [by apply Hfinish|]. split; [auto|]. intros [x Hx]. discriminate. }
  rewrite (Hsa ltac:(eauto)). cbn [negb].
  destruct Hok as [H1 H2].
  destruct (H1 sig ps Hown) as [(mp & Hmp & _) _].
  destruct (callbacks_of_live w ps mp Hmp) as (p & Hp & Hpm). subst mp.
  cbn [sets set_signal_owners set_sigactions]. rewrite Hp.
  set (wa := set_signal_owners (delete sig (signal_owners w))
               (set_sigactions (<[sig := SIG_DFL]> (sigactions w)) w)).
  set (w3 := set_sets (<[ps := set_signal_cbs (delete sig (signal_cbs_ p)) p]> (sets wa)) wa).
  assert (Hok3 : owners_ok w3).
  { unfold owners_ok, w3. rewrite callbacks_of_set_sets.
    cbn [signal_owners sigactions set_sets]. unfold wa.
    cbn [signal_owners sigactions set_signal_owners set_sigactions].
    change (callbacks_of (set_signal_owners _ _)) with (callbacks_of w). simpl.
    apply owns_erase; [split; assumption|exact Hown|exact Hmp]. }
  assert (Hf3 : signal_flag sig w3 = signal_flag sig w) by reflexivity.
  assert (Hown3 : signal_owners w3 !! sig = None) by apply lookup_delete_eq.
  assert (Hoth3 : forall sig', sig' <> sig ->
            signal_owners w3 !! sig' = signal_owners w !! sig').
  { intros sig' Hs'. unfold w3, wa.
    cbn [signal_owners set_signal_owners set_sets]. by apply lookup_delete_ne. }
  assert (Hsa3 : sigactions w3 !! sig = Some SIG_DFL) by apply lookup_insert_eq.
  set (call :=
    if negb (Z.land (signal_flag sig w3) 1 =? 0) then Spin w3
    else if negb (signal_flag sig w3 =? 0)
         then if default_ends sig then Terminate
              else Ret (set_raised (raised w3 ++ [sig])
                          (set_signal_flags (<[sig := 0]> (signal_flags w3)) w3))
         else Ret w3).
  change ((Some ps = None \/ signal_flag sig w = 0 \/ default_ends sig = false ->
           exists w',
             call = Ret w'
             /\ owners_ok w' /\ signal_owners w' !! sig = None
             /\ (forall (o : nat) m, callbacks_of w' !! o = Some m -> m !! sig = None)
             /\ (forall sig', sig' <> sig ->
                   signal_owners w' !! sig' = signal_owners w !! sig')
             /\ (is_Some (Some ps) ->
                 signal_flag sig w' = 0 /\ sigactions w' !! sig = Some SIG_DFL
                 /\ raised w' = raised w ++ (if signal_flag sig w =? 0 then [] else [sig])))
          /\ (is_Some (Some ps) -> signal_flag sig w <> 0 -> default_ends sig = true ->
              call = Terminate)).
  assert (Hcall : call = if signal_flag sig w =? 0 then Ret w3
                         else if default_ends sig then Terminate
                         else Ret (set_raised (raised w3 ++ [sig])
                                     (set_signal_flags (<[sig := 0]> (signal_flags w3)) w3))).
  { unfold call. rewrite Hf3, Hflag. cbn [Z.eqb negb].
    destruct (signal_flag sig w =? 0); reflexivity. }
  rewrite Hcall. clear Hcall call.
  split.
  - intros Hret.
    destruct (signal_flag sig w =? 0) eqn:Ez.
    + exists w3. split; [reflexivity|]. split; [exact Hok3|].
      split; [exact Hown3|]. split; [by apply Hfinish|]. split; [exact Hoth3|].
      intros _. split; [rewrite Hf3; by apply Z.eqb_eq|].
      split; [exact Hsa3|]. by rewrite app_nil_r.
    + destruct (default_ends sig) eqn:Ed.
      { destruct Hret as [H|[H|H]]; [discriminate| |discriminate].
        apply Z.eqb_neq in Ez. contradiction. }
      eexists. split; [reflexivity|].
      split; [exact Hok3|]. split; [exact Hown3|].
      split; [exact (Hfinish w3 Hok3 Hown3)|]. split; [exact Hoth3|].
      intros _. split; [|split; [exact Hsa3|reflexivity]].
      unfold signal_flag. cbn [signal_flags set_raised set_signal_flags].
      by rewrite lookup_insert_eq.
  - intros _ Hne Hends. apply Z.eqb_neq in Hne. rewrite Hne, Hends. reflexivity.
Qed.

(** X16.  A signal delivered to a process with ownership in order, its
    flag at 0, reaches its owner when the owner's self-pipe has room:
    after the handler, the owner's next [run_pending_asyncs], its inbox
    being empty, returns with the self-pipe empty and [signal_pending_]
    set.  When the self-pipe is full the handler writes nothing, and
    [signal_pending_] is set only if it was set already or a [Signal]
    byte was in the pipe before. *)
Theorem signal_reaches_owner (run_cb : C -> pollset C -> outcome (pollset C))
    (sig : Z) w (o : nat) :
  owners_ok w ->
  valid_sig num_sig sig = true ->
  signal_flag sig w = 0 ->
  signal_owners w !! sig = Some o ->
  (forall p, sets w !! o = Some p -> async_cbs_ p = []) ->
  exists w1 p p1 p2,
    signal_handler num_sig sig w = Ret w1
    /\ sets w !! o = Some p
    /\ sets w1 !! o = Some p1
    /\ run_pending_asyncs run_cb p1 = Ret p2
    /\ pipe_ p2 = []
    /\ (pipe_full p = false -> signal_pending_ p2 = true)
    /\ (pipe_full p = true ->
        signal_pending_ p2 = signal_pending_ p || existsb is_signal (pipe_ p)).
Proof.
  intros [H1 _] Hvalid Hflag Hown Hinbox.
  destruct (H1 sig o Hown) as [(m & Hm & _) _].
  destruct (callbacks_of_live w o m Hm) as (p & Hp & _).
  unfold signal_handler. rewrite Hvalid, Hflag.
  cbn [negb Z.eqb signal_owners set_signal_flags sets]. rewrite Hown, Hp.
  eexists _, p, (wake Signal p), _. split; [reflexivity|]. split; [reflexivity|].
  split; [cbn [sets set_signal_flags set_sets]; apply lookup_insert_eq|].
  assert (Hin : async_cbs_ (wake Signal p) = []).
  { unfold wake. destruct (pipe_full p); [exact (Hinbox p Hp)|exact (Hinbox p Hp)]. }
  unfold run_pending_asyncs, take_batch, drain_pipe.
  cbn [fst snd async_cbs_ set_pipe set_signal_pending set_async_cbs
       set_async_pending].
  rewrite Hin. split; [reflexivity|].
  cbn [signal_pending_ pipe_ set_async_cbs set_async_pending set_pipe
       set_signal_pending].
  split; [reflexivity|].
  rewrite scan_wake_fold. unfold wake.
  split; intros Hfull; rewrite Hfull.
  - cbn [pipe_ signal_pending_ set_pipe]. rewrite existsb_app. simpl.
    destruct (signal_pending_ p), (existsb is_signal (pipe_ p)); reflexivity.
  - reflexivity.
Qed.

(** X17.  When nobody owns a valid signal and [sigaction] refuses it,
    [signal_cb(sig, cb)] throws after it has stored the callback and made
    the pollset the owner: no handler is installed, and a second call by
    the same pollset stores its callback and returns without calling
    [sigaction], so still without a handler. *)
Theorem signal_cb_sigaction_refused (this : nat) (sig : Z) (c c' : C) w (me : pollset C) :
  valid_sig num_sig sig = true ->
  sets w !! this = Some me ->
  signal_owners w !! sig = None ->
  sigaction_ok sig = false ->
  exists w' w'',
    signal_cb num_sig sigaction_ok default_ends this sig (Some c) w
      = Throw (system_error "sigaction") w'
    /\ (exists m, callbacks_of w' !! this = Some m /\ m !! sig = Some (Some c))
    /\ signal_owners w' !! sig = Some this
    /\ sigactions w' = sigactions w
    /\ signal_cb num_sig sigaction_ok default_ends this sig (Some c') w' = Ret w''
    /\ (exists m, callbacks_of w'' !! this = Some m /\ m !! sig = Some (Some c'))
    /\ signal_owners w'' !! sig = Some this
    /\ sigactions w'' = sigactions w.
Proof.
  intros Hvalid Hme Hown Hrefuse.
  set (me1 := set_signal_cbs (<[sig := Some c]> (signal_cbs_ me)) me).
  set (w' := set_signal_owners (<[sig := this]> (signal_owners w))
               (set_sets (<[this := me1]> (sets w)) w)).
  set (me2 := set_signal_cbs (<[sig := Some c']> (signal_cbs_ me1)) me1).
  set (w'' := set_sets (<[this := me2]> (sets w')) w').
  assert (Hthis : sets w' !! this = Some me1) by apply lookup_insert_eq.
  assert (Hthis2 : sets w'' !! this = Some me2) by apply lookup_insert_eq.
  assert (Hown' : signal_owners w' !! sig = Some this) by apply lookup_insert_eq.
  exists w', w''.
  split.
  { unfold signal_cb. cbn [non_null negb]. rewrite Hvalid. cbn [negb]. rewrite Hme.
    cbn [signal_owners set_sets]. rewrite Hown, Hrefuse. reflexivity. }
  split.
  { exists (signal_cbs_ me1). rewrite callbacks_of_lookup, Hthis.
    split; [reflexivity|apply lookup_insert_eq]. }
  split; [exact Hown'|]. split; [reflexivity|]. split.
  { unfold signal_cb. cbn [non_null negb]. rewrite Hvalid. cbn [negb]. rewrite Hthis.
    change (signal_owners (set_sets _ w')) with (signal_owners w').
    rewrite Hown'. destruct (decide (this = this)); [reflexivity|congruence]. }
  split.
  { exists (signal_cbs_ me2). rewrite callbacks_of_lookup, Hthis2.
    split; [reflexivity|apply lookup_insert_eq]. }
  split; [exact Hown'|reflexivity].
Qed.

End SignalRouter.

Lemma two_pollsets_owned : owners_ok two_pollsets.
Proof.
  unfold owners_ok.
  change (owns (C:=act) (<[10 := 2%nat]> ∅)
            (<[2%nat := <[10 := Some Nop]> ∅]>
               (<[1%nat := ∅]> (<[2%nat := ∅]> ∅)))
            (<[10 := SIG_pollset_handler]> ∅)).
  apply owns_install.
  - split.
    + intros sig o Ho. rewrite lookup_empty in Ho. discriminate.
    + intros o m sig Hm [x Hx].
      assert (m = ∅) as ->.
      { apply lookup_insert_Some in Hm as [[_ <-]|[_ Hm]]; [reflexivity|].
        apply lookup_insert_Some in Hm as [[_ <-]|[_ Hm]]; [reflexivity|].
        rewrite lookup_empty in Hm. discriminate. }
      rewrite lookup_empty in Hx. discriminate.
  - reflexivity.
  - reflexivity.
Qed.

Lemma signal_handler_coalesces_witness :
  exists w1, signal_handler 32 10 two_pollsets = Ret w1
             /\ signal_flag 10 w1 = 2
             /\ signal_handler 32 10 w1 = Ret w1.
Proof.
  destruct (signal_handler_coalesces 32 10 two_pollsets two_pollsets_owned
              eq_refl eq_refl) as (w1 & Hret & Hflag & _ & _ & _ & _ & Hagain).
  exists w1. split; [exact Hret|]. split; [|exact Hagain].
  unfold signal_flag. rewrite Hflag, lookup_insert_eq. reflexivity.
Defined.

Lemma signal_cb_takes_ownership_witness :
  exists w', signal_cb 32 (fun _ => true) (fun _ => true) 1 10 (Some (Fail 1)) two_pollsets
               = Ret w'
             /\ owners_ok w'
             /\ signal_owners w' !! 10 = Some 1%nat.
Proof.
  destruct (signal_cb_takes_ownership 32 (fun _ => true) (fun _ => true) 1 10 (Fail 1)
              two_pollsets (pollset_new 3 4) two_pollsets_owned eq_refl eq_refl
              (fun _ => eq_refl))
    as (w' & Hret & Hok & Hown & _).
  exists w'. auto.
Defined.

(** The owner's callback for signal 10 removed with no delivery recorded,
    and with one recorded, the default action ending the process. *)
Lemma signal_cb_null_releases_witness :
  (exists w', signal_cb_null 32 (fun _ => true) (fun _ => true) 1 10 two_pollsets = Ret w'
              /\ owners_ok w'
              /\ signal_owners w' !! 10 = None)
  /\ signal_cb_null 32 (fun _ => true) (fun _ => true) 1 10
       (set_signal_flags (<[10 := 2]> ∅) two_pollsets) = Terminate.
Proof.
  split.
  - destruct (proj1 (signal_cb_null_releases 32 (fun _ => true) (fun _ => true) 1 10
                       two_pollsets two_pollsets_owned eq_refl (fun _ => eq_refl) eq_refl)
                (or_intror (or_introl eq_refl)))
      as (w' & Hret & Hok & Hown & _).
    exists w'. auto.
  - set (w2 := set_signal_flags (<[10 := 2]> ∅) two_pollsets).
    assert (Hbit : Z.land (signal_flag 10 w2) 1 = 0) by (vm_compute; reflexivity).
    refine (proj2 (signal_cb_null_releases 32 (fun _ => true) (fun _ => true) 1 10
                     w2 two_pollsets_owned eq_refl (fun _ => eq_refl) Hbit)
              _ _ eq_refl).
    + by eexists.
    + vm_compute. discriminate.
Defined.

Lemma signal_reaches_owner_witness :
  exists w1 p1 p2,
    signal_handler 32 10 two_pollsets = Ret w1
    /\ sets w1 !! 2%nat = Some p1
    /\ run_pending_asyncs exec p1 = Ret p2
    /\ signal_pending_ p2 = true /\ pipe_ p2 = [].
Proof.
  destruct (signal_reaches_owner 32 exec 10 two_pollsets 2 two_pollsets_owned
              eq_refl eq_refl eq_refl)
    as (w1 & p & p1 & p2 & Hh & Hp & Hp1 & Hrun & Hpipe & Hroom & _).
  { intros p Hp. vm_compute in Hp. injection Hp as <-. reflexivity. }
  exists w1, p1, p2.
  split; [exact Hh|]. split; [exact Hp1|]. split; [exact Hrun|].
  split; [|exact Hpipe]. apply Hroom.
  vm_compute in Hp. injection Hp as <-. vm_compute. reflexivity.
Defined.

Lemma signal_cb_sigaction_refused_witness :
  exists w' w'',
    signal_cb 32 (fun _ => false) (fun _ => true) 1 12 (Some Nop) two_pollsets
      = Throw (system_error "sigaction") w'
    /\ signal_owners w' !! 12 = Some 1%nat
    /\ sigactions w' = sigactions two_pollsets
    /\ signal_cb 32 (fun _ => false) (fun _ => true) 1 12 (Some (Fail 1)) w' = Ret w''
    /\ signal_owners w'' !! 12 = Some 1%nat
    /\ sigactions w'' = sigactions two_pollsets.
Proof.
  destruct (signal_cb_sigaction_refused 32 (fun _ => false) (fun _ => true) 1 12 Nop
              (Fail 1) two_pollsets (pollset_new 3 4) eq_refl eq_refl eq_refl eq_refl)
    as (w' & w'' & H1 & _ & H2 & H3 & H4 & _ & H5 & H6).
  exists w', w''. auto 10.
Defined.

Section Consolidation.
Context {C : Type}.
Implicit Types (ps : pollset C) (v : list pollfd) (p b : pollfd).

Lemma set_pollfds_state_id ps : set_pollfds (pollfds_ ps) ps = ps.
Proof. by destruct ps. Qed.

Lemma active_all v : (forall p, p ∈ v -> events p <> 0) -> active v = v.
Proof.
  unfold active. induction v as [|x v IH]; intros Hall; [reflexivity|].
  rewrite filter_cons_True by (apply Hall; by left).
  f_equal. apply IH. intros p Hp. apply Hall. by right.
Qed.

Lemma active_snoc_idle v b : events b = 0 -> active (v ++ [b]) = active v.
Proof.
  intros Hb. unfold active. rewrite filter_app, filter_cons_False by (intros H; by apply H).
  by rewrite filter_nil, app_nil_r.
Qed.

(** The first loop stops at once when the last slot is active. *)
Lemma pop_idle_stops (fuel : nat) ps :
  (forall b, last (pollfds_ ps) = Some b -> events b <> 0) -> pop_idle fuel ps = ps.
Proof.
  intros Hlast. destruct fuel; simpl; [reflexivity|].
  destruct (last (pollfds_ ps)) as [b|] eqn:Hb; [|reflexivity].
  destruct (events b =? 0) eqn:E; [|reflexivity].
  apply Z.eqb_eq in E. by destruct (Hlast b eq_refl).
Qed.

(** The second loop changes nothing when every slot it visits is active. *)
Lemma compact_all_active (k : nat) ps :
  all_active ps -> (k <= length (pollfds_ ps))%nat -> compact k ps = Ret ps.
Proof.
  intros Hall. induction k as [|i IH]; intros Hk; simpl; [reflexivity|].
  destruct (pollfds_ ps !! i) as [p|] eqn:Hp.
  2:{ apply lookup_ge_None in Hp. lia. }
  destruct (events p =? 0) eqn:E.
  { apply Z.eqb_eq in E. by destruct (Hall i p Hp). }
  apply IH. lia.
Qed.

Lemma consolidate_all_active ps : all_active ps -> consolidate ps = Ret ps.
Proof.
  intros Hall. unfold consolidate.
  rewrite pop_idle_stops.
  2:{ intros b Hb. rewrite last_lookup in Hb. by apply (Hall _ _ Hb). }
  destruct (length (pollfds_ ps) <? 2)%nat; [reflexivity|].
  apply compact_all_active; [exact Hall|lia].
Qed.

(** X18.  On a registry whose array and records agree, [consolidate]
    returns a state on which a second pass changes nothing; a registry
    with no idle slot is returned as it is. *)
Theorem consolidate_idempotent ps :
  registry_ok ps ->
  exists ps',
    consolidate ps = Ret ps'
    /\ consolidate ps' = Ret ps'
    /\ (all_active ps -> ps' = ps).
Proof.
  intros Hok.
  destruct (consolidate_spec ps Hok) as (ps' & Hrun & _ & Hall & _).
  exists ps'. split; [exact Hrun|]. split; [by apply consolidate_all_active|].
  intros Hact. rewrite (consolidate_all_active ps Hact) in Hrun. congruence.
Qed.

(** The first loop drops idle slots only, and keeps the records it
    leaves as they are. *)
Lemma pop_idle_keeps (fuel : nat) :
  forall ps,
    active (pollfds_ (pop_idle fuel ps)) = active (pollfds_ ps)
    /\ (forall (f : Z) (fs : fd_state C),
          state_ (pop_idle fuel ps) !! f = Some fs -> state_ ps !! f = Some fs).
Proof.
  induction fuel as [|fuel IH]; intros ps; simpl; [auto|].
  destruct (last (pollfds_ ps)) as [b|] eqn:Hlast; [|auto].
  destruct (events b =? 0) eqn:Eb; [|auto].
  apply Z.eqb_eq in Eb. apply last_Some in Hlast as [v' Hv].
  match goal with |- context [pop_idle fuel ?q] => destruct (IH q) as [IH1 IH2] end.
  split.
  - rewrite IH1. simpl. rewrite Hv, pop_back_snoc. symmetry. by apply active_snoc_idle.
  - intros f fs Hfs. apply IH2 in Hfs. simpl in Hfs.
    apply lookup_delete_Some in Hfs as [_ Hfs]. exact Hfs.
Qed.

Lemma same_callbacks_refl (a : fd_state C) : same_callbacks a a.
Proof. repeat split. Qed.

Lemma same_callbacks_trans (a b c : fd_state C) :
  same_callbacks a b -> same_callbacks b c -> same_callbacks a c.
Proof. intros (?&?&?&?) (?&?&?&?). repeat split; congruence. Qed.

(** The second loop keeps the active slots, in some order, and the
    callbacks of the records it leaves. *)
Lemma compact_keeps (k : nat) :
  forall ps ps', registry_ok ps ->
    (k < length (pollfds_ ps))%nat ->
    (forall (j : nat) p, (k <= j)%nat -> pollfds_ ps !! j = Some p -> events p <> 0) ->
    compact k ps = Ret ps' ->
    active (pollfds_ ps') ≡ₚ active (pollfds_ ps)
    /\ (forall (f : Z) (fs' : fd_state C), state_ ps' !! f = Some fs' ->
          exists fs, state_ ps !! f = Some fs /\ same_callbacks fs' fs).
Proof.
  induction k as [|i IH]; intros ps ps' Hok Hlen Hact Hrun.
  - simpl in Hrun. injection Hrun as <-. split; [reflexivity|].
    intros f fs' Hfs. exists fs'. split; [exact Hfs|apply same_callbacks_refl].
  - simpl in Hrun.
    destruct (pollfds_ ps !! i) as [pfd1|] eqn:Hi.
    2:{ apply lookup_ge_None in Hi. lia. }
    destruct (events pfd1 =? 0) eqn:E1.
    2:{ apply Z.eqb_neq in E1. apply (IH ps ps' Hok); [lia| |exact Hrun].
        intros j p Hj Hp. destruct (decide (j = i)) as [->|Hne]; [congruence|].
        apply (Hact j p); [lia|exact Hp]. }
    apply Z.eqb_eq in E1.
    destruct (last (pollfds_ ps)) as [b|] eqn:Hlast.
    2:{ apply last_None in Hlast. rewrite Hlast in Hlen. simpl in Hlen. lia. }
    apply last_Some in Hlast as [v' Hv].
    assert (Hlen' : (i < length v')%nat).
    { rewrite Hv, length_app in Hlen. simpl in Hlen. lia. }
    assert (Hi' : v' !! i = Some pfd1).
    { rewrite Hv, lookup_app_l in Hi by lia. exact Hi. }
    assert (Hb : pollfds_ ps !! length v' = Some b).
    { rewrite Hv. apply list_lookup_middle. reflexivity. }
    assert (Hbact : events b <> 0).
    { apply (Hact (length v') b); [lia|exact Hb]. }
    destruct (registry_slot_record ps _ b Hok Hb) as (fs & Hfs & Hidx).
    assert (Hfdne : fd pfd1 <> fd b).
    { intros Heq.
      assert (H1 : slots ps !! i = Some (fd b)).
      { unfold slots. rewrite <- Heq. by apply list_lookup_fmap_Some_2. }
      assert (H2 : slots ps !! length v' = Some (fd b)).
      { unfold slots. by apply list_lookup_fmap_Some_2. }
      pose proof (agree_inj _ _ _ _ _ Hok H1 H2). lia. }
    simpl in Hrun. rewrite lookup_delete_ne in Hrun by exact Hfdne.
    rewrite Hfs in Hrun.
    match type of Hrun with compact i ?q = _ => set (ps3 := q) in * end.
    assert (Hv3 : pollfds_ ps3 = <[i := b]> v').
    { unfold ps3. simpl. rewrite Hv, insert_app_l by lia. apply pop_back_snoc. }
    assert (Hok3 : registry_ok ps3).
    { unfold registry_ok, slots, indices in *. rewrite Hv3.
      unfold ps3. simpl. rewrite fmap_insert, fmap_delete, list_fmap_insert. simpl.
      apply agree_move_last.
      - rewrite Hv, fmap_snoc in Hok. exact Hok.
      - by apply list_lookup_fmap_Some_2. }
    destruct (IH ps3 ps' Hok3) as [IHp IHs]; [| |exact Hrun|].
    + rewrite Hv3, length_insert. lia.
    + intros j p Hj Hp. rewrite Hv3 in Hp.
      destruct (decide (i = j)) as [<-|Hne].
      * rewrite list_lookup_insert_eq in Hp by lia. congruence.
      * rewrite list_lookup_insert_ne in Hp by lia.
        apply (Hact j p); [lia|]. rewrite Hv. by apply lookup_app_l_Some.
    + split.
      * rewrite IHp, Hv3, Hv. unfold active.
        rewrite insert_take_drop by lia.
        rewrite <- (take_drop_middle v' i pfd1 Hi') at 3.
        rewrite !filter_app, !filter_cons.
        destruct (decide (events b <> 0)) as [_|Hn]; [|by destruct Hn].
        destruct (decide (events pfd1 <> 0)) as [Hn|_]; [by destruct Hn|].
        rewrite filter_nil. rewrite <- app_assoc.
        apply Permutation_app_head. apply Permutation_cons_append.
      * intros f fs' Hf. destruct (IHs f fs' Hf) as (fs3 & Hf3 & Hsame).
        unfold ps3 in Hf3. simpl in Hf3.
        apply lookup_insert_Some in Hf3 as [[<- <-]|[Hne Hf3]].
        -- exists fs. split; [exact Hfs|].
           eapply same_callbacks_trans; [exact Hsame|]. repeat split.
        -- apply lookup_delete_Some in Hf3 as [_ Hf3]. exists fs3. auto.
Qed.

(** X19.  On a registry whose array and records agree, [consolidate]
    returns with exactly the slots that had a non-empty interest mask, in
    some order, each with a record; every record left has the callbacks
    and one-shot flags it had, and belongs to a descriptor that had an
    active slot: no registration is lost and no idle one is kept. *)
Theorem consolidate_keeps_active ps :
  registry_ok ps ->
  exists ps',
    consolidate ps = Ret ps'
    /\ pollfds_ ps' ≡ₚ active (pollfds_ ps)
    /\ (forall (f : Z) (fs' : fd_state C), state_ ps' !! f = Some fs' ->
          exists fs, state_ ps !! f = Some fs /\ same_callbacks fs' fs)
    /\ (forall p, p ∈ pollfds_ ps -> events p <> 0 -> is_Some (state_ ps' !! fd p))
    /\ (forall f, is_Some (state_ ps' !! f) ->
          exists p, p ∈ pollfds_ ps /\ fd p = f /\ events p <> 0).
Proof.
  intros Hok.
  destruct (consolidate_spec ps Hok) as (ps' & Hrun & Hok' & Hall & _).
  exists ps'. split; [exact Hrun|].
  assert (Hact' : active (pollfds_ ps') = pollfds_ ps').
  { apply active_all. intros p Hp. apply list_elem_of_lookup_1 in Hp as [i Hp].
    by apply (Hall i p). }
  assert (Hkeep : active (pollfds_ ps') ≡ₚ active (pollfds_ ps)
                  /\ (forall (f : Z) (fs' : fd_state C), state_ ps' !! f = Some fs' ->
                        exists fs, state_ ps !! f = Some fs /\ same_callbacks fs' fs)).
  { unfold consolidate in Hrun.
    destruct (pop_idle_spec (length (pollfds_ ps)) ps Hok) as (Hok1 & _ & _ & Hl).
    specialize (Hl (Nat.le_refl _)).
    destruct (pop_idle_keeps (length (pollfds_ ps)) ps) as [Hp1 Hs1].
    set (ps1 := pop_idle (length (pollfds_ ps)) ps) in *.
    destruct (length (pollfds_ ps1) <? 2)%nat eqn:E.
    - injection Hrun as <-. split; [by rewrite Hp1|].
      intros f fs' Hf. exists fs'. split; [by apply Hs1|apply same_callbacks_refl].
    - apply Nat.ltb_ge in E.
      destruct (compact_keeps (length (pollfds_ ps1) - 1) ps1 ps' Hok1) as [Hp2 Hs2];
        [lia| |exact Hrun|].
      + intros j p Hj Hp. apply Hl. rewrite last_lookup.
        pose proof (lookup_lt_Some _ _ _ Hp) as Hlt.
        replace (pred (length (pollfds_ ps1))) with j by lia. exact Hp.
      + split; [by rewrite Hp2, Hp1|].
        intros f fs' Hf. destruct (Hs2 f fs' Hf) as (fs1 & Hf1 & Hsame).
        exists fs1. split; [by apply Hs1|exact Hsame]. }
  destruct Hkeep as [Hperm Hstate]. rewrite Hact' in Hperm.
  split; [exact Hperm|]. split; [exact Hstate|]. split.
  - intros p Hp Hne.
    assert (Hin : p ∈ pollfds_ ps').
    { rewrite Hperm. unfold active. apply list_elem_of_filter. auto. }
    apply list_elem_of_lookup_1 in Hin as [i Hi].
    destruct (registry_slot_record ps' i p Hok' Hi) as (fs & Hfs & _). eauto.
  - intros f [fs Hfs].
    destruct (registry_record_slot ps' f fs Hok' Hfs) as (_ & p & Hp & Hfd).
    apply list_elem_of_lookup_2 in Hp. rewrite Hperm in Hp.
    unfold active in Hp. apply list_elem_of_filter in Hp as [Hne Hin].
    exists p. auto.
Qed.

End Consolidation.

Section RegisterRoundTrip.
Context {C : Type}.
Implicit Types (ps : pollset C) (v : list pollfd).

Lemma alter_last v (g : pollfd -> pollfd) (x : pollfd) :
  alter g (length v) (v ++ [x]) = v ++ [g x].
Proof. induction v as [|y v IH]; simpl; [reflexivity|]. by rewrite <- IH. Qed.

Lemma lor_clear (bit : Z) : Z.land (Z.lor 0 bit) (Z.lnot bit) = 0.
Proof. rewrite Z.lor_0_l. apply Z.land_lnot_diag. Qed.

(** X20.  On a registry with no idle slot, asking [fd_cb_helper] for
    one direction of a descriptor that has no record, storing any callback
    through the reference it returns, removing the callback again and
    running the consolidation pass gives back the state there was before:
    the slot and the record the registration made are both gone. *)
Theorem register_unregister_consolidate (f op : Z) ps :
  all_active ps ->
  state_ ps !! f = None ->
  one_direction op = true ->
  let s := if has_flag op kReadFlag then RCB else WCB in
  exists ps1,
    fd_cb_helper f op ps = Ret (ps1, s)
    /\ forall cb : cb_t C,
         exists ps2, fd_cb_null f op (assign_slot f s cb ps1) = Ret ps2
                     /\ consolidate ps2 = Ret ps.
Proof.
  intros Hall Hnone Hdir s. subst s.
  destruct ps as [v st tc nn sp pp ac ap na sgp sc pc]. simpl in *.
  assert (Hlastv : forall b, last v = Some b -> events b <> 0).
  { intros b Hb. rewrite last_lookup in Hb. by apply (Hall _ _ Hb). }
  assert (Hfin3 : forall (x : fd_state C) (g h k : fd_state C -> fd_state C),
            delete f (alter g f (alter h f (alter k f (<[f := x]> st)))) = st).
  { intros x g h k. apply map_eq. intros j. destruct (decide (f = j)) as [<-|Hne].
    - by rewrite lookup_delete_eq.
    - by rewrite lookup_delete_ne, !lookup_alter_ne, lookup_insert_ne. }
  assert (Hcons : forall (e : Z) (st' : gmap Z (fd_state C)),
            e = 0 -> delete f st' = st ->
            consolidate (mk_pollset (v ++ [mk_pollfd f e 0]) st' tc nn sp pp ac ap na sgp sc pc)
            = Ret (mk_pollset v st tc nn sp pp ac ap na sgp sc pc)).
  { intros e st' -> Hst. unfold consolidate.
    cbn [pollfds_]. rewrite length_app. cbn [length]. rewrite Nat.add_1_r.
    cbn [pop_idle pollfds_]. rewrite last_snoc. cbn [events Z.eqb].
    unfold set_pollfds, set_state. cbn [pollfds_ state_ fd time_cbs_ next_node_
      selfpipe_ pipe_ async_cbs_ async_pending_ nasync_ signal_pending_ signal_cbs_].
    rewrite pop_back_snoc, Hst.
    rewrite pop_idle_stops by exact Hlastv. cbn [pollfds_].
    destruct (length v <? 2)%nat; [reflexivity|].
    apply compact_all_active; [exact Hall|cbn [pollfds_]; lia]. }
  set (x0 := set_idx (Z.of_nat (length v)) (fd_state_new (C:=C))).
  assert (Hhelp : forall (bit : Z) (g : fd_state C -> fd_state C),
            update_pollfd (length v) (or_events bit)
              (update_fd_state f g
                 (set_pollfds (v ++ [mk_pollfd f 0 0])
                    (set_state (<[f := x0]> st)
                       (mk_pollset v st tc nn sp pp ac ap na sgp sc pc))))
            = mk_pollset (v ++ [mk_pollfd f (Z.lor 0 bit) 0])
                (alter g f (<[f := x0]> st)) tc nn sp pp ac ap na sgp sc pc).
  { intros bit g. unfold update_pollfd, update_fd_state, set_pollfds, set_state.
    cbn [state_ pollfds_ time_cbs_ next_node_ selfpipe_ pipe_ async_cbs_
         async_pending_ nasync_ signal_pending_ signal_cbs_].
    rewrite alter_last. reflexivity. }
  assert (Hloc : locate f (mk_pollset v st tc nn sp pp ac ap na sgp sc pc)
                 = Ret (set_pollfds (v ++ [mk_pollfd f 0 0])
                          (set_state (<[f := x0]> st)
                             (mk_pollset v st tc nn sp pp ac ap na sgp sc pc)),
                        length v)).
  { unfold locate. cbn [state_ pollfds_]. rewrite Hnone. reflexivity. }
  assert (Hcond : forall (u : list pollfd),
            length u = S (length v) ->
            (0 <=? Z.of_nat (length v))
              && bool_decide (Z.to_nat (Z.of_nat (length v)) < length u)%nat = true).
  { intros u Hu. rewrite Nat2Z.id, bool_decide_eq_true_2 by lia.
    rewrite andb_true_r. apply Z.leb_le. lia. }
  unfold one_direction in Hdir.
  destruct (has_flag op kReadFlag) eqn:Hr, (has_flag op kWriteFlag) eqn:Hw;
    simpl in Hdir; try discriminate; cbv zeta iota.
  - exists (mk_pollset (v ++ [mk_pollfd f (Z.lor 0 POLLIN) 0])
              (alter (set_roneshot (has_flag op kOnceFlag)) f (<[f := x0]> st))
              tc nn sp pp ac ap na sgp sc pc).
    split.
    { unfold fd_cb_helper. rewrite Hloc, Hr, Hw, Hhelp. reflexivity. }
    intros cb.
    exists (mk_pollset (v ++ [mk_pollfd f (Z.land (Z.lor 0 POLLIN) (Z.lnot POLLIN)) 0])
              (alter (set_rcb None) f
                 (alter (set_rcb cb) f
                    (alter (set_roneshot (has_flag op kOnceFlag)) f (<[f := x0]> st))))
              tc nn sp pp ac ap na sgp sc pc).
    split; [|apply Hcons; [apply lor_clear|apply Hfin3]].
    unfold assign_slot, update_fd_state, set_state.
    cbn [state_ pollfds_ time_cbs_ next_node_ selfpipe_ pipe_ async_cbs_
         async_pending_ nasync_ signal_pending_ signal_cbs_].
    unfold fd_cb_null. cbn [state_ pollfds_].
    rewrite !lookup_alter_eq, lookup_insert_eq.
    cbn [fmap option_fmap option_map].
    change (idx (set_rcb cb (set_roneshot (has_flag op kOnceFlag) x0)))
      with (Z.of_nat (length v)).
    rewrite Hcond by (rewrite length_app; simpl; lia).
    rewrite Hr, Hw, Nat2Z.id.
    unfold update_fd_state, update_pollfd, set_pollfds, set_state.
    cbn [state_ pollfds_ time_cbs_ next_node_ selfpipe_ pipe_ async_cbs_
         async_pending_ nasync_ signal_pending_ signal_cbs_].
    rewrite alter_last. reflexivity.
  - exists (mk_pollset (v ++ [mk_pollfd f (Z.lor 0 POLLOUT) 0])
              (alter (set_woneshot (has_flag op kOnceFlag)) f (<[f := x0]> st))
              tc nn sp pp ac ap na sgp sc pc).
    split.
    { unfold fd_cb_helper. rewrite Hloc, Hr, Hw, Hhelp. reflexivity. }
    intros cb.
    exists (mk_pollset (v ++ [mk_pollfd f (Z.land (Z.lor 0 POLLOUT) (Z.lnot POLLOUT)) 0])
              (alter (set_wcb None) f
                 (alter (set_wcb cb) f
                    (alter (set_woneshot (has_flag op kOnceFlag)) f (<[f := x0]> st))))
              tc nn sp pp ac ap na sgp sc pc).
    split; [|apply Hcons; [apply lor_clear|apply Hfin3]].
    unfold assign_slot, update_fd_state, set_state.
    cbn [state_ pollfds_ time_cbs_ next_node_ selfpipe_ pipe_ async_cbs_
         async_pending_ nasync_ signal_pending_ signal_cbs_].
    unfold fd_cb_null. cbn [state_ pollfds_].
    rewrite !lookup_alter_eq, lookup_insert_eq.
    cbn [fmap option_fmap option_map].
    change (idx (set_wcb cb (set_woneshot (has_flag op kOnceFlag) x0)))
      with (Z.of_nat (length v)).
    rewrite Hcond by (rewrite length_app; simpl; lia).
    rewrite Hr, Hw, Nat2Z.id.
    unfold update_fd_state, update_pollfd, set_pollfds, set_state.
    cbn [state_ pollfds_ time_cbs_ next_node_ selfpipe_ pipe_ async_cbs_
         async_pending_ nasync_ signal_pending_ signal_cbs_].
    rewrite alter_last. reflexivity.
Qed.

End RegisterRoundTrip.

Section Registration.
Context {C : Type}.
Implicit Types (ps : pollset C) (v : list pollfd).

Lemma clear_events_idem (a : Z) (p : pollfd) :
  clear_events a (clear_events a p) = clear_events a p.
Proof.
  destruct p as [f e r]. unfold clear_events, set_events. cbn. f_equal.
  by rewrite <- Z.land_assoc, Z.land_diag.
Qed.

Lemma clear_events_comm (a b : Z) (p : pollfd) :
  clear_events a (clear_events b p) = clear_events b (clear_events a p).
Proof.
  destruct p as [f e r]. unfold clear_events, set_events. cbn. f_equal.
  by rewrite <- !Z.land_assoc, (Z.land_comm (Z.lnot a)).
Qed.

Lemma list_alter_fixed {A : Type} (g : A -> A) (l : list A) (i : nat) (x : A) :
  l !! i = Some x -> g x = x -> alter g i l = l.
Proof.
  intros Hl Hg. transitivity (alter id i l).
  - apply list_alter_ext; [|reflexivity]. intros y Hy. unfold id. congruence.
  - by apply list_alter_id.
Qed.

Lemma update_fixed (f : Z) (i : nat) (bit : Z) (g : fd_state C -> fd_state C)
    ps (fs : fd_state C) (p : pollfd) :
  state_ ps !! f = Some fs -> g fs = fs ->
  pollfds_ ps !! i = Some p -> clear_events bit p = p ->
  update_fd_state f g (update_pollfd i (clear_events bit) ps) = ps.
Proof.
  intros Hfs Hg Hp Hc. destruct ps as [v st tc nn sp pp ac ap na sgp sc pc].
  unfold update_fd_state, update_pollfd, set_pollfds, set_state.
  cbn [state_ pollfds_ time_cbs_ next_node_ selfpipe_ pipe_ async_cbs_
       async_pending_ nasync_ signal_pending_ signal_cbs_] in *.
  rewrite (list_alter_fixed _ v i p Hp Hc).
  rewrite (alter_id g st f); [reflexivity|]. intros x Hx. congruence.
Qed.

Lemma fd_cb_null_fixed (f op : Z) ps (fs : fd_state C) (p : pollfd) :
  state_ ps !! f = Some fs ->
  0 <= idx fs ->
  pollfds_ ps !! Z.to_nat (idx fs) = Some p ->
  (has_flag op kReadFlag = true ->
     rcb fs = None /\ clear_events POLLIN p = p) ->
  (has_flag op kWriteFlag = true ->
     wcb fs = None /\ clear_events POLLOUT p = p) ->
  fd_cb_null f op ps = Ret ps.
Proof.
  intros Hfs Hz Hp Hrd Hwr. unfold fd_cb_null. rewrite Hfs.
  pose proof (lookup_lt_Some _ _ _ Hp) as Hlt.
  replace (0 <=? idx fs) with true by (symmetry; apply Z.leb_le; lia).
  rewrite bool_decide_eq_true_2 by exact Hlt. cbn [andb]. cbv zeta.
  assert (Hr : forall c, rcb fs = c -> set_rcb c fs = fs)
    by (intros c <-; by destruct fs).
  assert (Hw : forall c, wcb fs = c -> set_wcb c fs = fs)
    by (intros c <-; by destruct fs).
  destruct (has_flag op kReadFlag).
  - destruct (Hrd eq_refl) as [Hn Hc].
    rewrite (update_fixed f _ POLLIN (set_rcb None) ps fs p Hfs (Hr _ Hn) Hp Hc).
    destruct (has_flag op kWriteFlag); [|reflexivity].
    destruct (Hwr eq_refl) as [Hn' Hc'].
    by rewrite (update_fixed f _ POLLOUT (set_wcb None) ps fs p Hfs (Hw _ Hn') Hp Hc').
  - destruct (has_flag op kWriteFlag); [|reflexivity].
    destruct (Hwr eq_refl) as [Hn' Hc'].
    by rewrite (update_fixed f _ POLLOUT (set_wcb None) ps fs p Hfs (Hw _ Hn') Hp Hc').
Qed.

(** X21.  Called with both directions, or with neither, on a registry
    whose array and records agree, [fd_cb_helper] ends the process. *)
Theorem fd_cb_helper_bad_direction (f op : Z) ps :
  registry_ok ps ->
  one_direction op = false ->
  fd_cb_helper f op ps = Terminate.
Proof.
  intros Hok Hdir. unfold fd_cb_helper.
  destruct (locate_spec f ps Hok) as (ps1 & i & Hloc & _). rewrite Hloc.
  unfold one_direction in Hdir.
  destruct (has_flag op kReadFlag), (has_flag op kWriteFlag);
    simpl in Hdir; try discriminate; reflexivity.
Qed.

(** X22.  Removing callbacks a second time changes nothing: when
    [fd_cb(fd, op, nullptr)] returns, the same call on the state it
    leaves returns that state. *)
Theorem fd_cb_null_idempotent (f op : Z) ps ps1 :
  fd_cb_null f op ps = Ret ps1 ->
  fd_cb_null f op ps1 = Ret ps1.
Proof.
  intros H. unfold fd_cb_null in H.
  destruct (state_ ps !! f) as [fs|] eqn:Hfs.
  2:{ assert (ps1 = ps) as -> by congruence. unfold fd_cb_null. by rewrite Hfs. }
  destruct ((0 <=? idx fs) && bool_decide (Z.to_nat (idx fs) < length (pollfds_ ps))%nat)
    eqn:Hin; [|discriminate H].
  apply andb_true_iff in Hin as [Hz Hlt].
  apply Z.leb_le in Hz. apply bool_decide_eq_true_1 in Hlt.
  destruct (lookup_lt_is_Some_2 _ _ Hlt) as [p Hp].
  cbv zeta in H.
  destruct (has_flag op kReadFlag) eqn:Hr, (has_flag op kWriteFlag) eqn:Hw;
    apply (f_equal (fun o => match o with Ret x => x | _ => ps end)) in H;
    cbv beta iota in H; subst ps1.
  - apply (fd_cb_null_fixed f op _ (set_wcb None (set_rcb None fs))
             (clear_events POLLOUT (clear_events POLLIN p))).
    + unfold update_fd_state, update_pollfd. cbn [state_ set_state set_pollfds].
      by rewrite !lookup_alter_eq, Hfs.
    + exact Hz.
    + unfold update_fd_state, update_pollfd. cbn [pollfds_ idx set_state set_pollfds set_wcb set_rcb].
      by rewrite !list_lookup_alter_eq, Hp.
    + intros _. split; [reflexivity|].
      by rewrite clear_events_comm, clear_events_idem.
    + intros _. split; [reflexivity|apply clear_events_idem].
  - apply (fd_cb_null_fixed f op _ (set_rcb None fs) (clear_events POLLIN p)).
    + unfold update_fd_state, update_pollfd. cbn [state_ set_state set_pollfds].
      by rewrite !lookup_alter_eq, Hfs.
    + exact Hz.
    + unfold update_fd_state, update_pollfd. cbn [pollfds_ idx set_state set_pollfds set_wcb set_rcb].
      by rewrite !list_lookup_alter_eq, Hp.
    + intros _. split; [reflexivity|apply clear_events_idem].
    + rewrite Hw. discriminate.
  - apply (fd_cb_null_fixed f op _ (set_wcb None fs) (clear_events POLLOUT p)).
    + unfold update_fd_state, update_pollfd. cbn [state_ set_state set_pollfds].
      by rewrite !lookup_alter_eq, Hfs.
    + exact Hz.
    + unfold update_fd_state, update_pollfd. cbn [pollfds_ idx set_state set_pollfds set_wcb set_rcb].
      by rewrite !list_lookup_alter_eq, Hp.
    + rewrite Hr. discriminate.
    + intros _. split; [reflexivity|apply clear_events_idem].
  - apply (fd_cb_null_fixed f op ps fs p Hfs Hz Hp).
    + rewrite Hr. discriminate.
    + rewrite Hw. discriminate.
Qed.

(** X23.  On a registry whose array and records agree, [fd_cb_helper]
    called with one direction returns the callback slot of that direction
    and leaves the descriptor with one slot: the slot its record points
    at, with the bit of the direction in the interest mask and the
    one-shot flag of the direction as the caller gave it.  The callbacks
    of the descriptor are as they were, the records of the other
    descriptors are untouched, and so are the slots of other descriptors. *)
Theorem fd_cb_helper_registers (f op : Z) ps :
  registry_ok ps ->
  one_direction op = true ->
  exists ps' (i : nat) (p : pollfd) (fs : fd_state C),
    fd_cb_helper f op ps
      = Ret (ps', if has_flag op kReadFlag then RCB else WCB)
    /\ pollfds_ ps' !! i = Some p /\ fd p = f
    /\ state_ ps' !! f = Some fs /\ idx fs = Z.of_nat i
    /\ (let bit := if has_flag op kReadFlag then POLLIN else POLLOUT in
        Z.land (events p) bit = bit)
    /\ (if has_flag op kReadFlag then roneshot fs else woneshot fs)
         = has_flag op kOnceFlag
    /\ rcb fs = rcb (default fd_state_new (state_ ps !! f))
    /\ wcb fs = wcb (default fd_state_new (state_ ps !! f))
    /\ (forall g : Z, g <> f -> state_ ps' !! g = state_ ps !! g)
    /\ (forall (j : nat) (q : pollfd),
          pollfds_ ps !! j = Some q -> fd q <> f -> pollfds_ ps' !! j = Some q).
Proof.
  intros Hok Hdir.
  assert (Hbit : forall e b : Z, Z.land (Z.lor e b) b = b).
  { intros e b. apply Z.bits_inj'. intros n _.
    rewrite Z.land_spec, Z.lor_spec.
    destruct (Z.testbit e n), (Z.testbit b n); reflexivity. }
  assert (Hloc : exists ps1 (i : nat) (p1 : pollfd) (fs1 : fd_state C),
             locate f ps = Ret (ps1, i)
             /\ pollfds_ ps1 !! i = Some p1 /\ fd p1 = f
             /\ state_ ps1 !! f = Some fs1 /\ idx fs1 = Z.of_nat i
             /\ rcb fs1 = rcb (default fd_state_new (state_ ps !! f))
             /\ wcb fs1 = wcb (default fd_state_new (state_ ps !! f))
             /\ (forall g : Z, g <> f -> state_ ps1 !! g = state_ ps !! g)
             /\ (forall (j : nat) (q : pollfd),
                   pollfds_ ps !! j = Some q -> fd q <> f ->
                   j <> i /\ pollfds_ ps1 !! j = Some q)).
  { unfold locate. destruct (state_ ps !! f) as [fs0|] eqn:Hfs; cbn [default]; unfold id; cbv zeta.
    - destruct (registry_record_slot ps f fs0 Hok Hfs) as (Hz & p1 & Hp1 & Hfd).
      replace (idx fs0 <? 0) with false by (symmetry; apply Z.ltb_ge; lia).
      rewrite Hp1. replace (fd p1 =? f) with true by (symmetry; apply Z.eqb_eq; exact Hfd).
      exists (set_state (<[f := fs0]> (state_ ps)) ps), (Z.to_nat (idx fs0)), p1, fs0.
      destruct ps as [v st tc nn sp pp ac ap na sgp sc pc].
      unfold set_state in *. cbn [state_ pollfds_] in *.
      split; [reflexivity|]. split; [exact Hp1|]. split; [exact Hfd|].
      split; [apply lookup_insert_eq|]. split; [lia|].
      split; [reflexivity|]. split; [reflexivity|].
      split; [intros g Hg; by rewrite lookup_insert_ne|].
      intros j q Hq Hne. split; [|exact Hq].
      intros ->. rewrite Hp1 in Hq. inversion Hq; subst q. contradiction.
    - cbn [fd_state_new idx]. change (-1 <? 0) with true. cbv iota.
      exists (set_pollfds (pollfds_ ps ++ [mk_pollfd f 0 0])
                (set_state (<[f := set_idx (Z.of_nat (length (pollfds_ ps))) fd_state_new]>
                              (state_ ps)) ps)),
             (length (pollfds_ ps)), (mk_pollfd f 0 0),
             (set_idx (Z.of_nat (length (pollfds_ ps))) fd_state_new).
      destruct ps as [v st tc nn sp pp ac ap na sgp sc pc].
      unfold set_state, set_pollfds in *. cbn [state_ pollfds_] in *.
      split; [reflexivity|].
      split; [by rewrite lookup_app_r, Nat.sub_diag by lia|].
      split; [reflexivity|]. split; [apply lookup_insert_eq|].
      split; [reflexivity|]. split; [reflexivity|]. split; [reflexivity|].
      split; [intros g Hg; by rewrite lookup_insert_ne|].
      intros j q Hq Hne. pose proof (lookup_lt_Some _ _ _ Hq) as Hlt.
      split; [lia|]. by rewrite lookup_app_l. }
  destruct Hloc as (ps1 & i & p1 & fs1 & Hl & Hp1 & Hfd & Hs1 & Hidx & Hr & Hw & Hst & Hpf).
  unfold fd_cb_helper. rewrite Hl.
  unfold one_direction in Hdir.
  destruct ps1 as [v st tc nn sp pp ac ap na sgp sc pc].
  unfold update_fd_state, update_pollfd, set_pollfds, set_state in *.
  cbn [state_ pollfds_ time_cbs_ next_node_ selfpipe_ pipe_ async_cbs_
       async_pending_ nasync_ signal_pending_ signal_cbs_] in *.
  destruct (has_flag op kReadFlag) eqn:Hrd, (has_flag op kWriteFlag) eqn:Hwr;
    simpl in Hdir; try discriminate.
  - exists (mk_pollset (alter (or_events POLLIN) i v)
              (alter (set_roneshot (has_flag op kOnceFlag)) f st)
              tc nn sp pp ac ap na sgp sc pc),
      i, (or_events POLLIN p1), (set_roneshot (has_flag op kOnceFlag) fs1).
    cbn [state_ pollfds_].
    split; [reflexivity|].
    split; [by rewrite list_lookup_alter_eq, Hp1|].
    split; [destruct p1; exact Hfd|].
    split; [by rewrite lookup_alter_eq, Hs1|].
    split; [destruct fs1; exact Hidx|].
    split; [destruct p1; cbn; apply Hbit|].
    split; [destruct fs1; reflexivity|].
    split; [destruct fs1; exact Hr|].
    split; [destruct fs1; exact Hw|].
    split; [intros g Hg; rewrite lookup_alter_ne by done; by apply Hst|].
    intros j q Hq Hne. destruct (Hpf j q Hq Hne) as [Hji Hq1].
    by rewrite list_lookup_alter_ne.
  - exists (mk_pollset (alter (or_events POLLOUT) i v)
              (alter (set_woneshot (has_flag op kOnceFlag)) f st)
              tc nn sp pp ac ap na sgp sc pc),
      i, (or_events POLLOUT p1), (set_woneshot (has_flag op kOnceFlag) fs1).
    cbn [state_ pollfds_].
    split; [reflexivity|].
    split; [by rewrite list_lookup_alter_eq, Hp1|].
    split; [destruct p1; exact Hfd|].
    split; [by rewrite lookup_alter_eq, Hs1|].
    split; [destruct fs1; exact Hidx|].
    split; [destruct p1; cbn; apply Hbit|].
    split; [destruct fs1; reflexivity|].
    split; [destruct fs1; exact Hr|].
    split; [destruct fs1; exact Hw|].
    split; [intros g Hg; rewrite lookup_alter_ne by done; by apply Hst|].
    intros j q Hq Hne. destruct (Hpf j q Hq Hne) as [Hji Hq1].
    by rewrite list_lookup_alter_ne.
Qed.

End Registration.

Section Readiness.
Context {C : Type} (run_cb : C -> pollset C -> outcome (pollset C)).
Implicit Types (ps : pollset C) (pfd : pollfd) (fi : fd_state C).

(** X24.  A one-shot read callback runs once.  When readiness for reading
    is reported for a slot whose read callback is one-shot, and the
    callback returns without changing the array of slots or the records,
    the dispatch returns the state the callback leaves; dispatching the
    same slot again, with the same events still reported, calls nothing;
    and [POLLIN] is no longer in the interest mask of the slot. *)
Theorem one_shot_read_runs_once i ps pfd fi (c : C) ps' :
  pollfds_ ps !! i = Some pfd ->
  state_ ps !! fd pfd = Some fi ->
  rcb fi = Some c ->
  roneshot fi = true ->
  Z.land (revents pfd) read_ready <> 0 ->
  run_cb c (disarm_read i (fd pfd) ps) = Ret ps' ->
  pollfds_ ps' = pollfds_ (disarm_read i (fd pfd) ps) ->
  state_ ps' = state_ (disarm_read i (fd pfd) ps) ->
  dispatch_read run_cb i (fd pfd) ps = Ret ps'
  /\ dispatch_read run_cb i (fd pfd) ps' = Ret ps'
  /\ exists pfd', pollfds_ ps' !! i = Some pfd' /\ Z.land (events pfd') POLLIN = 0.
Proof.
  intros Hp Hs Hc Hone Hready Hrun Hpf Hst.
  destruct (disarm_read_state i ps pfd fi Hp Hs) as [Hp' Hs'].
  rewrite <- Hpf in Hp'. rewrite <- Hst in Hs'.
  split; [|split].
  - rewrite (dispatch_read_runs run_cb i ps pfd fi Hp Hs), Hc, Hone.
    apply Z.eqb_neq in Hready. rewrite Hready. exact Hrun.
  - assert (Hfd : fd (clear_events POLLIN pfd) = fd pfd) by reflexivity.
    rewrite <- Hfd in Hs' |- *.
    rewrite (dispatch_read_runs run_cb i ps' _ _ Hp' Hs'). reflexivity.
  - exists (clear_events POLLIN pfd). split; [exact Hp'|apply clear_events_bit].
Qed.

(** X25.  When no event is reported for any slot of a registry whose
    array and records agree, the scan of [poll] over any range of slots
    calls no callback, throws nothing and leaves the state as it is,
    whatever count [r] the system call returned. *)
Theorem poll_scan_quiet (n i : nat) (r : Z) ps :
  registry_ok ps ->
  (i + n <= length (pollfds_ ps))%nat ->
  (forall (j : nat) pfd, pollfds_ ps !! j = Some pfd -> revents pfd = 0) ->
  poll_scan run_cb n i r ps = Ret ps.
Proof.
  intros Hok Hlen Hquiet. revert i r Hlen.
  induction n as [|n IH]; intros i r Hlen; [reflexivity|].
  cbn [poll_scan]. destruct (r >? 0); [|reflexivity].
  destruct (lookup_lt_is_Some_2 (pollfds_ ps) i ltac:(lia)) as [pfd Hp].
  destruct (registry_slot_record ps i pfd Hok Hp) as (fi & Hs & _).
  pose proof (Hquiet i pfd Hp) as H0.
  assert (Hrd : dispatch_read run_cb i (fd pfd) ps = Ret ps).
  { rewrite (dispatch_read_runs run_cb i ps pfd fi Hp Hs), H0.
    destruct (rcb fi); reflexivity. }
  assert (Hwr : dispatch_write run_cb (length (pollfds_ ps)) i (fd pfd) ps = Ret ps).
  { rewrite (dispatch_write_runs run_cb _ i ps pfd fi (fd pfd) (Nat.le_refl _) Hp Hs), H0.
    destruct (wcb fi); reflexivity. }
  assert (Hslot : poll_slot run_cb i ps = Ret ps).
  { unfold poll_slot. rewrite Hp, Hs, H0. change (has_flag 0 POLLNVAL) with false.
    cbv iota. rewrite Hrd. exact Hwr. }
  rewrite Hp, Hslot. cbn [bind]. apply IH. lia.
Qed.

End Readiness.

Lemma registry_example_ok :
  exists ps, registry_example = Ret ps /\ registry_ok ps.
Proof.
  unfold registry_example.
  destruct (pollset_ctor_spec (C:=act) 3 4 Nop) as (ps0 & Hctor & Hinv).
  destruct (reg_run_inv 3 [OpRegister 5 Read Nop; OpRegister 6 Write Nop;
                           OpUnregister 5 Read] ps0 Hinv) as (ps & Hrun & Hok & _).
  { repeat constructor; simpl; lia. }
  exists ps. rewrite Hctor. simpl bind. split; [exact Hrun|exact Hok].
Qed.

Lemma consolidate_idempotent_witness :
  exists ps ps', registry_example = Ret ps
                 /\ consolidate ps = Ret ps' /\ consolidate ps' = Ret ps'.
Proof.
  destruct registry_example_ok as (ps & Hps & Hok).
  destruct (consolidate_idempotent ps Hok) as (ps' & Hrun & Hagain & _).
  exists ps, ps'. auto.
Defined.

Lemma consolidate_keeps_active_witness :
  exists ps ps', registry_example = Ret ps
                 /\ consolidate ps = Ret ps'
                 /\ pollfds_ ps' ≡ₚ active (pollfds_ ps).
Proof.
  destruct registry_example_ok as (ps & Hps & Hok).
  destruct (consolidate_keeps_active ps Hok) as (ps' & Hrun & Hperm & _).
  exists ps, ps'. auto.
Defined.

Lemma register_unregister_consolidate_witness :
  exists ps0 ps1 ps2,
    pollset_ctor 3 4 Nop = Ret ps0
    /\ fd_cb_helper 7 ReadOnce ps0 = Ret (ps1, RCB)
    /\ fd_cb_null 7 ReadOnce (assign_slot 7 RCB (Some Nop) ps1) = Ret ps2
    /\ consolidate ps2 = Ret ps0.
Proof.
  assert (Hc : exists ps0 : pollset act,
             pollset_ctor 3 4 Nop = Ret ps0
             /\ all_active ps0 /\ state_ ps0 !! 7 = None).
  { eexists. split; [vm_compute; reflexivity|]. split; [|vm_compute; reflexivity].
    intros i p Hp. destruct i as [|[|i]]; cbn in Hp; [|discriminate Hp..].
    inversion Hp; subst p. vm_compute. discriminate. }
  destruct Hc as (ps0 & Hctor & Hall & Hnone).
  destruct (register_unregister_consolidate 7 ReadOnce ps0 Hall Hnone eq_refl)
    as (ps1 & Hreg & Hback).
  destruct (Hback (Some Nop)) as (ps2 & Hun & Hcons).
  exists ps0, ps1, ps2.
  split; [exact Hctor|]. split; [exact Hreg|]. split; [exact Hun|exact Hcons].
Defined.

Lemma fd_cb_helper_bad_direction_witness :
  exists ps : pollset act,
    registry_example = Ret ps /\ fd_cb_helper 6 ReadWrite ps = Terminate.
Proof.
  destruct registry_example_ok as (ps & Hps & Hok).
  exists ps. split; [exact Hps|].
  apply (fd_cb_helper_bad_direction 6 ReadWrite ps Hok). reflexivity.
Defined.

Lemma fd_cb_null_idempotent_witness :
  exists ps ps1 : pollset act,
    registry_example = Ret ps
    /\ fd_cb_null 6 Write ps = Ret ps1 /\ fd_cb_null 6 Write ps1 = Ret ps1.
Proof.
  destruct registry_example_ok as (ps & Hps & Hok).
  destruct (fd_cb_null_spec 6 Write ps Hok) as (ps1 & Hrun & _).
  exists ps, ps1. split; [exact Hps|]. split; [exact Hrun|].
  apply (fd_cb_null_idempotent 6 Write ps ps1 Hrun).
Defined.

Lemma fd_cb_helper_registers_witness :
  exists (ps ps' : pollset act) (i : nat) (p : pollfd),
    registry_example = Ret ps
    /\ fd_cb_helper 6 ReadOnce ps = Ret (ps', RCB)
    /\ pollfds_ ps' !! i = Some p /\ fd p = 6
    /\ Z.land (events p) POLLIN = POLLIN.
Proof.
  destruct registry_example_ok as (ps & Hps & Hok).
  destruct (fd_cb_helper_registers 6 ReadOnce ps Hok eq_refl)
    as (ps' & i & p & fs & Hrun & Hp & Hfd & _ & _ & Hbit & _).
  exists ps, ps', i, p.
  split; [exact Hps|]. split; [exact Hrun|]. split; [exact Hp|].
  split; [exact Hfd|exact Hbit].
Defined.

Lemma one_shot_read_runs_once_witness :
  exists ps ps' : pollset act,
    fd_cb 5 ReadOnce Nop (pollset_new 3 4) >>= (fun p => Ret (kernel_report [POLLIN] p))
      = Ret ps
    /\ dispatch_read exec O 5 ps = Ret ps'
    /\ dispatch_read exec O 5 ps' = Ret ps'.
Proof.
  eexists. eexists. split; [vm_compute; reflexivity|].
  match goal with |- dispatch_read exec O 5 ?p = _ /\ _ => set (ps := p) end.
  set (pfd := mk_pollfd 5 POLLIN POLLIN).
  set (fi := mk_fd_state (C:=act) 0 (Some Nop) None true false).
  assert (Hp : pollfds_ ps !! O = Some pfd) by (vm_compute; reflexivity).
  assert (Hs : state_ ps !! fd pfd = Some fi) by (vm_compute; reflexivity).
  assert (Hready : Z.land (revents pfd) read_ready <> 0) by (vm_compute; discriminate).
  destruct (one_shot_read_runs_once exec O ps pfd fi Nop (disarm_read O 5 ps)
              Hp Hs eq_refl eq_refl Hready eq_refl eq_refl eq_refl)
    as (Hfirst & Hsecond & _).
  split; [exact Hfirst|exact Hsecond].
Defined.

Lemma poll_scan_quiet_witness :
  exists ps : pollset act,
    registry_example = Ret ps /\ poll_scan exec 3 0 1 ps = Ret ps.
Proof.
  destruct registry_example_ok as (ps & Hps & Hok).
  assert (Hq : (0 + 3 <= length (pollfds_ ps))%nat
               /\ forall (j : nat) pfd, pollfds_ ps !! j = Some pfd -> revents pfd = 0).
  { vm_compute in Hps. injection Hps as <-. split; [cbn; lia|].
    intros j pfd Hj. destruct j as [|[|[|j]]]; cbn in Hj; [..|discriminate Hj];
      injection Hj as <-; reflexivity. }
  destruct Hq as [Hlen Hquiet].
  exists ps. split; [exact Hps|].
  apply (poll_scan_quiet exec 3 0 1 ps Hok Hlen Hquiet).
Defined.

(** A queue of two timers, at 5 and at 9. *)
Lemma timers_ok_two :
  timers_ok (fst (emplace 9 (Some Nop) (fst (emplace 5 (Some Nop) (pollset_new 3 4))))).
Proof.
  apply emplace_ok, emplace_ok.
  split; [constructor|]. split; [constructor|]. intros t Ht. inversion Ht.
Qed.

Lemma timeout_cancel_removes_witness :
  let ps := fst (emplace 9 (Some Nop) (fst (emplace 5 (Some Nop) (pollset_new 3 4)))) in
  exists ps', timeout_cancel (mk_Timeout (Some O)) ps = Ret (ps', timeout_null)
              /\ find_node O (time_cbs_ ps') = None
              /\ find_node 1%nat (time_cbs_ ps') = Some (mk_timer 9 1 (Some Nop)).
Proof.
  intros ps.
  destruct (timeout_cancel_removes O (mk_timer 5 O (Some Nop)) ps timers_ok_two eq_refl)
    as (ps' & Hret & _ & _ & Hgone & Hother & _).
  exists ps'. split; [exact Hret|]. split; [exact Hgone|].
  rewrite Hother by lia. reflexivity.
Defined.

Lemma timeout_reschedule_at_moves_witness :
  let ps := fst (emplace 9 (Some Nop) (fst (emplace 5 (Some Nop) (pollset_new 3 4)))) in
  exists ps', timeout_reschedule_at (mk_Timeout (Some O)) 20 ps
                = Ret (ps', mk_Timeout (Some 2%nat))
              /\ find_node 2%nat (time_cbs_ ps') = Some (mk_timer 20 2 (Some Nop))
              /\ find_node O (time_cbs_ ps') = None.
Proof.
  intros ps.
  destruct (timeout_reschedule_at_moves O (mk_timer 5 O (Some Nop)) 20 ps
              timers_ok_two eq_refl)
    as (ps' & Hret & _ & Hnew & Hgone & _).
  exists ps'. split; [exact Hret|]. split; [exact Hnew|exact Hgone].
Defined.

Lemma emplace_cancel_restores_witness :
  let ps := fst (emplace 9 (Some Nop) (fst (emplace 5 (Some Nop) (pollset_new 3 4)))) in
  exists ps',
    timeout_cancel (mk_Timeout (snd (emplace 7 (Some Nop) ps))) (fst (emplace 7 (Some Nop) ps))
      = Ret (ps', timeout_null)
    /\ time_cbs_ ps' = [mk_timer 5 O (Some Nop); mk_timer 9 1 (Some Nop)].
Proof.
  intros ps.
  destruct (emplace_cancel_restores 7 (Some Nop) ps timers_ok_two)
    as (ps' & Hret & Hq & _).
  exists ps'. split; [exact Hret|]. rewrite Hq. reflexivity.
Defined.

End PollsetMore.

(** ** Naming a host and a service *)

Module SocketMore.
Import Socket.

Lemma strchr_app (a b : list ascii) (c : ascii) :
  strchr (a ++ b) c = strchr a c || strchr b c.
Proof. apply existsb_app. Qed.

(** The last colon of a text splits it in one way only. *)
Lemma split_last_colon (a b s t : list ascii) :
  strchr s ":"%char = false -> strchr t ":"%char = false ->
  a ++ ":"%char :: s = b ++ ":"%char :: t -> a = b /\ s = t.
Proof.
  intros Hs Ht. revert b. induction a as [|x a IH]; intros [|y b] H; cbn in H.
  - by injection H as ->.
  - injection H as <- ->. rewrite strchr_app in Hs. cbn in Hs.
    by rewrite orb_true_r in Hs.
  - injection H as -> <-. rewrite strchr_app in Ht. cbn in Ht.
    by rewrite orb_true_r in Ht.
  - injection H as -> H. destruct (IH b H) as [-> ->]. done.
Qed.

(** X26.  The text [cat_host_service] makes names one host and one
    service: when neither service contains a colon, two pairs of a host
    and a service that give the same text are the same pair. *)
Theorem cat_host_service_inj (h1 h2 s1 s2 : list ascii) :
  strchr s1 ":"%char = false ->
  strchr s2 ":"%char = false ->
  cat_host_service (Some h1) (Some s1) = cat_host_service (Some h2) (Some s2) ->
  h1 = h2 /\ s1 = s2.
Proof.
  intros Hs1 Hs2 H. unfold cat_host_service in H. cbn [list_ascii_of_string] in H.
  rewrite <- !(app_assoc _ [":"%char]) in H. cbn [app] in H.
  destruct (strchr h1 ":"%char) eqn:Hc1, (strchr h2 ":"%char) eqn:Hc2;
    apply split_last_colon in H as [H ->]; try assumption.
  - injection H as H. by apply app_inj_tail in H as [-> _].
  - rewrite <- H in Hc2.
    change (strchr (["["%char] ++ h1 ++ ["]"%char]) ":"%char = false) in Hc2.
    rewrite !strchr_app, Hc1 in Hc2. cbn in Hc2. discriminate.
  - rewrite H in Hc1.
    change (strchr (["["%char] ++ h2 ++ ["]"%char]) ":"%char = false) in Hc1.
    rewrite !strchr_app, Hc2 in Hc1. cbn in Hc1. discriminate.
  - by subst.
Qed.

Lemma cat_host_service_inj_witness :
  cat_host_service (Some (list_ascii_of_string "::1")) (Some (list_ascii_of_string "80"))
    = list_ascii_of_string "[::1]:80"
  /\ (list_ascii_of_string "::1" = list_ascii_of_string "::1"
      /\ list_ascii_of_string "80" = list_ascii_of_string "80").
Proof.
  split; [reflexivity|].
  apply (cat_host_service_inj (list_ascii_of_string "::1") (list_ascii_of_string "::1")
           (list_ascii_of_string "80") (list_ascii_of_string "80"));
    reflexivity.
Defined.

End SocketMore.
